(** * move_basic: goal execution and its two closed-loop controllers

    A shallow embedding of [src/move_basic.cpp].  The C++ [double] is read
    as a real number ([R]): there is no rounding and no infinity.
    Every comparison the source makes becomes a boolean test on reals, and
    [std::min] / [std::max] / [std::abs] keep the argument order of the
    source.  The one NaN the program can make from finite parameters, the
    [std::sqrt] of a negative number (a negative acceleration), is
    modelled where it arises: [Num.min_sqrt] is [std::min] applied to a
    square root, with the answer [std::min] gives on a NaN.  Wall-clock
    reads ([ros::Time::now()]) and everything the collaborators return
    (transform lookups, obstacle readings, the preempt flag) are inputs of
    the tick they happen in; a controller loop runs over the finite list
    of the ticks it is given and returns when the list ends, as it does
    when [ros::ok()] turns false. *)

From Stdlib Require Import Reals Lra List Bool Ascii String.
Import ListNotations.
Open Scope R_scope.

(** ** Arithmetic of the source on reals *)

Module Num.

(** [a < b] as the source evaluates it. *)
Definition ltb (a b : R) : bool := if Rlt_dec a b then true else false.

(** [a > b] is [b < a]. *)
Definition gtb (a b : R) : bool := ltb b a.

(** [std::min(a, b)]: [(b < a) ? b : a]. *)
Definition min (a b : R) : R := if ltb b a then b else a.

(** [std::max(a, b)]: [(a < b) ? b : a]. *)
Definition max (a b : R) : R := if ltb a b then b else a.

(** [std::abs] on a double. *)
Definition abs (a : R) : R := Rabs a.

(** [std::min(a, std::sqrt(x))].  For a negative [x] the root is a NaN;
    [std::min(a, b)] is [(b < a) ? b : a] and a comparison with a NaN is
    false, so the call returns [a]. *)
Definition min_sqrt (a x : R) : R :=
  if ltb x 0 then a else min a (sqrt x).

(** [atan2(y, x)] of the C library on reals: the angle of the point
    [(x, y)], in [(-PI, PI]] (the reals have one zero, so the negative x
    axis gets [PI]). *)
Definition atan2 (y x : R) : R :=
  if ltb 0 x then atan (y / x)
  else if ltb x 0 then
    (if ltb y 0 then atan (y / x) - PI else atan (y / x) + PI)
  else if ltb 0 y then PI / 2
  else if ltb y 0 then - (PI / 2)
  else 0.

End Num.

(** ** Configuration (the tunable members of [MoveBasic]) *)

Record Config := mkConfig {
  minTurningVelocity : R;
  maxTurningVelocity : R;
  angularAcceleration : R;
  angularTolerance : R;
  maxLateralVelocity : R;
  maxLinearVelocity : R;
  linearAcceleration : R;
  linearTolerance : R;
  lateralKp : R;
  lateralKi : R;
  lateralKd : R;
  linGain : R;
  rotGain : R;
  velThreshold : R;
  abortTimeoutSecs : R;
  obstacleWaitThreshold : R;
  forwardObstacleThreshold : R;
  localizationLatency : R;
  preferredPlanningFrame : string;
  alternatePlanningFrame : string;
  preferredDrivingFrame : string;
  alternateDrivingFrame : string;
  baseFrame : string;
  minSideDist : R;
  sideRecoverWeight : R;
  reverseWithoutTurningThreshold : R
}.

(** The defaults of the constructor (lines 178-231). *)
Definition defaultConfig : Config := {|
  minTurningVelocity := 2 / 100;
  maxTurningVelocity := 1;
  angularAcceleration := 3 / 10;
  angularTolerance := 1 / 100;
  maxLateralVelocity := 1 / 2;
  maxLinearVelocity := 1 / 2;
  linearAcceleration := 1 / 10;
  linearTolerance := 1 / 10;
  lateralKp := 2;
  lateralKi := 0;
  lateralKd := 20;
  linGain := 1;
  rotGain := 5 / 2;
  velThreshold := 1 / 10;
  abortTimeoutSecs := 5;
  obstacleWaitThreshold := 60;
  forwardObstacleThreshold := 1 / 2;
  localizationLatency := 1 / 2;
  preferredPlanningFrame := EmptyString;
  alternatePlanningFrame := "odom";
  preferredDrivingFrame := "map";
  alternateDrivingFrame := "odom";
  baseFrame := "base_footprint";
  minSideDist := 3 / 10;
  sideRecoverWeight := 1;
  reverseWithoutTurningThreshold := 1 / 2
|}.

(** ** Geometry: [tf2::Vector3] and the part of [tf2::Transform] used *)

Record Vector3 := mkVector3 { vx : R; vy : R; vz : R }.

(** [tf2::Vector3::length]. *)
Definition length (v : Vector3) : R :=
  sqrt (vx v * vx v + vy v * vy v + vz v * vz v).

(** [tf2::Vector3::setZ]. *)
Definition setZ (v : Vector3) (z : R) : Vector3 := mkVector3 (vx v) (vy v) z.

(** What the program asks of a [tf2::Transform]: composition
    ([operator*]), the origin, the yaw that [getBasis().getRPY] returns,
    and whether that yaw is a NaN ([std::isnan], line 374; a real number
    cannot carry this, so the transform type answers it). *)
Class Tf2 (T : Type) := {
  tf_mul : T -> T -> T;
  getOrigin : T -> Vector3;
  getRPY_yaw : T -> R;
  yaw_isnan : T -> bool
}.

(** Transforms with the identity rotation: composition adds the origins
    and the yaw is zero. *)
#[export] Instance Translation : Tf2 Vector3 := {|
  tf_mul := fun a b => mkVector3 (vx a + vx b) (vy a + vy b) (vz a + vz b);
  getOrigin := fun a => a;
  getRPY_yaw := fun _ => 0;
  yaw_isnan := fun _ => false
|}.

(** ** Outputs *)

Inductive Event :=
| Cmd (angular linear : R)        (* sendCmd *)
| Abort (msg : string)            (* abortGoal: setAborted and log *)
| Succeeded                       (* actionServer->setSucceeded() *)
| Path (x0 y0 x1 y1 : R)          (* pathPub.publish *)
| PidDebug (x err rot : R)        (* errorPub.publish *)
| Sleep (secs : R).               (* sleep(localizationLatency) *)

(** ** Pose utilities *)

(** [normalizeAngle] (lines 146-154): two independent tests in sequence on
    the angle passed by reference; the second test sees the result of the
    first. *)
Definition normalizeAngle (angle : R) : R :=
  let angle := if Num.ltb angle (- PI) then angle + 2 * PI else angle in
  if Num.gtb angle PI then angle - 2 * PI else angle.

(** ** Rotation controller: one pass of the loop body of [rotate] *)

(** What the collaborators answer during one tick of [rotate]. *)
Record RotSense := mkRotSense {
  obstacle_angle : bool -> R;     (* collision_checker->obstacle_angle(left) *)
  rot_preempt : bool              (* actionServer->isPreemptRequested() *)
}.

Record RotStep := mkRotStep {
  rs_velocity : R;                (* the angular velocity sent *)
  rs_done : bool;
  rs_success : bool
}.

(** The velocity computed at lines 583-587, before any exit test. *)
Definition rotate_velocity (cfg : Config) (angleRemaining obstacle : R) : R :=
  let remaining := Num.min (Num.abs angleRemaining) (Num.abs obstacle) in
  Num.max (minTurningVelocity cfg)
    (Num.min (rotGain cfg * remaining)
       (Num.min_sqrt (maxTurningVelocity cfg)
          (2 * angularAcceleration cfg * remaining))).

(** Lines 580-608, after the pose lookup succeeded.  [done] and [success]
    are both false whenever the body is entered. *)
Definition rotate_tick (cfg : Config) (requestedYaw currentYaw : R)
    (s : RotSense) : RotStep :=
  let angleRemaining := normalizeAngle (requestedYaw - currentYaw) in
  let obstacle := obstacle_angle s (Num.gtb angleRemaining 0) in
  let velocity := rotate_velocity cfg angleRemaining obstacle in
  let done := false in
  let success := false in
  let '(done, success, velocity) :=
    if rot_preempt s then (true, false, 0) else (done, success, velocity) in
  let '(done, success, velocity) :=
    if Num.ltb (Num.abs angleRemaining) (angularTolerance cfg)
    then (true, true, 0) else (done, success, velocity) in
  let reverse := Num.ltb angleRemaining 0 in
  let velocity := if reverse then - velocity else velocity in
  mkRotStep velocity done success.

(** ** Linear controller: one pass of the loop body of [moveLinear] *)

(** What the collaborators answer during one tick of [moveLinear]. *)
Record LinSense := mkLinSense {
  forwardObstacleDist : R;        (* the member written by [run] *)
  obstacle_dist : bool -> R;      (* collision_checker->obstacle_dist(forward, ...) *)
  lin_preempt : bool;             (* actionServer->isPreemptRequested() *)
  now_obstacle : R;               (* ros::Time::now() at line 699 or 704 *)
  now_progress : R                (* ros::Time::now() at line 729 or 737 *)
}.

(** Locals of [moveLinear] fixed before the loop (lines 627-633). *)
Record LinCall := mkLinCall {
  forward : bool;
  requestedDistance : R;
  abortTimeout : R
}.

(** Locals of [moveLinear] that the loop body updates. *)
Record LinState := mkLinState {
  prevDistRemaining : R;
  pausingForObstacle : bool;
  last : R;
  obstacleTime : R;
  lateralIntegral : R;
  lateralError : R;
  prevLateralError : R;
  lateralDiff : R
}.

Record LinStep := mkLinStep {
  ls_pid : R * R * R;             (* pid_debug: x, lateral error, rotation *)
  ls_rotation : R;                (* angular part of the command *)
  ls_velocity : R;                (* linear part of the command *)
  ls_aborts : list string;        (* abortGoal messages, in order *)
  ls_done : bool;
  ls_success : bool
}.

Definition msg_obstacle : string := "MoveBasic: Aborting due to obstacle".
Definition msg_no_progress : string :=
  "MoveBasic: No progress towards goal for longer than timeout".
Definition msg_linear_pose : string :=
  "MoveBasic: Cannot determine robot pose for linear".
Definition msg_rotation_pose : string :=
  "MoveBasic: Cannot determine robot pose for rotation".

(** Lines 625-640: the locals from the goal position in the base frame
    and the clock read at entry. *)
Definition linear_call (cfg : Config) (remaining : Vector3) : LinCall :=
  mkLinCall (Num.gtb (vx remaining) 0) (length remaining)
            (abortTimeoutSecs cfg).

Definition linear_init (remaining : Vector3) (now : R) : LinState :=
  mkLinState (length remaining) false now 0 0 0 0 0.

(** Line 655. *)
Definition distRemainingOf (remaining : Vector3) : R :=
  sqrt (vx remaining * vx remaining + vy remaining * vy remaining).

(** Lines 682-689: the obstacle distance the tick works with. *)
Definition obstacleDistOf (call : LinCall) (s : LinSense) : R :=
  if Num.ltb (requestedDistance call) 0
  then obstacle_dist s false
  else forwardObstacleDist s.

(** Lines 691-692. *)
Definition linear_velocity (cfg : Config) (obstacleDist distRemaining : R) : R :=
  Num.min
    (linGain cfg * Num.min (Num.abs obstacleDist) (Num.abs distRemaining))
    (Num.min_sqrt (maxLinearVelocity cfg)
       (2 * linearAcceleration cfg *
        Num.min (Num.abs obstacleDist) (Num.abs distRemaining))).

(** Lines 658-667: the lateral PID, in the statement order of the source.
    Returns the new accumulators and the clamped rotation. *)
Definition lateral_pid (cfg : Config) (st : LinState) (remaining : Vector3)
    : R * R * R * R * R :=
  let lateralDiff := lateralError st - prevLateralError st in
  let lateralError := sideRecoverWeight cfg * vy remaining in
  let prevLateralError := lateralError in
  let lateralIntegral := lateralIntegral st + lateralError in
  let rotation := (lateralKp cfg * lateralError)
                  + (lateralKi cfg * lateralIntegral)
                  + (lateralKd cfg * lateralDiff) in
  let rotation := Num.max (- maxLateralVelocity cfg)
                    (Num.min (maxLateralVelocity cfg) rotation) in
  (lateralDiff, lateralError, prevLateralError, lateralIntegral, rotation).

(** Lines 653-753, after the pose lookup succeeded and [remaining] was
    read from it.  [done] and [success] are both false whenever the body
    is entered. *)
Definition moveLinear_tick (cfg : Config) (call : LinCall) (st : LinState)
    (remaining : Vector3) (s : LinSense) : LinStep * LinState :=
  let distRemaining := distRemainingOf remaining in
  let '(lateralDiff, lateralError, prevLateralError, lateralIntegral, rotation) :=
    lateral_pid cfg st remaining in
  let pid_debug := (vx remaining, lateralError, rotation) in
  (* Collision avoidance *)
  let obstacleDist := obstacleDistOf call s in
  let velocity := linear_velocity cfg obstacleDist distRemaining in
  let done := false in
  let success := false in
  let obstacleDetected := Num.ltb obstacleDist (forwardObstacleThreshold cfg) in
  let '(velocity, obstacleTime, pausing, aborts, done, success) :=
    if obstacleDetected then
      if negb (pausingForObstacle st)
      then (0, now_obstacle s, true, [], done, success)
      else
        let waitTime := now_obstacle s - obstacleTime st in
        if Num.gtb waitTime (obstacleWaitThreshold cfg)
        then (0, obstacleTime st, pausingForObstacle st, [msg_obstacle], true, false)
        else (0, obstacleTime st, pausingForObstacle st, [], done, success)
    else (velocity, obstacleTime st, pausingForObstacle st, [], done, success) in
  let pausing :=
    if negb obstacleDetected && pausing then false else pausing in
  (* Abort checks *)
  let '(velocity, done, success) :=
    if lin_preempt s then (0, true, false) else (velocity, done, success) in
  let '(prevDist, last', velocity, aborts, done, success) :=
    if Num.gtb distRemaining (prevDistRemaining st) then
      if Num.gtb (now_progress s - last st) (abortTimeout call)
      then (distRemaining, last st, 0, aborts ++ [msg_no_progress], true, false)
      else (distRemaining, last st, velocity, aborts, done, success)
    else (prevDistRemaining st, now_progress s, velocity, aborts, done, success) in
  (* Finish check *)
  let '(velocity, done, success) :=
    if Num.ltb (Num.abs velocity) (velThreshold cfg)
       && Num.ltb distRemaining (linearTolerance cfg)
    then (0, true, true) else (velocity, done, success) in
  let velocity := if negb (forward call) then - velocity else velocity in
  (mkLinStep pid_debug rotation velocity aborts done success,
   mkLinState prevDist pausing last' obstacleTime
              lateralIntegral lateralError prevLateralError lateralDiff).

(** ** The transform provider and the two controller loops *)

(** A snapshot of the transform buffer: [getTransform(from, to, tf)]
    (lines 266-278) either yields a transform or fails. *)
Definition TfBuffer (T : Type) : Type := string -> string -> option T.

Section Controllers.

Context {T : Type} {tf2 : Tf2 T}.

Definition getTransform (buf : TfBuffer T) (from to : string) : option T :=
  buf from to.

(** [transformPose] (lines 282-291): [out = tf * in]. *)
Definition transformPose (buf : TfBuffer T) (from to : string) (inp : T)
    : option T :=
  match getTransform buf from to with
  | None => None
  | Some tf => Some (tf_mul tf inp)
  end.

(** [getPose] (lines 159-167). *)
Definition getPose (tf : T) : R * R * R :=
  let trans := getOrigin tf in
  (vx trans, vy trans, getRPY_yaw tf).

(** What one controller call sees of the world: the buffer at entry (and,
    for [moveLinear], the clock at entry), then one buffer and one set of
    collaborator answers per pass of the loop.  The list ends where
    [ros::ok()] turns false. *)
Record RotWorld := mkRotWorld {
  rw_entry : TfBuffer T;
  rw_ticks : list (TfBuffer T * RotSense)
}.

Record LinWorld := mkLinWorld {
  lw_entry : TfBuffer T;
  lw_now : R;
  lw_ticks : list (TfBuffer T * LinSense)
}.

(** The loop of [rotate] (lines 568-610). *)
Fixpoint rotate_loop (cfg : Config) (drivingFrame : string) (requestedYaw : R)
    (ticks : list (TfBuffer T * RotSense)) : bool * list Event :=
  match ticks with
  | [] => (false, [])
  | (buf, s) :: rest =>
      match getTransform buf (baseFrame cfg) drivingFrame with
      | None => (false, [Abort msg_rotation_pose])
      | Some poseDriving =>
          let '(_, _, currentYaw) := getPose poseDriving in
          let step := rotate_tick cfg requestedYaw currentYaw s in
          let ev := Cmd (rs_velocity step) 0 in
          if rs_done step then (rs_success step, [ev])
          else
            let '(r, evs) := rotate_loop cfg drivingFrame requestedYaw rest in
            (r, ev :: evs)
      end
  end.

(** [rotate] (lines 550-612). *)
Definition rotate (cfg : Config) (yaw : R) (drivingFrame : string)
    (w : RotWorld) : bool * list Event :=
  match getTransform (rw_entry w) (baseFrame cfg) drivingFrame with
  | None => (false, [Abort msg_rotation_pose])
  | Some poseDriving =>
      let '(_, _, currentYaw) := getPose poseDriving in
      let requestedYaw := normalizeAngle (currentYaw + yaw) in
      rotate_loop cfg drivingFrame requestedYaw (rw_ticks w)
  end.

(** The events of one pass of the loop of [moveLinear], in program order. *)
Definition linear_events (step : LinStep) : list Event :=
  let '(x, err, rot) := ls_pid step in
  PidDebug x err rot :: map Abort (ls_aborts step)
    ++ [Cmd (ls_rotation step) (ls_velocity step)].

(** The loop of [moveLinear] (lines 645-755); a failed lookup inside the
    loop only warns and returns. *)
Fixpoint linear_loop (cfg : Config) (drivingFrame : string) (goalInDriving : T)
    (call : LinCall) (st : LinState)
    (ticks : list (TfBuffer T * LinSense)) : bool * list Event :=
  match ticks with
  | [] => (false, [])
  | (buf, s) :: rest =>
      match getTransform buf drivingFrame (baseFrame cfg) with
      | None => (false, [])
      | Some poseDriving =>
          let goalInBase := tf_mul poseDriving goalInDriving in
          let remaining := getOrigin goalInBase in
          let '(step, st') := moveLinear_tick cfg call st remaining s in
          if ls_done step then (ls_success step, linear_events step)
          else
            let '(r, evs) :=
              linear_loop cfg drivingFrame goalInDriving call st' rest in
            (r, linear_events step ++ evs)
      end
  end.

(** [moveLinear] (lines 616-757). *)
Definition moveLinear (cfg : Config) (goalInDriving : T)
    (drivingFrame : string) (w : LinWorld) : bool * list Event :=
  match getTransform (lw_entry w) drivingFrame (baseFrame cfg) with
  | None => (false, [Abort msg_linear_pose])
  | Some poseDriving =>
      let goalInBase := tf_mul poseDriving goalInDriving in
      let remaining := getOrigin goalInBase in
      linear_loop cfg drivingFrame goalInDriving
        (linear_call cfg remaining) (linear_init remaining (lw_now w))
        (lw_ticks w)
  end.

(** ** Goal execution *)

Record Goal := mkGoal {
  target_pose : T;
  frame_id : string
}.

(** What [executeAction] sees of the world: the buffer while the goal is
    being planned, then the worlds of the three controller calls. *)
Record World := mkWorld {
  w_start : TfBuffer T;
  w_rot1 : RotWorld;
  w_lin : LinWorld;
  w_rot2 : RotWorld
}.

(** Lines 366-367. *)
Definition strip_slash (frameId : string) : string :=
  match frameId with
  | String "/"%char rest => rest
  | _ => frameId
  end.

(** Lines 385-402: the goal in the planning frame, or nothing when both
    lookups fail. *)
Definition resolvePlanning (cfg : Config) (buf : TfBuffer T)
    (frameId : string) (goal : T) : option (string * T) :=
  if String.eqb (preferredPlanningFrame cfg) EmptyString then Some (frameId, goal)
  else
    match transformPose buf frameId (preferredPlanningFrame cfg) goal with
    | Some goalInPlanning => Some (preferredPlanningFrame cfg, goalInPlanning)
    | None =>
        match transformPose buf frameId (alternatePlanningFrame cfg) goal with
        | Some goalInPlanning =>
            Some (alternatePlanningFrame cfg, goalInPlanning)
        | None => None
        end
    end.

(** Lines 434-448: the driving frame and the robot pose in it. *)
Definition resolveDriving (cfg : Config) (buf : TfBuffer T)
    : option (string * T) :=
  match getTransform buf (preferredDrivingFrame cfg) (baseFrame cfg) with
  | Some currentDrivingBase =>
      Some (preferredDrivingFrame cfg, currentDrivingBase)
  | None =>
      match getTransform buf (alternateDrivingFrame cfg) (baseFrame cfg) with
      | Some currentDrivingBase =>
          Some (alternateDrivingFrame cfg, currentDrivingBase)
      | None => None
      end
  end.

(** Lines 466-467. *)
Definition reverseWithoutTurning (cfg : Config) (linear : Vector3) : bool :=
  Num.gtb (reverseWithoutTurningThreshold cfg) (length linear)
  && Num.ltb (vx linear) 0.

(** Lines 475-483: the yaw requested of the initial rotation. *)
Definition initialYaw (cfg : Config) (linear : Vector3) : R :=
  let requestedYaw := Num.atan2 (vy linear) (vx linear) in
  if reverseWithoutTurning cfg linear then
    if Num.gtb requestedYaw 0 then - PI + requestedYaw
    else PI - requestedYaw
  else requestedYaw.

(** Line 486: whether the initial rotation is run. *)
Definition needsInitialRotation (cfg : Config) (linear : Vector3) : bool :=
  Num.gtb (Num.abs (initialYaw cfg linear)) (angularTolerance cfg).

(** Lines 474-507: the three phases, once the goal is planned.  [yaw] is
    the yaw of the robot in the goal frame and [goalYaw] the yaw of the
    goal in the planning frame, as read before. *)
Definition drive (cfg : Config) (w : World) (drivingFrame : string)
    (goalInDriving : T) (linear : Vector3) (yaw goalYaw : R) : list Event :=
  let dist := length linear in
  if Num.gtb dist (linearTolerance cfg) then
    let requestedYaw := initialYaw cfg linear in
    let '(ok1, ev1) :=
      if needsInitialRotation cfg linear
      then rotate cfg requestedYaw drivingFrame (w_rot1 w)
      else (true, []) in
    if negb ok1 then ev1
    else
      let '(ok2, ev2) := moveLinear cfg goalInDriving drivingFrame (w_lin w) in
      if negb ok2 then ev1 ++ Sleep (localizationLatency cfg) :: ev2
      else
        let finalYaw := goalYaw - (yaw + requestedYaw) in
        let '(ok3, ev3) :=
          if Num.gtb (Num.abs finalYaw) (angularTolerance cfg)
          then rotate cfg finalYaw drivingFrame (w_rot2 w)
          else (true, []) in
        let evs := ev1 ++ Sleep (localizationLatency cfg) :: ev2
                   ++ Sleep (localizationLatency cfg) :: ev3 in
        if negb ok3 then evs else evs ++ [Succeeded]
  else [Succeeded].

(** [executeAction] (lines 348-508). *)
Definition executeAction (cfg : Config) (msg : Goal) (w : World)
    : list Event :=
  let goal := target_pose msg in
  let frameId := strip_slash (frame_id msg) in
  if yaw_isnan goal then
    [Abort "MoveBasic: Aborting goal because an invalid orientation was specified"]
  else
  match resolvePlanning cfg (w_start w) frameId goal with
  | None => [Abort "MoveBasic: No localization available for planning"]
  | Some (planningFrame, goalInPlanning) =>
  let '(x, y, goalYaw) := getPose goalInPlanning in
  match getTransform (w_start w) (baseFrame cfg) frameId with
  | None => [Abort "MoveBasic: Cannot determine robot pose in goal frame"]
  | Some poseFrameId =>
  let '(x1, y1, yaw) := getPose poseFrameId in
  let path := Path x y x1 y1 in
  match resolveDriving cfg (w_start w) with
  | None =>
      [path; Abort "MoveBasic: Cannot determine robot pose in driving frame"]
  | Some (drivingFrame, currentDrivingBase) =>
  match transformPose (w_start w) frameId drivingFrame goal with
  | None =>
      [path; Abort "MoveBasic: Cannot determine goal pose in driving frame"]
  | Some goalInDriving =>
  let goalInBase := tf_mul currentDrivingBase goalInDriving in
  let linear := setZ (getOrigin goalInBase) 0 in
  match transformPose (w_start w) frameId (baseFrame cfg) goal with
  | None => [path]
  | Some _ =>
      path :: drive cfg w drivingFrame goalInDriving linear yaw goalYaw
  end end end end end.

End Controllers.

(** ** Worlds that differ only in lookups the program does not make *)

Section SameWorld.

Context {T : Type}.

(** Two buffers answer alike the two lookups between [frame] and the base
    frame. *)
Definition same_lookups (cfg : Config) (frame : string)
    (b1 b2 : TfBuffer T) : Prop :=
  b1 frame (baseFrame cfg) = b2 frame (baseFrame cfg) /\
  b1 (baseFrame cfg) frame = b2 (baseFrame cfg) frame.

Definition same_ticks {S : Type} (cfg : Config) (frame : string)
    (t1 t2 : list (TfBuffer T * S)) : Prop :=
  Forall2 (fun a b => same_lookups cfg frame (fst a) (fst b) /\ snd a = snd b)
          t1 t2.

Definition same_rot_world (cfg : Config) (frame : string)
    (w1 w2 : @RotWorld T) : Prop :=
  same_lookups cfg frame (rw_entry w1) (rw_entry w2) /\
  same_ticks cfg frame (rw_ticks w1) (rw_ticks w2).

Definition same_lin_world (cfg : Config) (frame : string)
    (w1 w2 : @LinWorld T) : Prop :=
  same_lookups cfg frame (lw_entry w1) (lw_entry w2) /\
  lw_now w1 = lw_now w2 /\
  same_ticks cfg frame (lw_ticks w1) (lw_ticks w2).

(** The two worlds are the same while the goal is planned and, later on,
    answer alike the lookups between [frame] and the base frame; any
    other lookup may differ. *)
Definition same_world (cfg : Config) (frame : string)
    (w1 w2 : @World T) : Prop :=
  w_start w1 = w_start w2 /\
  same_rot_world cfg frame (w_rot1 w1) (w_rot1 w2) /\
  same_lin_world cfg frame (w_lin w1) (w_lin w2) /\
  same_rot_world cfg frame (w_rot2 w1) (w_rot2 w2).

End SameWorld.

(** ** Runs of the loop body of [moveLinear] on given readings *)

(** The locals of [moveLinear] after the loop body ran on each reading in
    turn, the pose lookups having succeeded. *)
Definition linear_after (cfg : Config) (call : LinCall) (st : LinState)
    (inputs : list (Vector3 * LinSense)) : LinState :=
  fold_left
    (fun st i => snd (moveLinear_tick cfg call st (fst i) (snd i)))
    inputs st.

(** Whether a pass of the loop body ended in the no-progress abort. *)
Definition stalled (step : LinStep) : bool :=
  existsb (String.eqb msg_no_progress) (ls_aborts step).

(** The largest of the requested distance and the distances read so far. *)
Definition high_water (requested : R) (inputs : list (Vector3 * LinSense)) : R :=
  fold_left (fun m i => Rmax m (distRemainingOf (fst i))) inputs requested.

(** The passes the loop of [moveLinear] makes on given readings, the pose
    lookups having succeeded: the loop stops after the first pass that
    sets [done]. *)
Fixpoint linear_steps (cfg : Config) (call : LinCall) (st : LinState)
    (inputs : list (Vector3 * LinSense)) : list LinStep :=
  match inputs with
  | [] => []
  | (remaining, s) :: rest =>
      let '(step, st') := moveLinear_tick cfg call st remaining s in
      if ls_done step then [step]
      else step :: linear_steps cfg call st' rest
  end.

(** Every reading of the series exceeds the one before, the first one
    exceeding [mark]. *)
Fixpoint climbing (mark : R) (inputs : list (Vector3 * LinSense)) : Prop :=
  match inputs with
  | [] => True
  | i :: rest =>
      mark < distRemainingOf (fst i) /\ climbing (distRemainingOf (fst i)) rest
  end.

(** The readings the loop of [moveLinear] takes from its ticks: the goal
    position in the base frame and the collaborator answers of each tick,
    up to the first failed pose lookup. *)
Fixpoint readings_of {T : Type} {tf2 : Tf2 T} (cfg : Config)
    (drivingFrame : string) (goalInDriving : T)
    (ticks : list (TfBuffer T * LinSense)) : list (Vector3 * LinSense) :=
  match ticks with
  | [] => []
  | (buf, s) :: rest =>
      match getTransform buf drivingFrame (baseFrame cfg) with
      | None => []
      | Some poseDriving =>
          (getOrigin (tf_mul poseDriving goalInDriving), s)
          :: readings_of cfg drivingFrame goalInDriving rest
      end
  end.

(** The commands among a list of events, in order: the angular and the
    linear part of each. *)
Definition commands (evs : list Event) : list (R * R) :=
  flat_map (fun e => match e with Cmd a l => [(a, l)] | _ => [] end) evs.

(** The lateral PID alone (lines 658-667) on a series of goal positions:
    the clamped rotation of each pass, the accumulators being carried
    from one pass to the next. *)
Fixpoint lateral_rotations (cfg : Config) (st : LinState)
    (positions : list Vector3) : list R :=
  match positions with
  | [] => []
  | remaining :: rest =>
      let '(lateralDiff, lateralError, prevLateralError, lateralIntegral,
            rotation) := lateral_pid cfg st remaining in
      rotation
      :: lateral_rotations cfg
           (mkLinState (prevDistRemaining st) (pausingForObstacle st)
              (last st) (obstacleTime st)
              lateralIntegral lateralError prevLateralError lateralDiff)
           rest
  end.

(** ** The specification's formulas, for comparison with the code *)

Module Spec.

(** [clamp(x, lo, hi)]. *)
Definition clamp (x lo hi : R) : R := Rmax lo (Rmin hi x).

(** The velocity profile of section 4.3. *)
Definition speed (remaining obstacleLimit maxVelocity minVelocity gain
    acceleration : R) : R :=
  let d := Rmin (Rabs remaining) (Rabs obstacleLimit) in
  clamp (Rmin (gain * d) (sqrt (2 * acceleration * d)))
        minVelocity maxVelocity.

(** The lateral PID of section 4.5, step 3: from the integral and the
    error of the previous tick to the new integral, the new error and the
    rotation. *)
Definition lateral_pid (cfg : Config) (integral previousError y : R)
    : R * R * R :=
  let error := sideRecoverWeight cfg * y in
  let integral := integral + error in
  let diff := error - previousError in
  (integral, error,
   clamp (lateralKp cfg * error + lateralKi cfg * integral
          + lateralKd cfg * diff)
         (- maxLateralVelocity cfg) (maxLateralVelocity cfg)).

(** The rotation the specification's PID emits on the last of a series of
    lateral offsets, starting from zero accumulators. *)
Fixpoint pid_rotations (cfg : Config) (integral previousError : R)
    (ys : list R) : list R :=
  match ys with
  | [] => []
  | y :: rest =>
      let '(integral', error, rotation) :=
        lateral_pid cfg integral previousError y in
      rotation :: pid_rotations cfg integral' error rest
  end.

(** The stall monitor of section 4.5, step 6: a low-water mark of the
    distance remaining and the time of the last improvement. *)
Record Progress := mkProgress { best : R; lastImprovement : R }.

Definition progress_tick (timeout : R) (p : Progress) (dist now : R)
    : bool * Progress :=
  if Num.ltb dist (best p) then (false, mkProgress dist now)
  else (Num.gtb dist (best p) && Num.gtb (now - lastImprovement p) timeout, p).

(** Whether the monitor aborts on one of the readings [(dist, now)]. *)
Fixpoint progress_aborts (timeout : R) (p : Progress)
    (readings : list (R * R)) : bool :=
  match readings with
  | [] => false
  | (dist, now) :: rest =>
      let '(abort, p') := progress_tick timeout p dist now in
      abort || progress_aborts timeout p' rest
  end.

(** The obstacle reading of section 4.5, step 4. *)
Definition obstacleDist (forward : bool) (s : LinSense) : R :=
  if forward then forwardObstacleDist s else obstacle_dist s false.

(** The heading target of section 4.6, step 4. *)
Definition headingTarget (reverse : bool) (yaw : R) : R :=
  if reverse then PI - yaw else yaw.

End Spec.

(** ** Concrete readings used in the examples *)

(** The default configuration with a negative linear gain. *)
Definition negativeGain : Config := {|
  minTurningVelocity := 2 / 100;
  maxTurningVelocity := 1;
  angularAcceleration := 3 / 10;
  angularTolerance := 1 / 100;
  maxLateralVelocity := 1 / 2;
  maxLinearVelocity := 1 / 2;
  linearAcceleration := 1 / 10;
  linearTolerance := 1 / 10;
  lateralKp := 2;
  lateralKi := 0;
  lateralKd := 20;
  linGain := - (1);
  rotGain := 5 / 2;
  velThreshold := 1 / 10;
  abortTimeoutSecs := 5;
  obstacleWaitThreshold := 60;
  forwardObstacleThreshold := 1 / 2;
  localizationLatency := 1 / 2;
  preferredPlanningFrame := EmptyString;
  alternatePlanningFrame := "odom";
  preferredDrivingFrame := "map";
  alternateDrivingFrame := "odom";
  baseFrame := "base_footprint";
  minSideDist := 3 / 10;
  sideRecoverWeight := 1;
  reverseWithoutTurningThreshold := 1 / 2
|}.

(** The robot at the origin of every frame but "map", which is not
    available. *)
Definition buf_no_map : TfBuffer Vector3 :=
  fun from to =>
    if String.eqb from "map" || String.eqb to "map" then None
    else Some (mkVector3 0 0 0).

(** Only "map" to the base frame is available. *)
Definition buf_only_map : TfBuffer Vector3 :=
  fun from to =>
    if String.eqb from "map" && String.eqb to "base_footprint"
    then Some (mkVector3 0 0 0) else None.

(** Nothing is available. *)
Definition buf_none : TfBuffer Vector3 := fun _ _ => None.

(** A goal 2 m straight ahead, given in the "odom" frame. *)
Definition goal_ahead : @Goal Vector3 := mkGoal (mkVector3 2 0 0) "odom".

(** "map" is missing when the goal arrives, so "odom" is chosen for
    driving; when the translation starts "map" has come back and "odom"
    is gone. *)
Definition world_recovered : @World Vector3 :=
  mkWorld buf_no_map (mkRotWorld buf_none [])
          (mkLinWorld buf_only_map 0 []) (mkRotWorld buf_none []).

(** As [world_recovered], but "map" has not come back. *)
Definition world_lost : @World Vector3 :=
  mkWorld buf_no_map (mkRotWorld buf_none [])
          (mkLinWorld buf_none 0 []) (mkRotWorld buf_none []).

(** A goal 0.2 m behind the robot and 0.2 m to its left, in the base
    frame. *)
Definition behind_left : Vector3 := mkVector3 (- (1 / 5)) (1 / 5) 0.

(** An obstacle 0.1 m ahead of the robot, no preempt request. *)
Definition obstacle_ahead : LinSense :=
  mkLinSense (1 / 10) (fun _ => 1 / 10) false 1 1.

(** A rotation pass with free space around and no preempt request. *)
Definition free_rotation : RotSense := mkRotSense (fun _ => 10) false.

(** Nothing near the robot, no preempt request, both clock reads at [now]. *)
Definition clear_at (now : R) : LinSense :=
  mkLinSense 100 (fun _ => 100) false now now.

(** As [clear_at], with a preempt request. *)
Definition preempt_at (now : R) : LinSense :=
  mkLinSense 100 (fun _ => 100) true now now.

(** Nothing ahead of the robot, an obstacle 0.1 m behind it. *)
Definition obstacle_behind : LinSense :=
  mkLinSense 100 (fun forward => if forward then 100 else 1 / 10) false 1 1.

(** A rotation pass with a preempt request and free space around. *)
Definition preempt_rotation : RotSense := mkRotSense (fun _ => 10) true.

(** The default configuration with a purely derivative lateral
    controller: Kp = 0, Ki = 0, Kd = 1, rotation limited to 5. *)
Definition derivativeOnly : Config := {|
  minTurningVelocity := 2 / 100;
  maxTurningVelocity := 1;
  angularAcceleration := 3 / 10;
  angularTolerance := 1 / 100;
  maxLateralVelocity := 5;
  maxLinearVelocity := 1 / 2;
  linearAcceleration := 1 / 10;
  linearTolerance := 1 / 10;
  lateralKp := 0;
  lateralKi := 0;
  lateralKd := 1;
  linGain := 1;
  rotGain := 5 / 2;
  velThreshold := 1 / 10;
  abortTimeoutSecs := 5;
  obstacleWaitThreshold := 60;
  forwardObstacleThreshold := 1 / 2;
  localizationLatency := 1 / 2;
  preferredPlanningFrame := EmptyString;
  alternatePlanningFrame := "odom";
  preferredDrivingFrame := "map";
  alternateDrivingFrame := "odom";
  baseFrame := "base_footprint";
  minSideDist := 3 / 10;
  sideRecoverWeight := 1;
  reverseWithoutTurningThreshold := 1 / 2
|}.

(** A blocked sensor: zero angular clearance, no preempt request. *)
Definition blocked : RotSense := mkRotSense (fun _ => 0) false.

(** The default configuration with minTurningVelocity = 0, a value the
    parameter server and the reconfiguration accept (lines 178 and 296). *)
Definition zeroFloor : Config := {|
  minTurningVelocity := 0;
  maxTurningVelocity := 1;
  angularAcceleration := 3 / 10;
  angularTolerance := 1 / 100;
  maxLateralVelocity := 1 / 2;
  maxLinearVelocity := 1 / 2;
  linearAcceleration := 1 / 10;
  linearTolerance := 1 / 10;
  lateralKp := 2;
  lateralKi := 0;
  lateralKd := 20;
  linGain := 1;
  rotGain := 5 / 2;
  velThreshold := 1 / 10;
  abortTimeoutSecs := 5;
  obstacleWaitThreshold := 60;
  forwardObstacleThreshold := 1 / 2;
  localizationLatency := 1 / 2;
  preferredPlanningFrame := EmptyString;
  alternatePlanningFrame := "odom";
  preferredDrivingFrame := "map";
  alternateDrivingFrame := "odom";
  baseFrame := "base_footprint";
  minSideDist := 3 / 10;
  sideRecoverWeight := 1;
  reverseWithoutTurningThreshold := 1 / 2
|}.

(** ** Live reconfiguration *)

(** The parameter set handed to [dynamicReconfigCallback].  The generated
    type [move_basic::MovebasicConfig] is not part of the sources; its
    fields are the ones the callback reads (lines 296-316). *)
Record MovebasicConfig := mkMovebasicConfig {
  min_turning_velocity : R;
  max_turning_velocity : R;
  max_lateral_velocity : R;
  angular_acceleration : R;
  max_linear_velocity : R;
  linear_acceleration : R;
  angular_tolerance : R;
  linear_tolerance : R;
  localization_latency : R;
  lateral_kp : R;
  lateral_ki : R;
  lateral_kd : R;
  linear_gain : R;
  rotational_gain : R;
  velocity_threshold : R;
  min_side_dist : R;
  side_recover_weight : R;
  abort_timeout : R;
  obstacle_wait_threshold : R;
  forward_obstacle_threshold : R;
  reverse_without_turning_threshold : R
}.

(** [dynamicReconfigCallback] (lines 295-319): every numeric member is
    overwritten; the five frame names are not touched. *)
Definition dynamicReconfigCallback (config : MovebasicConfig) (cfg : Config)
    : Config := {|
  minTurningVelocity := min_turning_velocity config;
  maxTurningVelocity := max_turning_velocity config;
  angularAcceleration := angular_acceleration config;
  angularTolerance := angular_tolerance config;
  maxLateralVelocity := max_lateral_velocity config;
  maxLinearVelocity := max_linear_velocity config;
  linearAcceleration := linear_acceleration config;
  linearTolerance := linear_tolerance config;
  lateralKp := lateral_kp config;
  lateralKi := lateral_ki config;
  lateralKd := lateral_kd config;
  linGain := linear_gain config;
  rotGain := rotational_gain config;
  velThreshold := velocity_threshold config;
  abortTimeoutSecs := abort_timeout config;
  obstacleWaitThreshold := obstacle_wait_threshold config;
  forwardObstacleThreshold := forward_obstacle_threshold config;
  localizationLatency := localization_latency config;
  preferredPlanningFrame := preferredPlanningFrame cfg;
  alternatePlanningFrame := alternatePlanningFrame cfg;
  preferredDrivingFrame := preferredDrivingFrame cfg;
  alternateDrivingFrame := alternateDrivingFrame cfg;
  baseFrame := baseFrame cfg;
  minSideDist := min_side_dist config;
  sideRecoverWeight := side_recover_weight config;
  reverseWithoutTurningThreshold := reverse_without_turning_threshold config
|}.

(** The parameter set that holds the numeric members of a configuration. *)
Definition paramsOf (cfg : Config) : MovebasicConfig := {|
  min_turning_velocity := minTurningVelocity cfg;
  max_turning_velocity := maxTurningVelocity cfg;
  max_lateral_velocity := maxLateralVelocity cfg;
  angular_acceleration := angularAcceleration cfg;
  max_linear_velocity := maxLinearVelocity cfg;
  linear_acceleration := linearAcceleration cfg;
  angular_tolerance := angularTolerance cfg;
  linear_tolerance := linearTolerance cfg;
  localization_latency := localizationLatency cfg;
  lateral_kp := lateralKp cfg;
  lateral_ki := lateralKi cfg;
  lateral_kd := lateralKd cfg;
  linear_gain := linGain cfg;
  rotational_gain := rotGain cfg;
  velocity_threshold := velThreshold cfg;
  min_side_dist := minSideDist cfg;
  side_recover_weight := sideRecoverWeight cfg;
  abort_timeout := abortTimeoutSecs cfg;
  obstacle_wait_threshold := obstacleWaitThreshold cfg;
  forward_obstacle_threshold := forwardObstacleThreshold cfg;
  reverse_without_turning_threshold := reverseWithoutTurningThreshold cfg
|}.

(** A parameter set with another [abort_timeout]. *)
Definition set_abort_timeout (t : R) (config : MovebasicConfig)
    : MovebasicConfig := {|
  min_turning_velocity := min_turning_velocity config;
  max_turning_velocity := max_turning_velocity config;
  max_lateral_velocity := max_lateral_velocity config;
  angular_acceleration := angular_acceleration config;
  max_linear_velocity := max_linear_velocity config;
  linear_acceleration := linear_acceleration config;
  angular_tolerance := angular_tolerance config;
  linear_tolerance := linear_tolerance config;
  localization_latency := localization_latency config;
  lateral_kp := lateral_kp config;
  lateral_ki := lateral_ki config;
  lateral_kd := lateral_kd config;
  linear_gain := linear_gain config;
  rotational_gain := rotational_gain config;
  velocity_threshold := velocity_threshold config;
  min_side_dist := min_side_dist config;
  side_recover_weight := side_recover_weight config;
  abort_timeout := t;
  obstacle_wait_threshold := obstacle_wait_threshold config;
  forward_obstacle_threshold := forward_obstacle_threshold config;
  reverse_without_turning_threshold := reverse_without_turning_threshold config
|}.

(** ** Sums and sample inputs for the further properties *)

(** The lateral errors of a series of readings, added up as line 662
    does. *)
Definition sum_lateral (cfg : Config) (inputs : list (Vector3 * LinSense))
    : R :=
  fold_left (fun acc i => acc + sideRecoverWeight cfg * vy (fst i)) inputs 0.

(** The robot at the origin of every frame. *)
Definition buf_origin : TfBuffer Vector3 :=
  fun _ _ => Some (mkVector3 0 0 0).

(** A goal at the robot's own position, given in the "odom" frame. *)
Definition goal_here : @Goal Vector3 := mkGoal (mkVector3 0 0 0) "odom".

(** Every frame is available while the goal is planned. *)
Definition world_still : @World Vector3 :=
  mkWorld buf_origin (mkRotWorld buf_none [])
          (mkLinWorld buf_none 0 []) (mkRotWorld buf_none []).

(** One rotation tick with a preempt request, the pose being known. *)
Definition rot_world_preempted : @RotWorld Vector3 :=
  mkRotWorld buf_origin [(buf_origin, preempt_rotation)].

(** One rotation tick with the yaw on target, the pose being known. *)
Definition rot_world_on_target : @RotWorld Vector3 :=
  mkRotWorld buf_origin [(buf_origin, free_rotation)].

(** The parameter set of the defaults. *)
Definition defaultParams : MovebasicConfig := paramsOf defaultConfig.

(** A translation toward a goal 1 m ahead whose first tick carries a
    preempt request, the pose being known. *)
Definition lin_world_preempted : @LinWorld Vector3 :=
  mkLinWorld buf_origin 0 [(buf_origin, preempt_at 1)].


(** A goal 1 m from the robot, 9/41 m to the left of its heading. *)
Definition goal_off_axis : Vector3 := mkVector3 (40 / 41) (9 / 41) 0.

(** A translation whose first tick sees an obstacle 0.1 m ahead and whose
    second tick carries a preempt request, the pose being known and the
    robot standing still. *)
Definition lin_world_paused_preempted : @LinWorld Vector3 :=
  mkLinWorld buf_origin 0
    [(buf_origin, obstacle_ahead); (buf_origin, preempt_at 1)].

(** A translation with one tick, nothing near the robot and no preempt
    request, the pose being known. *)
Definition lin_world_clear : @LinWorld Vector3 :=
  mkLinWorld buf_origin 0 [(buf_origin, clear_at 1)].

(** * Properties *)

(** ** Comparisons, minimum and maximum *)

Lemma ltb_true (a b : R) : Num.ltb a b = true <-> a < b.
Proof. unfold Num.ltb; destruct (Rlt_dec a b); split; intros; easy. Qed.

Lemma ltb_false (a b : R) : Num.ltb a b = false <-> b <= a.
Proof.
  unfold Num.ltb; destruct (Rlt_dec a b); split; intros; try easy; lra.
Qed.

Lemma gtb_true (a b : R) : Num.gtb a b = true <-> b < a.
Proof. apply ltb_true. Qed.

Lemma gtb_false (a b : R) : Num.gtb a b = false <-> a <= b.
Proof. apply ltb_false. Qed.

Lemma min_Rmin (a b : R) : Num.min a b = Rmin a b.
Proof.
  unfold Num.min, Num.ltb, Rmin.
  destruct (Rlt_dec b a), (Rle_dec a b); lra.
Qed.

Lemma max_Rmax (a b : R) : Num.max a b = Rmax a b.
Proof.
  unfold Num.max, Num.ltb, Rmax.
  destruct (Rlt_dec a b), (Rle_dec a b); lra.
Qed.

Lemma min_sqrt_nonneg (a x : R) :
  0 <= x -> Num.min_sqrt a x = Rmin a (sqrt x).
Proof.
  intros Hx. unfold Num.min_sqrt.
  replace (Num.ltb x 0) with false by (symmetry; now apply ltb_false).
  apply min_Rmin.
Qed.

Lemma min_sqrt_neg (a x : R) : x < 0 -> Num.min_sqrt a x = a.
Proof.
  intros Hx. unfold Num.min_sqrt.
  now replace (Num.ltb x 0) with true by (symmetry; now apply ltb_true).
Qed.

(** Either the root was a NaN and the first argument came back, or the
    argument was not negative and the result is the smaller of the two. *)
Lemma min_sqrt_cases (a x : R) :
  (x < 0 /\ Num.min_sqrt a x = a) \/
  (0 <= x /\ Num.min_sqrt a x = Rmin a (sqrt x)).
Proof.
  destruct (Rlt_dec x 0) as [H | H].
  - left. split; [exact H | now apply min_sqrt_neg].
  - right. assert (0 <= x) by lra. split; [assumption | now apply min_sqrt_nonneg].
Qed.

Lemma min_sqrt_le (a x : R) : Num.min_sqrt a x <= a.
Proof.
  destruct (min_sqrt_cases a x) as [[_ ->] | [_ ->]];
    [lra | apply Rmin_l].
Qed.

(** Replace each boolean comparison in the goal by the two cases of the
    order it tests, leaving the order as a hypothesis. *)
Ltac cmp_cases :=
  repeat match goal with
  | |- context [Num.gtb ?a ?b] => unfold Num.gtb
  | |- context [Num.ltb ?a ?b] =>
      let H := fresh "Hcmp" in
      destruct (Num.ltb a b) eqn:H;
      [apply ltb_true in H | apply ltb_false in H]
  end.

Lemma length_nonneg (v : Vector3) : 0 <= length v.
Proof. apply sqrt_pos. Qed.

Lemma distRemainingOf_nonneg (v : Vector3) : 0 <= distRemainingOf v.
Proof. apply sqrt_pos. Qed.

Lemma distRemainingOf_x (x z : R) :
  0 <= x -> distRemainingOf (mkVector3 x 0 z) = x.
Proof.
  intros Hx. unfold distRemainingOf; simpl.
  replace (x * x + 0 * 0) with (x * x) by ring.
  now apply sqrt_square.
Qed.

Lemma length_x (x : R) : 0 <= x -> length (mkVector3 x 0 0) = x.
Proof.
  intros Hx. unfold length; simpl.
  replace (x * x + 0 * 0 + 0 * 0) with (x * x) by ring.
  now apply sqrt_square.
Qed.

(** ** normalizeAngle *)

Lemma normalizeAngle_id (a : R) :
  - PI <= a <= PI -> normalizeAngle a = a.
Proof.
  intros [Hlo Hhi]. unfold normalizeAngle.
  cmp_cases; lra.
Qed.

Lemma normalizeAngle_cases (a : R) :
  - (3 * PI) <= a <= 3 * PI ->
  (a < - PI /\ normalizeAngle a = a + 2 * PI) \/
  (- PI <= a <= PI /\ normalizeAngle a = a) \/
  (PI < a /\ normalizeAngle a = a - 2 * PI).
Proof.
  intros [Hlo Hhi]. pose proof PI_RGT_0 as Hpi.
  unfold normalizeAngle. cmp_cases; lra.
Qed.

(** C7, as stated, fails at the lower end of the interval: the angle
    [- PI] lies in [[-3 PI, 3 PI]], is returned unchanged, and is not in
    the half-open interval [(- PI, PI]]. *)
Lemma C7_lower_end_is_returned :
  - (3 * PI) <= - PI <= 3 * PI /\
  ~ (- PI < normalizeAngle (- PI) <= PI).
Proof.
  pose proof PI_RGT_0 as Hpi. split; [lra |].
  rewrite normalizeAngle_id by lra. lra.
Qed.

(** C7, amended: for every angle in [[-3 PI, 3 PI]], normalizeAngle
    returns a value of the closed interval [[- PI, PI]], which is the
    angle itself or the angle shifted by [2 PI] once, and normalizing the
    result again changes nothing. *)
Theorem C7_normalizeAngle_closed_range (a : R) :
  - (3 * PI) <= a <= 3 * PI ->
  - PI <= normalizeAngle a <= PI /\
  (normalizeAngle a = a \/ normalizeAngle a = a + 2 * PI
   \/ normalizeAngle a = a - 2 * PI) /\
  normalizeAngle (normalizeAngle a) = normalizeAngle a.
Proof.
  intros Ha. pose proof PI_RGT_0 as Hpi.
  assert (Hrange : - PI <= normalizeAngle a <= PI).
  { destruct (normalizeAngle_cases a Ha) as [[H E] | [[H E] | [H E]]];
      rewrite E; lra. }
  split; [exact Hrange | split].
  - destruct (normalizeAngle_cases a Ha) as [[_ E] | [[_ E] | [_ E]]];
      rewrite E; auto.
  - now apply normalizeAngle_id.
Qed.

Lemma C7_normalizeAngle_closed_range_witness :
  - (3 * PI) <= 2 * PI <= 3 * PI /\
  (- PI <= normalizeAngle (2 * PI) <= PI /\
   (normalizeAngle (2 * PI) = 2 * PI
    \/ normalizeAngle (2 * PI) = 2 * PI + 2 * PI
    \/ normalizeAngle (2 * PI) = 2 * PI - 2 * PI) /\
   normalizeAngle (normalizeAngle (2 * PI)) = normalizeAngle (2 * PI)).
Proof.
  assert (H : - (3 * PI) <= 2 * PI <= 3 * PI)
    by (pose proof PI_RGT_0; lra).
  split; [exact H | exact (C7_normalizeAngle_closed_range (2 * PI) H)].
Defined.

(** ** The rotation controller *)

(** With a non-negative acceleration the square root is a number and the
    velocity is the plain nest of minima and maxima. *)
Lemma rotate_velocity_real (cfg : Config) (angleRemaining obstacle : R) :
  0 <= angularAcceleration cfg ->
  rotate_velocity cfg angleRemaining obstacle =
  Rmax (minTurningVelocity cfg)
    (Rmin (rotGain cfg * Rmin (Rabs angleRemaining) (Rabs obstacle))
       (Rmin (maxTurningVelocity cfg)
          (sqrt (2 * angularAcceleration cfg
                 * Rmin (Rabs angleRemaining) (Rabs obstacle))))).
Proof.
  intros Hacc. unfold rotate_velocity, Num.abs.
  rewrite max_Rmax, !min_Rmin.
  rewrite min_sqrt_nonneg; [reflexivity |].
  apply Rmult_le_pos; [lra |]. apply Rmin_glb; apply Rabs_pos.
Qed.

Lemma linear_velocity_real (cfg : Config) (obstacleDist distRemaining : R) :
  0 <= linearAcceleration cfg ->
  linear_velocity cfg obstacleDist distRemaining =
  Rmin (linGain cfg * Rmin (Rabs obstacleDist) (Rabs distRemaining))
    (Rmin (maxLinearVelocity cfg)
       (sqrt (2 * linearAcceleration cfg
              * Rmin (Rabs obstacleDist) (Rabs distRemaining)))).
Proof.
  intros Hacc. unfold linear_velocity, Num.abs.
  rewrite !min_Rmin.
  rewrite min_sqrt_nonneg; [reflexivity |].
  apply Rmult_le_pos; [lra |]. apply Rmin_glb; apply Rabs_pos.
Qed.

(** With a negative acceleration and something left to go, the square
    root is a NaN and its cap is absent. *)
Lemma rotate_velocity_nan (cfg : Config) (angleRemaining obstacle : R) :
  angularAcceleration cfg < 0 ->
  0 < Rmin (Rabs angleRemaining) (Rabs obstacle) ->
  rotate_velocity cfg angleRemaining obstacle =
  Rmax (minTurningVelocity cfg)
    (Rmin (rotGain cfg * Rmin (Rabs angleRemaining) (Rabs obstacle))
       (maxTurningVelocity cfg)).
Proof.
  intros Hacc Hd. unfold rotate_velocity, Num.abs.
  rewrite max_Rmax, !min_Rmin.
  rewrite min_sqrt_neg; [reflexivity |].
  set (d := Rmin (Rabs angleRemaining) (Rabs obstacle)) in *.
  replace (2 * angularAcceleration cfg * d)
    with (- (2 * (- angularAcceleration cfg) * d)) by ring.
  assert (0 < 2 * (- angularAcceleration cfg) * d)
    by (apply Rmult_lt_0_compat; lra).
  lra.
Qed.

Lemma linear_velocity_nan (cfg : Config) (obstacleDist distRemaining : R) :
  linearAcceleration cfg < 0 ->
  0 < Rmin (Rabs obstacleDist) (Rabs distRemaining) ->
  linear_velocity cfg obstacleDist distRemaining =
  Rmin (linGain cfg * Rmin (Rabs obstacleDist) (Rabs distRemaining))
    (maxLinearVelocity cfg).
Proof.
  intros Hacc Hd. unfold linear_velocity, Num.abs.
  rewrite !min_Rmin.
  rewrite min_sqrt_neg; [reflexivity |].
  set (d := Rmin (Rabs obstacleDist) (Rabs distRemaining)) in *.
  replace (2 * linearAcceleration cfg * d)
    with (- (2 * (- linearAcceleration cfg) * d)) by ring.
  assert (0 < 2 * (- linearAcceleration cfg) * d)
    by (apply Rmult_lt_0_compat; lra).
  lra.
Qed.

Lemma rotate_velocity_floor (cfg : Config) (angleRemaining obstacle : R) :
  minTurningVelocity cfg <= rotate_velocity cfg angleRemaining obstacle.
Proof. unfold rotate_velocity. rewrite max_Rmax. apply Rmax_l. Qed.

(** A pass with no preempt request and the angle outside the tolerance
    leaves the loop running and sends the computed velocity, signed as the
    angle remaining. *)
Lemma rotate_tick_running (cfg : Config) (requestedYaw currentYaw : R)
    (s : RotSense) :
  let angleRemaining := normalizeAngle (requestedYaw - currentYaw) in
  let v := rotate_velocity cfg angleRemaining
             (obstacle_angle s (Num.gtb angleRemaining 0)) in
  rot_preempt s = false ->
  angularTolerance cfg <= Rabs angleRemaining ->
  rotate_tick cfg requestedYaw currentYaw s =
    mkRotStep (if Num.ltb angleRemaining 0 then - v else v) false false.
Proof.
  intros ang v Hpre Htol. unfold rotate_tick. rewrite Hpre.
  fold ang. unfold Num.abs.
  replace (Num.ltb (Rabs ang) (angularTolerance cfg)) with false
    by (symmetry; now apply ltb_false).
  reflexivity.
Qed.

(** A pass with the angle inside the tolerance ends the call with success,
    whatever the preempt flag says. *)
Lemma rotate_tick_finish (cfg : Config) (requestedYaw currentYaw : R)
    (s : RotSense) :
  Rabs (normalizeAngle (requestedYaw - currentYaw)) < angularTolerance cfg ->
  rs_done (rotate_tick cfg requestedYaw currentYaw s) = true /\
  rs_success (rotate_tick cfg requestedYaw currentYaw s) = true /\
  rs_velocity (rotate_tick cfg requestedYaw currentYaw s) = 0.
Proof.
  intros Htol. unfold rotate_tick, Num.abs.
  replace (Num.ltb (Rabs (normalizeAngle (requestedYaw - currentYaw)))
             (angularTolerance cfg)) with true
    by (symmetry; now apply ltb_true).
  destruct (rot_preempt s); simpl;
    (repeat split; try reflexivity);
    destruct (Num.ltb _ 0); lra.
Qed.

(** With zero clearance the computed velocity is the floor itself. *)
Lemma rotate_velocity_blocked (cfg : Config) (angleRemaining : R) :
  0 <= minTurningVelocity cfg ->
  rotate_velocity cfg angleRemaining 0 = minTurningVelocity cfg.
Proof.
  intros Hmin. unfold rotate_velocity, Num.abs.
  rewrite Rabs_R0, max_Rmax, !min_Rmin.
  rewrite (Rmin_right (Rabs angleRemaining) 0) by apply Rabs_pos.
  rewrite !Rmult_0_r, min_sqrt_nonneg by lra.
  rewrite sqrt_0. apply Rmax_left.
  apply Rle_trans with (r2 := 0); [| exact Hmin].
  apply Rmin_l.
Qed.

(** C9, amended: on a pass of the rotation loop with no preempt request
    and the angle remaining at least the tolerance, the magnitude of the
    angular velocity sent is at least minTurningVelocity, whatever
    clearance the collision checker reports.  With a positive
    minTurningVelocity the velocity sent is therefore never zero; with
    zero clearance and a non-negative minTurningVelocity the magnitude
    sent is minTurningVelocity itself, so it is zero when the floor is
    zero. *)
Theorem C9_rotation_speed_floor (cfg : Config) (requestedYaw currentYaw : R)
    (s : RotSense) :
  rot_preempt s = false ->
  angularTolerance cfg <= Rabs (normalizeAngle (requestedYaw - currentYaw)) ->
  let angleRemaining := normalizeAngle (requestedYaw - currentYaw) in
  let sent := rs_velocity (rotate_tick cfg requestedYaw currentYaw s) in
  minTurningVelocity cfg <= Rabs sent /\
  (0 < minTurningVelocity cfg -> sent <> 0) /\
  (0 <= minTurningVelocity cfg ->
   obstacle_angle s (Num.gtb angleRemaining 0) = 0 ->
   Rabs sent = minTurningVelocity cfg).
Proof.
  intros Hpre Htol ang sent. subst sent.
  rewrite (rotate_tick_running cfg requestedYaw currentYaw s Hpre Htol).
  cbv zeta; simpl rs_velocity. fold ang.
  pose proof (rotate_velocity_floor cfg ang
                (obstacle_angle s (Num.gtb ang 0))) as Hfloor.
  assert (Hsign : forall v : R,
            Rabs (if Num.ltb ang 0 then - v else v) = Rabs v).
  { intros v. destruct (Num.ltb ang 0); [apply Rabs_Ropp | reflexivity]. }
  rewrite Hsign.
  assert (Habs : minTurningVelocity cfg
                 <= Rabs (rotate_velocity cfg ang
                            (obstacle_angle s (Num.gtb ang 0)))).
  { pose proof (Rle_abs (rotate_velocity cfg ang
                           (obstacle_angle s (Num.gtb ang 0)))). lra. }
  split; [exact Habs | split].
  - intros Hpos Hzero.
    assert (H0 : Rabs (rotate_velocity cfg ang
                         (obstacle_angle s (Num.gtb ang 0))) = 0).
    { rewrite <- Hsign, Hzero. apply Rabs_R0. }
    lra.
  - intros Hmin Hblocked. rewrite Hblocked.
    rewrite rotate_velocity_blocked by exact Hmin.
    now apply Rabs_pos_eq.
Qed.

Lemma normalizeAngle_1 : normalizeAngle (1 - 0) = 1.
Proof.
  pose proof PI2_1. pose proof PI_RGT_0.
  replace (1 - 0) with 1 by lra.
  apply normalizeAngle_id. lra.
Qed.

Lemma C9_rotation_speed_floor_witness :
  let sent := rs_velocity (rotate_tick defaultConfig 1 0 blocked) in
  (rot_preempt blocked = false /\
   angularTolerance defaultConfig <= Rabs (normalizeAngle (1 - 0)) /\
   0 < minTurningVelocity defaultConfig /\
   obstacle_angle blocked (Num.gtb (normalizeAngle (1 - 0)) 0) = 0) /\
  minTurningVelocity defaultConfig <= Rabs sent /\
  sent <> 0 /\
  Rabs sent = minTurningVelocity defaultConfig.
Proof.
  intros sent.
  assert (Htol : angularTolerance defaultConfig
                 <= Rabs (normalizeAngle (1 - 0))).
  { rewrite normalizeAngle_1, Rabs_R1. simpl. lra. }
  assert (Hpos : 0 < minTurningVelocity defaultConfig) by (simpl; lra).
  split; [now repeat split |].
  destruct (C9_rotation_speed_floor defaultConfig 1 0 blocked eq_refl Htol)
    as [Hfloor [Hnz Hblocked]].
  split; [exact Hfloor | split; [exact (Hnz Hpos) |]].
  apply Hblocked; [simpl; lra | reflexivity].
Defined.

(** C9, as stated, fails for minTurningVelocity = 0: a pass 1 rad from
    the target with no preempt request and zero clearance leaves the loop
    running and sends 0, where the same pass with free space around sends
    a positive velocity. *)
Lemma C9_zero_floor_stops_the_rotation :
  rot_preempt blocked = false /\
  angularTolerance zeroFloor <= Rabs (normalizeAngle (1 - 0)) /\
  rs_done (rotate_tick zeroFloor 1 0 blocked) = false /\
  rs_velocity (rotate_tick zeroFloor 1 0 blocked) = 0 /\
  0 < rs_velocity (rotate_tick zeroFloor 1 0 free_rotation).
Proof.
  assert (Htol : angularTolerance zeroFloor <= Rabs (normalizeAngle (1 - 0))).
  { rewrite normalizeAngle_1, Rabs_R1. simpl. lra. }
  assert (Hpos : Num.ltb (normalizeAngle (1 - 0)) 0 = false).
  { rewrite normalizeAngle_1. apply ltb_false. lra. }
  split; [reflexivity | split; [exact Htol |]].
  rewrite !rotate_tick_running by (reflexivity || exact Htol).
  cbv zeta. cbn [rs_done rs_velocity]. rewrite Hpos.
  split; [reflexivity | split].
  - cbn [obstacle_angle blocked].
    now rewrite rotate_velocity_blocked by (simpl; lra).
  - rewrite normalizeAngle_1. cbn [obstacle_angle free_rotation].
    rewrite rotate_velocity_real by (simpl; lra).
    cbn [minTurningVelocity maxTurningVelocity rotGain angularAcceleration
         zeroFloor].
    rewrite Rabs_R1, (Rabs_pos_eq 10), (Rmin_left 1 10) by lra.
    assert (Hsq : 0 < sqrt (2 * (3 / 10) * 1)) by (apply sqrt_lt_R0; lra).
    apply Rlt_le_trans with
      (r2 := Rmin (5 / 2 * 1) (Rmin 1 (sqrt (2 * (3 / 10) * 1)))).
    + repeat apply Rmin_glb_lt; lra.
    + apply Rmax_r.
Qed.

(** ** The linear controller: one pass of the loop body *)

(** The pass in closed form.  Each exit test only ever sets [done], and
    [success] is written last by the finish test, so [done] is the
    disjunction of the four tests and [success] is the finish test. *)
Lemma moveLinear_tick_eq (cfg : Config) (call : LinCall) (st : LinState)
    (remaining : Vector3) (s : LinSense) :
  let dist := distRemainingOf remaining in
  let error := sideRecoverWeight cfg * vy remaining in
  let integral := lateralIntegral st + error in
  let diff := lateralError st - prevLateralError st in
  let rotation :=
    Num.max (- maxLateralVelocity cfg)
      (Num.min (maxLateralVelocity cfg)
         (lateralKp cfg * error + lateralKi cfg * integral
          + lateralKd cfg * diff)) in
  let obstacleDist := obstacleDistOf call s in
  let detected := Num.ltb obstacleDist (forwardObstacleThreshold cfg) in
  let waited :=
    detected && pausingForObstacle st
    && Num.gtb (now_obstacle s - obstacleTime st) (obstacleWaitThreshold cfg) in
  let farther := Num.gtb dist (prevDistRemaining st) in
  let late :=
    farther && Num.gtb (now_progress s - last st) (abortTimeout call) in
  let v1 := if detected then 0
            else linear_velocity cfg obstacleDist dist in
  let v2 := if lin_preempt s then 0 else v1 in
  let v3 := if late then 0 else v2 in
  let finish :=
    Num.ltb (Num.abs v3) (velThreshold cfg)
    && Num.ltb dist (linearTolerance cfg) in
  let v4 := if finish then 0 else v3 in
  moveLinear_tick cfg call st remaining s =
  (mkLinStep (vx remaining, error, rotation) rotation
     (if negb (forward call) then - v4 else v4)
     ((if waited then [msg_obstacle] else [])
      ++ (if late then [msg_no_progress] else []))
     (waited || lin_preempt s || late || finish)
     finish,
   mkLinState (if farther then dist else prevDistRemaining st)
     detected
     (if farther then last st else now_progress s)
     (if detected && negb (pausingForObstacle st)
      then now_obstacle s else obstacleTime st)
     integral error error diff).
Proof.
  intros. unfold moveLinear_tick, lateral_pid. cbv zeta.
  fold dist error integral diff rotation obstacleDist detected.
  subst waited late finish v4 v3 v2 v1 farther.
  destruct detected, (pausingForObstacle st),
    (Num.gtb (now_obstacle s - obstacleTime st) (obstacleWaitThreshold cfg)),
    (lin_preempt s), (Num.gtb dist (prevDistRemaining st)),
    (Num.gtb (now_progress s - last st) (abortTimeout call));
    cbn [negb andb orb app];
    repeat match goal with
    | |- context [if ?b then _ else _] => destruct b
    end; reflexivity.
Qed.

(** Split on every test left in the goal. *)
Ltac split_ifs :=
  repeat match goal with
  | |- context [if ?b then _ else _] => destruct b eqn:?
  end.

Lemma tick_rotation (cfg : Config) (call : LinCall) (st : LinState)
    (remaining : Vector3) (s : LinSense) :
  ls_rotation (fst (moveLinear_tick cfg call st remaining s))
  = snd (lateral_pid cfg st remaining).
Proof. rewrite moveLinear_tick_eq. reflexivity. Qed.

Lemma tick_success_is_finish (cfg : Config) (call : LinCall) (st : LinState)
    (remaining : Vector3) (s : LinSense) :
  ls_success (fst (moveLinear_tick cfg call st remaining s)) = true ->
  distRemainingOf remaining < linearTolerance cfg.
Proof.
  rewrite moveLinear_tick_eq. cbn [fst ls_success].
  intros H. apply andb_prop in H. destruct H as [_ H].
  now apply ltb_true.
Qed.

(** The linear velocity of a pass is zero when an obstacle is detected
    and when the pass ends the call. *)
Lemma tick_velocity_zero (cfg : Config) (call : LinCall) (st : LinState)
    (remaining : Vector3) (s : LinSense) :
  Num.ltb (obstacleDistOf call s) (forwardObstacleThreshold cfg) = true
  \/ ls_done (fst (moveLinear_tick cfg call st remaining s)) = true ->
  ls_velocity (fst (moveLinear_tick cfg call st remaining s)) = 0.
Proof.
  rewrite moveLinear_tick_eq. cbn [fst ls_done ls_velocity].
  destruct (Num.ltb (obstacleDistOf call s) (forwardObstacleThreshold cfg));
    cbn [andb orb].
  - intros _. destruct (lin_preempt s); split_ifs; lra.
  - intros [H | H]; [discriminate |].
    revert H. destruct (lin_preempt s); cbn [orb].
    + intros _. split_ifs; lra.
    + destruct (Num.gtb (distRemainingOf remaining) (prevDistRemaining st)
                && Num.gtb (now_progress s - last st) (abortTimeout call));
        cbn [orb].
      * intros _. split_ifs; lra.
      * intros H. rewrite H. destruct (forward call); cbn [negb]; lra.
Qed.

Lemma linear_events_cmd (step : LinStep) (a v : R) :
  In (Cmd a v) (linear_events step) <->
  a = ls_rotation step /\ v = ls_velocity step.
Proof.
  unfold linear_events. destruct (ls_pid step) as [[x err] rot].
  split.
  - intros [H | H]; [discriminate |].
    apply in_app_or in H. destruct H as [H | [H | []]].
    + apply in_map_iff in H. destruct H as [m [H _]]. discriminate.
    + injection H as <- <-. now split.
  - intros [-> ->]. right. apply in_or_app. right. now left.
Qed.

Section LinearLoop.

Context {T : Type} {tf2 : Tf2 T}.

(** The events of the loop are those of the passes it makes on the
    readings of its ticks. *)
Lemma linear_loop_steps (cfg : Config) (drivingFrame : string)
    (goalInDriving : T) (call : LinCall)
    (ticks : list (TfBuffer T * LinSense)) :
  forall st : LinState,
  snd (linear_loop cfg drivingFrame goalInDriving call st ticks) =
  flat_map linear_events
    (linear_steps cfg call st
       (readings_of cfg drivingFrame goalInDriving ticks)).
Proof.
  induction ticks as [| [buf s] rest IH]; intros st; [reflexivity |].
  cbn [linear_loop readings_of].
  destruct (getTransform buf drivingFrame (baseFrame cfg)) as [pose |];
    [| reflexivity].
  cbn [linear_steps].
  destruct (moveLinear_tick cfg call st
              (getOrigin (tf_mul pose goalInDriving)) s) as [step st1].
  destruct (ls_done step).
  - cbn [snd flat_map]. now rewrite app_nil_r.
  - specialize (IH st1).
    destruct (linear_loop cfg drivingFrame goalInDriving call st1 rest)
      as [r evs].
    cbn [snd flat_map] in *. now rewrite IH.
Qed.

(** Every command the loop sends is the command of one pass of its body. *)
Lemma linear_loop_cmd (cfg : Config) (drivingFrame : string)
    (goalInDriving : T) (call : LinCall)
    (ticks : list (TfBuffer T * LinSense)) :
  forall (st : LinState) (a v : R),
  In (Cmd a v)
     (snd (linear_loop cfg drivingFrame goalInDriving call st ticks)) ->
  exists st' remaining s,
    a = ls_rotation (fst (moveLinear_tick cfg call st' remaining s)) /\
    v = ls_velocity (fst (moveLinear_tick cfg call st' remaining s)).
Proof.
  induction ticks as [| [buf s] rest IH]; intros st a v Hin.
  - destruct Hin.
  - simpl in Hin.
    destruct (getTransform buf drivingFrame (baseFrame cfg)) as [pose |];
      [| destruct Hin].
    destruct (moveLinear_tick cfg call st
                (getOrigin (tf_mul pose goalInDriving)) s)
      as [step st1] eqn:Etick.
    assert (Hstep : In (Cmd a v) (linear_events step) ->
                    exists st' remaining s0,
                      a = ls_rotation
                            (fst (moveLinear_tick cfg call st' remaining s0)) /\
                      v = ls_velocity
                            (fst (moveLinear_tick cfg call st' remaining s0))).
    { intros H. apply linear_events_cmd in H.
      exists st, (getOrigin (tf_mul pose goalInDriving)), s.
      now rewrite Etick. }
    destruct (ls_done step).
    + now apply Hstep.
    + destruct (linear_loop cfg drivingFrame goalInDriving call st1 rest)
        as [r evs] eqn:Eloop.
      simpl in Hin. apply in_app_or in Hin. destruct Hin as [H | H].
      * now apply Hstep.
      * apply (IH st1). now rewrite Eloop.
Qed.

End LinearLoop.

(** ** Which obstacle reading a translation works with *)

(** The requested distance is the length of a vector, so the test that
    guards the reverse-sensing query never holds: every pass works with
    the forward reading, whichever way the robot moves. *)
Lemma obstacleDistOf_forward_reading (cfg : Config) (remaining : Vector3)
    (s : LinSense) :
  obstacleDistOf (linear_call cfg remaining) s = forwardObstacleDist s.
Proof.
  unfold obstacleDistOf, linear_call; cbn [requestedDistance].
  replace (Num.ltb (length remaining) 0) with false; [reflexivity |].
  symmetry. apply ltb_false. apply length_nonneg.
Qed.

(** C1, at a goal one metre behind the robot with an obstacle 0.1 m behind
    it and nothing ahead: the motion is backward, the specification reads
    the reverse-sensing distance 0.1 (under the 0.5 threshold, so the
    robot should pause), the code reads the forward distance 100 and does
    not pause. *)
Theorem C1_backward_motion_reads_forward_distance :
  let call := linear_call defaultConfig (mkVector3 (-1) 0 0) in
  let st := linear_init (mkVector3 (-1) 0 0) 0 in
  forward call = false /\
  Spec.obstacleDist (forward call) obstacle_behind = 1 / 10 /\
  obstacleDistOf call obstacle_behind = 100 /\
  pausingForObstacle
    (snd (moveLinear_tick defaultConfig call st (mkVector3 (-1) 0 0)
            obstacle_behind)) = false.
Proof.
  cbv zeta.
  assert (Hfwd : forward (linear_call defaultConfig (mkVector3 (-1) 0 0))
                 = false).
  { unfold linear_call; cbn [forward vx]. apply gtb_false. lra. }
  split; [exact Hfwd |]. split; [now rewrite Hfwd |].
  split; [now rewrite obstacleDistOf_forward_reading |].
  rewrite moveLinear_tick_eq. cbn [snd pausingForObstacle].
  rewrite obstacleDistOf_forward_reading.
  apply ltb_false. simpl. lra.
Qed.

(** ** Exit tests that fire on the same pass *)

(** In [moveLinear] a preempt request zeroes the velocity, so the finish
    test that follows holds whenever the robot is within the linear
    tolerance, and the pass reports success. *)
Lemma tick_finish_overrides_preempt (cfg : Config) (call : LinCall)
    (st : LinState) (remaining : Vector3) (s : LinSense) :
  lin_preempt s = true ->
  0 < velThreshold cfg ->
  distRemainingOf remaining < linearTolerance cfg ->
  ls_done (fst (moveLinear_tick cfg call st remaining s)) = true /\
  ls_success (fst (moveLinear_tick cfg call st remaining s)) = true.
Proof.
  intros Hpre Hthr Hdist. rewrite moveLinear_tick_eq.
  cbn [fst ls_done ls_success]. rewrite Hpre.
  assert (Hfin :
    Num.ltb
      (Num.abs
         (if Num.gtb (distRemainingOf remaining) (prevDistRemaining st)
             && Num.gtb (now_progress s - last st) (abortTimeout call)
          then 0 else 0)) (velThreshold cfg)
    && Num.ltb (distRemainingOf remaining) (linearTolerance cfg) = true).
  { apply andb_true_intro. split; apply ltb_true; [| exact Hdist].
    unfold Num.abs. destruct (_ && _); now rewrite Rabs_R0. }
  rewrite Hfin. split; [| reflexivity].
  now rewrite !orb_true_r.
Qed.

(** The no-progress abort zeroes the velocity as well: within the linear
    tolerance the pass calls abortGoal and still reports success. *)
Lemma tick_finish_overrides_stall (cfg : Config) (call : LinCall)
    (st : LinState) (remaining : Vector3) (s : LinSense) :
  prevDistRemaining st < distRemainingOf remaining ->
  abortTimeout call < now_progress s - last st ->
  0 < velThreshold cfg ->
  distRemainingOf remaining < linearTolerance cfg ->
  In msg_no_progress
     (ls_aborts (fst (moveLinear_tick cfg call st remaining s))) /\
  ls_success (fst (moveLinear_tick cfg call st remaining s)) = true.
Proof.
  intros Hfar Hlate Hthr Hdist. rewrite moveLinear_tick_eq.
  cbn [fst ls_aborts ls_success].
  replace (Num.gtb (distRemainingOf remaining) (prevDistRemaining st))
    with true by (symmetry; now apply gtb_true).
  replace (Num.gtb (now_progress s - last st) (abortTimeout call))
    with true by (symmetry; now apply gtb_true).
  cbn [andb]. split.
  - apply in_or_app. right. now left.
  - apply andb_true_intro. split; apply ltb_true; [| exact Hdist].
    unfold Num.abs. now rewrite Rabs_R0.
Qed.

(** A rotation pass with a preempt request ends the call; it reports
    success exactly when the angle is inside the tolerance. *)
Lemma rotate_tick_preempt (cfg : Config) (requestedYaw currentYaw : R)
    (s : RotSense) :
  rot_preempt s = true ->
  rs_done (rotate_tick cfg requestedYaw currentYaw s) = true /\
  rs_velocity (rotate_tick cfg requestedYaw currentYaw s) = 0 /\
  (rs_success (rotate_tick cfg requestedYaw currentYaw s) = true <->
   Rabs (normalizeAngle (requestedYaw - currentYaw)) < angularTolerance cfg).
Proof.
  intros Hpre. unfold rotate_tick, Num.abs. rewrite Hpre.
  destruct (Num.ltb (Rabs (normalizeAngle (requestedYaw - currentYaw)))
              (angularTolerance cfg)) eqn:Htol;
    cbn [rs_done rs_velocity rs_success];
    (split; [reflexivity |]); (split; [destruct (Num.ltb _ 0); lra |]).
  - apply ltb_true in Htol. now split.
  - apply ltb_false in Htol. split; [discriminate | lra].
Qed.

(** A translation pass with a preempt request ends the call with a zero
    linear velocity; it reports success exactly when the robot is inside
    the linear tolerance (and the velocity threshold is positive). *)
Lemma tick_preempt (cfg : Config) (call : LinCall) (st : LinState)
    (remaining : Vector3) (s : LinSense) :
  lin_preempt s = true ->
  ls_done (fst (moveLinear_tick cfg call st remaining s)) = true /\
  ls_velocity (fst (moveLinear_tick cfg call st remaining s)) = 0 /\
  (ls_success (fst (moveLinear_tick cfg call st remaining s)) = true <->
   0 < velThreshold cfg /\ distRemainingOf remaining < linearTolerance cfg).
Proof.
  intros Hpre.
  assert (Hdone : ls_done (fst (moveLinear_tick cfg call st remaining s))
                  = true).
  { rewrite moveLinear_tick_eq. cbn [fst ls_done]. rewrite Hpre.
    now rewrite orb_true_r. }
  split; [exact Hdone |]. split; [apply tick_velocity_zero; now right |].
  rewrite moveLinear_tick_eq. cbn [fst ls_success]. rewrite Hpre.
  replace (if Num.gtb (distRemainingOf remaining) (prevDistRemaining st)
              && Num.gtb (now_progress s - last st) (abortTimeout call)
           then 0 else 0) with 0 by (now destruct (_ && _)).
  unfold Num.abs. rewrite Rabs_R0, andb_true_iff, !ltb_true. reflexivity.
Qed.

Lemma normalizeAngle_0 : normalizeAngle (1 - 1) = 0.
Proof.
  pose proof PI_RGT_0. replace (1 - 1) with 0 by lra.
  apply normalizeAngle_id. lra.
Qed.

(** C2, at two passes on which a preempt request arrives while the robot
    is within tolerance: a rotation pass with the yaw on target, and a
    translation pass 0.05 m from the goal (tolerance 0.1 m).  Both end the
    call, and both report success although preempt was requested. *)
Theorem C2_finish_overrides_preempt :
  (rot_preempt preempt_rotation = true /\
   rs_done (rotate_tick defaultConfig 1 1 preempt_rotation) = true /\
   rs_success (rotate_tick defaultConfig 1 1 preempt_rotation) = true) /\
  (lin_preempt (preempt_at 1) = true /\
   let step :=
     fst (moveLinear_tick defaultConfig
            (linear_call defaultConfig (mkVector3 1 0 0))
            (linear_init (mkVector3 1 0 0) 0)
            (mkVector3 (1 / 20) 0 0) (preempt_at 1)) in
   ls_done step = true /\ ls_success step = true).
Proof.
  split.
  - split; [reflexivity |].
    assert (H : Rabs (normalizeAngle (1 - 1)) < angularTolerance defaultConfig).
    { rewrite normalizeAngle_0, Rabs_R0. simpl. lra. }
    destruct (rotate_tick_finish defaultConfig 1 1 preempt_rotation H)
      as [Hd [Hs _]].
    now split.
  - split; [reflexivity |]. cbv zeta.
    apply tick_finish_overrides_preempt.
    + reflexivity.
    + simpl. lra.
    + rewrite distRemainingOf_x by lra. simpl. lra.
Qed.

(** ** The lateral PID *)

(** The error and the previous error are stored together at lines
    660-661, so they are equal whenever the loop body is entered. *)
Lemma linear_after_errors_equal (cfg : Config) (call : LinCall)
    (inputs : list (Vector3 * LinSense)) :
  forall st : LinState,
  lateralError st = prevLateralError st ->
  lateralError (linear_after cfg call st inputs)
  = prevLateralError (linear_after cfg call st inputs).
Proof.
  unfold linear_after.
  induction inputs as [| [remaining s] rest IH]; intros st Hst; [exact Hst |].
  cbn [fold_left fst snd]. apply IH.
  rewrite moveLinear_tick_eq. reflexivity.
Qed.

(** The difference taken at line 659 is therefore zero on every pass of
    every call: the derivative gain never reaches the rotation. *)
Lemma lateral_derivative_always_zero (cfg : Config) (remaining0 : Vector3)
    (now0 : R) (inputs : list (Vector3 * LinSense)) (remaining : Vector3)
    (s : LinSense) :
  let call := linear_call cfg remaining0 in
  let st := linear_after cfg call (linear_init remaining0 now0) inputs in
  let error := sideRecoverWeight cfg * vy remaining in
  lateralDiff (snd (moveLinear_tick cfg call st remaining s)) = 0 /\
  ls_rotation (fst (moveLinear_tick cfg call st remaining s)) =
    Num.max (- maxLateralVelocity cfg)
      (Num.min (maxLateralVelocity cfg)
         (lateralKp cfg * error
          + lateralKi cfg * (lateralIntegral st + error) + lateralKd cfg * 0)).
Proof.
  intros call st error.
  assert (Heq : lateralError st = prevLateralError st)
    by (apply linear_after_errors_equal; reflexivity).
  rewrite moveLinear_tick_eq. cbn [fst snd lateralDiff ls_rotation].
  rewrite Heq.
  replace (prevLateralError st - prevLateralError st) with 0 by ring.
  now split.
Qed.

(** Evaluate [Rmin] and [Rmax] on comparable arguments. *)
Ltac eval_minmax :=
  repeat match goal with
  | |- context [Rmin ?a ?b] =>
      first [rewrite (Rmin_left a b) by lra | rewrite (Rmin_right a b) by lra]
  | |- context [Rmax ?a ?b] =>
      first [rewrite (Rmax_left a b) by lra | rewrite (Rmax_right a b) by lra]
  end;
  try lra.

(** C3, with gains Kp = 0, Ki = 0, Kd = 1 and the robot first on the line
    to the goal (lateral offset 0) and, one tick later, 1 m beside it: on
    the second tick the specification's PID emits Kd times the change of
    the error, 1, while the code emits 0. *)
Theorem C3_derivative_term_is_lost :
  let call := linear_call derivativeOnly (mkVector3 2 0 0) in
  let st0 := linear_init (mkVector3 2 0 0) 0 in
  let st1 := linear_after derivativeOnly call st0
               [(mkVector3 2 0 0, clear_at 1)] in
  ls_rotation
    (fst (moveLinear_tick derivativeOnly call st1 (mkVector3 2 1 0)
            (clear_at 2))) = 0 /\
  Spec.pid_rotations derivativeOnly 0 0 [0; 1] = [0; 1].
Proof.
  cbv zeta. split.
  - destruct (lateral_derivative_always_zero derivativeOnly
                (mkVector3 2 0 0) 0 [(mkVector3 2 0 0, clear_at 1)]
                (mkVector3 2 1 0) (clear_at 2)) as [_ Hrot].
    rewrite Hrot. cbn [lateralKp lateralKi lateralKd derivativeOnly
      maxLateralVelocity].
    rewrite max_Rmax, min_Rmin.
    match goal with
    | |- Rmax _ (Rmin _ ?e) = _ => replace e with 0 by ring
    end.
    eval_minmax.
  - unfold Spec.pid_rotations, Spec.lateral_pid, Spec.clamp.
    cbn [lateralKp lateralKi lateralKd derivativeOnly maxLateralVelocity
         sideRecoverWeight].
    repeat f_equal.
    + match goal with
      | |- Rmax _ (Rmin _ ?e) = _ => replace e with 0 by ring
      end.
      eval_minmax.
    + match goal with
      | |- Rmax _ (Rmin _ ?e) = _ => replace e with 1 by ring
      end.
      eval_minmax.
Qed.

(** ** The no-progress abort *)

Lemma tick_stalled (cfg : Config) (call : LinCall) (st : LinState)
    (remaining : Vector3) (s : LinSense) :
  stalled (fst (moveLinear_tick cfg call st remaining s)) =
  Num.gtb (distRemainingOf remaining) (prevDistRemaining st)
  && Num.gtb (now_progress s - last st) (abortTimeout call).
Proof.
  rewrite moveLinear_tick_eq. unfold stalled. cbn [fst ls_aborts].
  rewrite existsb_app.
  destruct (_ && _ && _), (_ && _); reflexivity.
Qed.

Lemma tick_prevDistRemaining (cfg : Config) (call : LinCall) (st : LinState)
    (remaining : Vector3) (s : LinSense) :
  prevDistRemaining (snd (moveLinear_tick cfg call st remaining s)) =
  Rmax (prevDistRemaining st) (distRemainingOf remaining).
Proof.
  rewrite moveLinear_tick_eq. cbn [snd prevDistRemaining].
  unfold Rmax. cmp_cases; destruct (Rle_dec _ _); lra.
Qed.

Lemma tick_last (cfg : Config) (call : LinCall) (st : LinState)
    (remaining : Vector3) (s : LinSense) :
  last (snd (moveLinear_tick cfg call st remaining s)) =
  if Num.gtb (distRemainingOf remaining) (prevDistRemaining st)
  then last st else now_progress s.
Proof. rewrite moveLinear_tick_eq. reflexivity. Qed.

(** The stored distance is a high-water mark. *)
Lemma linear_after_high_water (cfg : Config) (call : LinCall)
    (inputs : list (Vector3 * LinSense)) :
  forall st : LinState,
  prevDistRemaining (linear_after cfg call st inputs)
  = high_water (prevDistRemaining st) inputs.
Proof.
  unfold linear_after, high_water.
  induction inputs as [| [remaining s] rest IH]; intros st; [reflexivity |].
  cbn [fold_left fst snd]. rewrite IH. now rewrite tick_prevDistRemaining.
Qed.

(** While every reading exceeds the mark the timer is never restarted. *)
Lemma linear_after_climbing (cfg : Config) (call : LinCall)
    (inputs : list (Vector3 * LinSense)) :
  forall st : LinState,
  climbing (prevDistRemaining st) inputs ->
  last (linear_after cfg call st inputs) = last st.
Proof.
  unfold linear_after.
  induction inputs as [| [remaining s] rest IH]; intros st Hcl; [reflexivity |].
  cbn [fold_left fst snd]. destruct Hcl as [Hfar Hrest]. cbn [fst] in *.
  rewrite IH.
  - rewrite tick_last.
    replace (Num.gtb (distRemainingOf remaining) (prevDistRemaining st))
      with true by (symmetry; now apply gtb_true).
    reflexivity.
  - rewrite tick_prevDistRemaining. rewrite Rmax_right by lra. exact Hrest.
Qed.

(** What the loop does: the distance it stores is a high-water mark, the
    largest of the requested distance and the distances read so far.  A
    pass aborts with the no-progress message exactly when the distance
    read exceeds that mark and more than abortTimeoutSecs passed since
    the timer was last restarted; a pass whose distance does not exceed
    the mark restarts the timer and does not abort; a pass whose distance
    exceeds it leaves the timer alone and raises the mark; and while every
    reading exceeds the one before, from the requested distance on, the
    timer still holds the time of entry. *)
Lemma no_progress_abort_uses_high_water (cfg : Config)
    (remaining0 : Vector3) (now0 : R) (inputs : list (Vector3 * LinSense))
    (remaining : Vector3) (s : LinSense) :
  let call := linear_call cfg remaining0 in
  let st := linear_after cfg call (linear_init remaining0 now0) inputs in
  let dist := distRemainingOf remaining in
  let mark := high_water (length remaining0) inputs in
  let step := fst (moveLinear_tick cfg call st remaining s) in
  let st' := snd (moveLinear_tick cfg call st remaining s) in
  prevDistRemaining st = mark /\
  (stalled step = true <->
   mark < dist /\ abortTimeoutSecs cfg < now_progress s - last st) /\
  (dist <= mark -> last st' = now_progress s /\ stalled step = false) /\
  (mark < dist -> last st' = last st) /\
  prevDistRemaining st' = Rmax mark dist /\
  (climbing (length remaining0) inputs -> last st = now0).
Proof.
  intros call st dist mark step st'.
  assert (Hmark : prevDistRemaining st = mark)
    by (subst st mark; now rewrite linear_after_high_water).
  split; [exact Hmark |].
  subst step st'. rewrite tick_stalled, tick_last, tick_prevDistRemaining.
  rewrite Hmark. fold dist. cbn [abortTimeout call linear_call].
  repeat split.
  - apply andb_prop in H. destruct H as [H _]. now apply gtb_true in H.
  - apply andb_prop in H. destruct H as [_ H]. now apply gtb_true in H.
  - intros [H1 H2]. apply andb_true_intro. split; now apply gtb_true.
  - replace (Num.gtb dist mark) with false
      by (symmetry; now apply gtb_false).
    reflexivity.
  - replace (Num.gtb dist mark) with false
      by (symmetry; now apply gtb_false).
    reflexivity.
  - intros H. replace (Num.gtb dist mark) with true
      by (symmetry; now apply gtb_true).
    reflexivity.
  - intros Hcl. subst st.
    now rewrite linear_after_climbing.
Qed.

(** A pass with no obstacle under the threshold, no preempt request, a
    distance that does not exceed the stored one and is outside the
    linear tolerance leaves the loop running. *)
Lemma tick_keeps_running (cfg : Config) (call : LinCall) (st : LinState)
    (remaining : Vector3) (s : LinSense) :
  forwardObstacleThreshold cfg <= obstacleDistOf call s ->
  lin_preempt s = false ->
  distRemainingOf remaining <= prevDistRemaining st ->
  linearTolerance cfg <= distRemainingOf remaining ->
  ls_done (fst (moveLinear_tick cfg call st remaining s)) = false.
Proof.
  intros Hobs Hpre Hfar Htol. rewrite moveLinear_tick_eq.
  cbn [fst ls_done]. rewrite Hpre.
  replace (Num.ltb (obstacleDistOf call s) (forwardObstacleThreshold cfg))
    with false by (symmetry; now apply ltb_false).
  replace (Num.gtb (distRemainingOf remaining) (prevDistRemaining st))
    with false by (symmetry; now apply gtb_false).
  replace (Num.ltb (distRemainingOf remaining) (linearTolerance cfg))
    with false by (symmetry; now apply ltb_false).
  cbn [andb orb]. now rewrite andb_false_r.
Qed.

Lemma linear_steps_cons (cfg : Config) (call : LinCall) (st : LinState)
    (remaining : Vector3) (s : LinSense)
    (rest : list (Vector3 * LinSense)) :
  linear_steps cfg call st ((remaining, s) :: rest) =
  if ls_done (fst (moveLinear_tick cfg call st remaining s))
  then [fst (moveLinear_tick cfg call st remaining s)]
  else fst (moveLinear_tick cfg call st remaining s)
       :: linear_steps cfg call
            (snd (moveLinear_tick cfg call st remaining s)) rest.
Proof.
  cbn [linear_steps].
  now destruct (moveLinear_tick cfg call st remaining s).
Qed.

(** C4, at a robot that starts 10 m from the goal, reaches 5 m after 1 s
    and is back at 6 m after 8 s (timeout 5 s): the low-water monitor of
    the specification aborts on the second reading, 7 s after the last
    improvement; the loop of the code makes both passes without the
    no-progress abort, since 6 m does not exceed the 10 m it has stored,
    although the robot has been driving away from the goal for longer
    than the timeout. *)
Theorem C4_low_water_mark_is_not_kept :
  let cfg := defaultConfig in
  let remaining0 := mkVector3 10 0 0 in
  let inputs := [(mkVector3 5 0 0, clear_at 1); (mkVector3 6 0 0, clear_at 8)] in
  Spec.progress_aborts (abortTimeoutSecs cfg)
    (Spec.mkProgress (length remaining0) 0)
    (map (fun i => (distRemainingOf (fst i), now_progress (snd i))) inputs)
  = true /\
  List.length
    (linear_steps cfg (linear_call cfg remaining0)
       (linear_init remaining0 0) inputs) = 2%nat /\
  existsb stalled
    (linear_steps cfg (linear_call cfg remaining0)
       (linear_init remaining0 0) inputs) = false.
Proof.
  cbv zeta.
  assert (H10 : length (mkVector3 10 0 0) = 10) by (apply length_x; lra).
  assert (H5 : distRemainingOf (mkVector3 5 0 0) = 5)
    by (apply distRemainingOf_x; lra).
  assert (H6 : distRemainingOf (mkVector3 6 0 0) = 6)
    by (apply distRemainingOf_x; lra).
  split.
  - cbn [map fst snd Spec.progress_aborts Spec.progress_tick Spec.best
      Spec.lastImprovement now_progress clear_at].
    rewrite H10, H5, H6.
    cbn [abortTimeoutSecs defaultConfig].
    unfold Spec.progress_tick; cbn [Spec.best Spec.lastImprovement].
    cmp_cases; cbn [Spec.best Spec.lastImprovement] in *;
      try lra; reflexivity.
  - set (call := linear_call defaultConfig (mkVector3 10 0 0)).
    set (st0 := linear_init (mkVector3 10 0 0) 0).
    set (t1 := moveLinear_tick defaultConfig call st0 (mkVector3 5 0 0)
                 (clear_at 1)).
    assert (Hobs : forall now,
              forwardObstacleThreshold defaultConfig
              <= obstacleDistOf call (clear_at now)).
    { intros now. subst call. rewrite obstacleDistOf_forward_reading.
      simpl. lra. }
    assert (Hprev1 : prevDistRemaining (snd t1) = 10).
    { subst t1. rewrite tick_prevDistRemaining. subst st0.
      cbn [linear_init prevDistRemaining]. rewrite H10, H5.
      apply Rmax_left. lra. }
    assert (Hd1 : ls_done (fst t1) = false).
    { subst t1. apply tick_keeps_running; try apply Hobs; try reflexivity.
      - subst st0. cbn [linear_init prevDistRemaining]. rewrite H10, H5. lra.
      - rewrite H5. simpl. lra. }
    assert (Hs1 : stalled (fst t1) = false).
    { subst t1. rewrite tick_stalled. subst st0.
      cbn [linear_init prevDistRemaining]. rewrite H10, H5.
      replace (Num.gtb 5 10) with false; [reflexivity |].
      symmetry. apply gtb_false. lra. }
    set (t2 := moveLinear_tick defaultConfig call (snd t1) (mkVector3 6 0 0)
                 (clear_at 8)).
    assert (Hd2 : ls_done (fst t2) = false).
    { subst t2. apply tick_keeps_running; try apply Hobs; try reflexivity.
      - rewrite Hprev1, H6. lra.
      - rewrite H6. simpl. lra. }
    assert (Hs2 : stalled (fst t2) = false).
    { subst t2. rewrite tick_stalled, Hprev1, H6.
      replace (Num.gtb 6 10) with false; [reflexivity |].
      symmetry. apply gtb_false. lra. }
    rewrite !linear_steps_cons. fold t1. rewrite Hd1. fold t2. rewrite Hd2.
    cbn [linear_steps List.length existsb]. rewrite Hs1, Hs2.
    now split.
Qed.

(** ** The velocity profile *)

(** Split on the tests of [Rmin] and [Rmax], innermost first. *)
Ltac minmax_cases :=
  unfold Rmax, Rmin;
  repeat match goal with
  | |- context [Rle_dec ?a ?b] =>
      lazymatch a with context [Rle_dec _ _] => fail | _ => idtac end;
      lazymatch b with context [Rle_dec _ _] => fail | _ => idtac end;
      destruct (Rle_dec a b)
  end.

Lemma rotate_velocity_profile (cfg : Config) (angleRemaining obstacle : R) :
  0 <= angularAcceleration cfg ->
  rotate_velocity cfg angleRemaining obstacle =
  Spec.speed angleRemaining obstacle (maxTurningVelocity cfg)
    (minTurningVelocity cfg) (rotGain cfg) (angularAcceleration cfg).
Proof.
  intros Hacc. rewrite rotate_velocity_real by exact Hacc.
  unfold Spec.speed, Spec.clamp.
  set (d := Rmin (Rabs angleRemaining) (Rabs obstacle)).
  generalize (sqrt (2 * angularAcceleration cfg * d)) (rotGain cfg * d).
  intros x y. minmax_cases; lra.
Qed.

Lemma linear_velocity_profile (cfg : Config) (obstacleDist distRemaining : R) :
  0 <= linGain cfg -> 0 <= maxLinearVelocity cfg ->
  0 <= linearAcceleration cfg ->
  linear_velocity cfg obstacleDist distRemaining =
  Spec.speed distRemaining obstacleDist (maxLinearVelocity cfg) 0
    (linGain cfg) (linearAcceleration cfg)
  /\ 0 <= linear_velocity cfg obstacleDist distRemaining.
Proof.
  intros Hgain Hmax Hacc.
  rewrite linear_velocity_real by exact Hacc.
  unfold Spec.speed, Spec.clamp.
  rewrite (Rmin_comm (Rabs distRemaining) (Rabs obstacleDist)).
  set (d := Rmin (Rabs obstacleDist) (Rabs distRemaining)).
  assert (Hd : 0 <= d).
  { subst d. apply Rmin_glb; apply Rabs_pos. }
  assert (Hgd : 0 <= linGain cfg * d) by now apply Rmult_le_pos.
  pose proof (sqrt_pos (2 * linearAcceleration cfg * d)) as Hsq.
  revert Hgd Hsq.
  generalize (sqrt (2 * linearAcceleration cfg * d)) (linGain cfg * d).
  intros x y Hy Hx. minmax_cases; lra.
Qed.

Lemma rotate_tick_done_false (cfg : Config) (requestedYaw currentYaw : R)
    (s : RotSense) :
  rs_done (rotate_tick cfg requestedYaw currentYaw s) = false ->
  rot_preempt s = false /\
  angularTolerance cfg <= Rabs (normalizeAngle (requestedYaw - currentYaw)).
Proof.
  unfold rotate_tick, Num.abs.
  destruct (Num.ltb (Rabs (normalizeAngle (requestedYaw - currentYaw)))
              (angularTolerance cfg)) eqn:Htol;
    destruct (rot_preempt s); cbn [rs_done]; try discriminate.
  intros _. split; [reflexivity | now apply ltb_false].
Qed.

(** A pass that leaves the loop running and detected no obstacle sends
    the computed velocity, signed by the direction of travel. *)
Lemma tick_running_velocity (cfg : Config) (call : LinCall) (st : LinState)
    (remaining : Vector3) (s : LinSense) :
  Num.ltb (obstacleDistOf call s) (forwardObstacleThreshold cfg) = false ->
  ls_done (fst (moveLinear_tick cfg call st remaining s)) = false ->
  let v := linear_velocity cfg (obstacleDistOf call s)
             (distRemainingOf remaining) in
  ls_velocity (fst (moveLinear_tick cfg call st remaining s))
  = if negb (forward call) then - v else v.
Proof.
  intros Hobs. rewrite moveLinear_tick_eq. cbn [fst ls_done ls_velocity].
  rewrite Hobs. cbn [andb orb].
  destruct (lin_preempt s); cbn [orb]; [discriminate |].
  destruct (Num.gtb (distRemainingOf remaining) (prevDistRemaining st)
            && Num.gtb (now_progress s - last st) (abortTimeout call));
    cbn [orb]; [discriminate |].
  intros Hfin. rewrite Hfin. reflexivity.
Qed.

(** A rotation pass ends the call exactly when a preempt is requested or
    the angle remaining is inside the tolerance, and then sends 0. *)
Lemma rotate_tick_done (cfg : Config) (requestedYaw currentYaw : R)
    (s : RotSense) :
  rs_done (rotate_tick cfg requestedYaw currentYaw s)
  = rot_preempt s
    || Num.ltb (Rabs (normalizeAngle (requestedYaw - currentYaw)))
         (angularTolerance cfg).
Proof.
  unfold rotate_tick, Num.abs.
  destruct (Num.ltb (Rabs (normalizeAngle (requestedYaw - currentYaw)))
              (angularTolerance cfg));
    destruct (rot_preempt s); reflexivity.
Qed.

Lemma rotate_tick_done_velocity (cfg : Config) (requestedYaw currentYaw : R)
    (s : RotSense) :
  rs_done (rotate_tick cfg requestedYaw currentYaw s) = true ->
  rs_velocity (rotate_tick cfg requestedYaw currentYaw s) = 0.
Proof.
  unfold rotate_tick, Num.abs.
  destruct (Num.ltb (Rabs (normalizeAngle (requestedYaw - currentYaw)))
              (angularTolerance cfg));
    destruct (rot_preempt s); cbn [rs_done rs_velocity];
    try discriminate; intros _;
    destruct (Num.ltb (normalizeAngle (requestedYaw - currentYaw)) 0); lra.
Qed.

(** A translation pass ends the call exactly when it reports an abort,
    sees a preempt request or passes the finish test. *)
Lemma tick_done_iff (cfg : Config) (call : LinCall) (st : LinState)
    (remaining : Vector3) (s : LinSense) :
  let step := fst (moveLinear_tick cfg call st remaining s) in
  ls_done step = true <->
  ls_aborts step <> [] \/ lin_preempt s = true \/ ls_success step = true.
Proof.
  rewrite moveLinear_tick_eq. cbn [fst ls_done ls_aborts ls_success].
  set (waited := _ && _ && Num.gtb (now_obstacle s - obstacleTime st) _).
  set (late := Num.gtb (distRemainingOf remaining) (prevDistRemaining st) && _).
  set (finish := Num.ltb _ (velThreshold cfg) && _).
  destruct waited, late, (lin_preempt s), finish; cbn [orb app];
    split; intros H; try reflexivity; try discriminate;
    try (left; discriminate);
    try (right; left; reflexivity);
    try (right; right; reflexivity);
    destruct H as [H | [H | H]]; try discriminate; now contradiction H.
Qed.

(** C6, amended: with non-negative minTurningVelocity, linGain,
    maxLinearVelocity and accelerations, the magnitude of the velocity a
    pass sends is the velocity profile on the passes that do not force
    the velocity to zero, and 0 on the others.  A rotation pass ends the
    call, and sends 0, exactly when a preempt is requested or the angle
    remaining is inside the tolerance; otherwise its speed is the profile
    with rotGain, angularAcceleration, minTurningVelocity and
    maxTurningVelocity.  A translation pass ends the call exactly when it
    reports an abort, sees a preempt request or passes the finish test;
    it sends 0 when it ends the call or detects an obstacle under the
    threshold, and otherwise its speed is the profile with linGain,
    linearAcceleration, 0 and maxLinearVelocity. *)
Theorem C6_running_speed_follows_profile (cfg : Config)
    (requestedYaw currentYaw : R) (rs : RotSense)
    (call : LinCall) (st : LinState) (remaining : Vector3) (ls : LinSense) :
  let angleRemaining := normalizeAngle (requestedYaw - currentYaw) in
  let rstep := rotate_tick cfg requestedYaw currentYaw rs in
  let lstep := fst (moveLinear_tick cfg call st remaining ls) in
  let detected :=
    Num.ltb (obstacleDistOf call ls) (forwardObstacleThreshold cfg) in
  0 <= minTurningVelocity cfg ->
  0 <= angularAcceleration cfg ->
  0 <= linGain cfg ->
  0 <= maxLinearVelocity cfg ->
  0 <= linearAcceleration cfg ->
  (rs_done rstep
   = rot_preempt rs || Num.ltb (Rabs angleRemaining) (angularTolerance cfg))
  /\
  (rs_done rstep = false ->
   Rabs (rs_velocity rstep) =
     Spec.speed angleRemaining
       (obstacle_angle rs (Num.gtb angleRemaining 0))
       (maxTurningVelocity cfg) (minTurningVelocity cfg)
       (rotGain cfg) (angularAcceleration cfg))
  /\
  (rs_done rstep = true -> rs_velocity rstep = 0)
  /\
  (ls_done lstep = true <->
   ls_aborts lstep <> [] \/ lin_preempt ls = true \/ ls_success lstep = true)
  /\
  (detected = false -> ls_done lstep = false ->
   Rabs (ls_velocity lstep) =
     Spec.speed (distRemainingOf remaining) (obstacleDistOf call ls)
       (maxLinearVelocity cfg) 0 (linGain cfg) (linearAcceleration cfg))
  /\
  (detected = true \/ ls_done lstep = true -> ls_velocity lstep = 0).
Proof.
  intros ang rstep lstep detected Hmin Hracc Hgain Hmax Hlacc.
  split; [apply rotate_tick_done |].
  split.
  { intros Hrun. subst rstep. apply rotate_tick_done_false in Hrun.
    destruct Hrun as [Hpre Htol].
    rewrite (rotate_tick_running cfg requestedYaw currentYaw rs Hpre Htol).
    cbv zeta; cbn [rs_velocity]. fold ang.
    pose proof (rotate_velocity_floor cfg ang
                  (obstacle_angle rs (Num.gtb ang 0))) as Hfloor.
    rewrite <- rotate_velocity_profile by exact Hracc.
    destruct (Num.ltb ang 0); [rewrite Rabs_Ropp |];
      apply Rabs_pos_eq; lra. }
  split; [apply rotate_tick_done_velocity |].
  split; [apply tick_done_iff |].
  split.
  - intros Hobs Hlin. subst lstep detected.
    rewrite (tick_running_velocity _ _ _ _ _ Hobs Hlin).
    destruct (linear_velocity_profile cfg (obstacleDistOf call ls)
                (distRemainingOf remaining) Hgain Hmax Hlacc) as [Heq Hpos].
    rewrite <- Heq.
    destruct (negb (forward call)); [rewrite Rabs_Ropp |];
      now apply Rabs_pos_eq.
  - apply tick_velocity_zero.
Qed.

Lemma C6_running_speed_follows_profile_witness :
  let call := linear_call defaultConfig (mkVector3 2 0 0) in
  let st := linear_init (mkVector3 2 0 0) 0 in
  let remaining := mkVector3 1 0 0 in
  let rstep := rotate_tick defaultConfig 1 0 free_rotation in
  let lstep :=
    fst (moveLinear_tick defaultConfig call st remaining (clear_at 1)) in
  (0 <= minTurningVelocity defaultConfig /\
   0 <= angularAcceleration defaultConfig /\
   0 <= linGain defaultConfig /\
   0 <= maxLinearVelocity defaultConfig /\
   0 <= linearAcceleration defaultConfig) /\
  (rs_done rstep = false /\
   Num.ltb (obstacleDistOf call (clear_at 1))
     (forwardObstacleThreshold defaultConfig) = false /\
   ls_done lstep = false) /\
  Rabs (rs_velocity rstep) =
    Spec.speed (normalizeAngle (1 - 0))
      (obstacle_angle free_rotation (Num.gtb (normalizeAngle (1 - 0)) 0))
      (maxTurningVelocity defaultConfig) (minTurningVelocity defaultConfig)
      (rotGain defaultConfig) (angularAcceleration defaultConfig)
  /\
  Rabs (ls_velocity lstep)
  = Spec.speed (distRemainingOf remaining) (obstacleDistOf call (clear_at 1))
      (maxLinearVelocity defaultConfig) 0 (linGain defaultConfig)
      (linearAcceleration defaultConfig).
Proof.
  intros call st remaining rstep lstep.
  assert (H1 : 0 <= minTurningVelocity defaultConfig) by (simpl; lra).
  assert (H1' : 0 <= angularAcceleration defaultConfig) by (simpl; lra).
  assert (H2 : 0 <= linGain defaultConfig) by (simpl; lra).
  assert (H3 : 0 <= maxLinearVelocity defaultConfig) by (simpl; lra).
  assert (H3' : 0 <= linearAcceleration defaultConfig) by (simpl; lra).
  assert (H4 : rs_done rstep = false).
  { subst rstep. rewrite rotate_tick_running; [reflexivity | reflexivity |].
    rewrite normalizeAngle_1, Rabs_R1. simpl. lra. }
  assert (Hobs : forwardObstacleThreshold defaultConfig
                 <= obstacleDistOf call (clear_at 1)).
  { subst call. rewrite obstacleDistOf_forward_reading. simpl. lra. }
  assert (H5 : Num.ltb (obstacleDistOf call (clear_at 1))
                 (forwardObstacleThreshold defaultConfig) = false)
    by now apply ltb_false.
  assert (H6 : ls_done lstep = false).
  { subst lstep. apply tick_keeps_running; [exact Hobs | reflexivity | |].
    - subst remaining st. cbn [linear_init prevDistRemaining].
      rewrite distRemainingOf_x, length_x by lra. lra.
    - subst remaining. rewrite distRemainingOf_x by lra. simpl. lra. }
  split; [now repeat split |].
  split; [now repeat split |].
  destruct (C6_running_speed_follows_profile defaultConfig 1 0 free_rotation
              call st remaining (clear_at 1) H1 H1' H2 H3 H3')
    as [_ [Hrot [_ [_ [Hlin _]]]]].
  split; [exact (Hrot H4) | exact (Hlin H5 H6)].
Defined.

Lemma speed_floor (remaining obstacleLimit maxVelocity minVelocity gain
    acceleration : R) :
  minVelocity
  <= Spec.speed remaining obstacleLimit maxVelocity minVelocity gain
       acceleration.
Proof. unfold Spec.speed, Spec.clamp. apply Rmax_l. Qed.

(** The translation has no lower clamp: with a negative linGain the
    velocity sent is negative, where the profile is clamped at 0. *)
Lemma negative_gain_leaves_the_profile :
  let call := linear_call negativeGain (mkVector3 2 0 0) in
  let st := linear_init (mkVector3 2 0 0) 0 in
  ls_velocity
    (fst (moveLinear_tick negativeGain call st (mkVector3 1 0 0)
            (clear_at 1))) = - (1) /\
  Spec.speed (distRemainingOf (mkVector3 1 0 0))
    (obstacleDistOf call (clear_at 1))
    (maxLinearVelocity negativeGain) 0 (linGain negativeGain)
    (linearAcceleration negativeGain) = 0.
Proof.
  intros call st.
  assert (Hobs : obstacleDistOf call (clear_at 1) = 100)
    by (subst call; now rewrite obstacleDistOf_forward_reading).
  assert (Hd : distRemainingOf (mkVector3 1 0 0) = 1)
    by (apply distRemainingOf_x; lra).
  pose proof (sqrt_pos (2 * (1 / 10) * 1)) as Hsq.
  split.
  - rewrite tick_running_velocity.
    + replace (negb (forward call)) with false.
      * rewrite linear_velocity_real by (simpl; lra). rewrite Hobs, Hd.
        cbn [linGain maxLinearVelocity linearAcceleration negativeGain].
        rewrite Rabs_R1, (Rabs_pos_eq 100) by lra.
        rewrite (Rmin_right 100 1) by lra.
        revert Hsq. generalize (sqrt (2 * (1 / 10) * 1)). intros x Hx.
        minmax_cases; lra.
      * subst call. unfold linear_call; cbn [forward vx].
        symmetry. apply negb_false_iff, gtb_true. lra.
    + apply ltb_false. rewrite Hobs. simpl. lra.
    + apply tick_keeps_running; [| reflexivity | |].
      * rewrite Hobs. simpl. lra.
      * subst st. cbn [linear_init prevDistRemaining].
        rewrite Hd, length_x by lra. lra.
      * rewrite Hd. simpl. lra.
  - rewrite Hobs, Hd. unfold Spec.speed, Spec.clamp.
    cbn [linGain maxLinearVelocity linearAcceleration negativeGain].
    rewrite Rabs_R1, (Rabs_pos_eq 100) by lra.
    rewrite (Rmin_left 1 100) by lra.
    revert Hsq. generalize (sqrt (2 * (1 / 10) * 1)). intros x Hx.
    minmax_cases; lra.
Qed.

(** C6, as stated, fails on the passes that force the velocity to zero.
    A rotation pass with the yaw on target sends 0 while the profile is at
    its floor 0.02; a translation pass 1 m from the goal with an obstacle
    0.1 m ahead (threshold 0.5 m) sends 0 while the profile is positive.
    It also fails on a running translation pass with linGain = -1, which
    sends -1 (magnitude 1) while the profile is clamped at 0. *)
Lemma C6_stopped_passes_leave_the_profile :
  (Rabs (ls_velocity
           (fst (moveLinear_tick negativeGain
                   (linear_call negativeGain (mkVector3 2 0 0))
                   (linear_init (mkVector3 2 0 0) 0) (mkVector3 1 0 0)
                   (clear_at 1)))) = 1 /\
   Spec.speed (distRemainingOf (mkVector3 1 0 0))
     (obstacleDistOf (linear_call negativeGain (mkVector3 2 0 0)) (clear_at 1))
     (maxLinearVelocity negativeGain) 0 (linGain negativeGain)
     (linearAcceleration negativeGain) = 0) /\
  Rabs (rs_velocity (rotate_tick defaultConfig 1 1 free_rotation)) = 0 /\
  2 / 100 <= Spec.speed (normalizeAngle (1 - 1))
               (obstacle_angle free_rotation
                  (Num.gtb (normalizeAngle (1 - 1)) 0))
               (maxTurningVelocity defaultConfig)
               (minTurningVelocity defaultConfig)
               (rotGain defaultConfig) (angularAcceleration defaultConfig) /\
  let call := linear_call defaultConfig (mkVector3 1 0 0) in
  let st := linear_init (mkVector3 1 0 0) 0 in
  Rabs (ls_velocity
          (fst (moveLinear_tick defaultConfig call st (mkVector3 1 0 0)
                  obstacle_ahead))) = 0 /\
  0 < Spec.speed (distRemainingOf (mkVector3 1 0 0))
        (obstacleDistOf call obstacle_ahead)
        (maxLinearVelocity defaultConfig) 0 (linGain defaultConfig)
        (linearAcceleration defaultConfig).
Proof.
  split.
  { destruct negative_gain_leaves_the_profile as [Hv Hs].
    split; [| exact Hs]. rewrite Hv, Rabs_Ropp. apply Rabs_R1. }
  split; [| split; [| split]].
  - assert (H : Rabs (normalizeAngle (1 - 1)) < angularTolerance defaultConfig).
    { rewrite normalizeAngle_0, Rabs_R0. simpl. lra. }
    destruct (rotate_tick_finish defaultConfig 1 1 free_rotation H)
      as [_ [_ Hv]].
    rewrite Hv. apply Rabs_R0.
  - apply (speed_floor _ _ _ (minTurningVelocity defaultConfig)).
  - rewrite tick_velocity_zero; [apply Rabs_R0 |].
    left. apply ltb_true. rewrite obstacleDistOf_forward_reading.
    simpl. lra.
  - rewrite obstacleDistOf_forward_reading, distRemainingOf_x by lra.
    unfold Spec.speed, Spec.clamp.
    cbn [forwardObstacleDist obstacle_ahead maxLinearVelocity linGain
         linearAcceleration defaultConfig].
    rewrite Rabs_R1, (Rabs_pos_eq (1 / 10)) by lra.
    rewrite (Rmin_right 1 (1 / 10)) by lra.
    assert (Hsq : 0 < sqrt (2 * (1 / 10) * (1 / 10)))
      by (apply sqrt_lt_R0; lra).
    apply Rlt_le_trans with (r2 := Rmin (1 / 2)
      (Rmin (1 * (1 / 10)) (sqrt (2 * (1 / 10) * (1 / 10))))).
    + repeat apply Rmin_glb_lt; lra.
    + apply Rmax_r.
Qed.

(** ** Backing up without turning *)

Lemma reverseWithoutTurning_iff (cfg : Config) (linear : Vector3) :
  reverseWithoutTurning cfg linear = true <->
  length linear < reverseWithoutTurningThreshold cfg /\ vx linear < 0.
Proof.
  unfold reverseWithoutTurning. rewrite andb_true_iff, gtb_true, ltb_true.
  reflexivity.
Qed.

Lemma atan2_behind_left : Num.atan2 (vy behind_left) (vx behind_left)
                          = 3 * PI / 4.
Proof.
  unfold Num.atan2, behind_left; cbn [vx vy].
  cmp_cases; try lra.
  replace (1 / 5 / - (1 / 5)) with (Ropp 1) by field.
  rewrite atan_opp, atan_1. field.
Qed.

Lemma length_behind_left : length behind_left < 1 / 2.
Proof.
  unfold length, behind_left; cbn [vx vy vz].
  replace (1 / 2) with (sqrt (1 / 2 * (1 / 2))) by (apply sqrt_square; lra).
  apply sqrt_lt_1; lra.
Qed.

Section Drive.

Context {T : Type} {tf2 : Tf2 T}.

(** The three phases of a goal farther than the linear tolerance: the
    initial rotation, when needed, is requested [initialYaw]; the final
    rotation is requested the goal yaw less the robot yaw and the yaw
    requested of the initial rotation. *)
Lemma drive_phases (cfg : Config) (w : World) (drivingFrame : string)
    (goalInDriving : T) (linear : Vector3) (yaw goalYaw : R) :
  linearTolerance cfg < length linear ->
  drive cfg w drivingFrame goalInDriving linear yaw goalYaw =
  let r1 := if needsInitialRotation cfg linear
            then rotate cfg (initialYaw cfg linear) drivingFrame (w_rot1 w)
            else (true, []) in
  let r2 := moveLinear cfg goalInDriving drivingFrame (w_lin w) in
  let finalYaw := goalYaw - (yaw + initialYaw cfg linear) in
  let r3 := if Num.gtb (Num.abs finalYaw) (angularTolerance cfg)
            then rotate cfg finalYaw drivingFrame (w_rot2 w)
            else (true, []) in
  let pause := Sleep (localizationLatency cfg) in
  if negb (fst r1) then snd r1
  else if negb (fst r2) then snd r1 ++ pause :: snd r2
  else if negb (fst r3) then snd r1 ++ pause :: snd r2 ++ pause :: snd r3
  else (snd r1 ++ pause :: snd r2 ++ pause :: snd r3) ++ [Succeeded].
Proof.
  intros Hdist. unfold drive.
  replace (Num.gtb (length linear) (linearTolerance cfg)) with true
    by (symmetry; now apply gtb_true).
  cbv zeta.
  destruct (if needsInitialRotation cfg linear then _ else _) as [ok1 ev1].
  cbn [fst snd]. destruct ok1; cbn [negb]; [| reflexivity].
  destruct (moveLinear cfg goalInDriving drivingFrame (w_lin w)) as [ok2 ev2].
  cbn [fst snd]. destruct ok2; cbn [negb]; [| reflexivity].
  destruct (if Num.gtb _ _ then _ else _) as [ok3 ev3].
  cbn [fst snd]. destruct ok3; reflexivity.
Qed.

(** C8, amended: reverseWithoutTurning is true exactly when the
    straight-line distance to the goal is under
    reverseWithoutTurningThreshold and the x coordinate of the goal in the
    base frame is negative.  When it is true, the yaw requested of the
    initial rotation is yaw - PI for a positive bearing yaw of the goal
    and PI - yaw otherwise.  The initial rotation is run, with that yaw,
    exactly when its magnitude exceeds angularTolerance, and the final
    rotation is requested the goal yaw less the sum of the robot yaw and
    that yaw. *)
Theorem C8_reverse_without_turning (cfg : Config) (linear : Vector3)
    (w : World) (drivingFrame : string) (goalInDriving : T)
    (robotYaw goalYaw : R) :
  let yaw := Num.atan2 (vy linear) (vx linear) in
  (reverseWithoutTurning cfg linear = true <->
   length linear < reverseWithoutTurningThreshold cfg /\ vx linear < 0) /\
  (reverseWithoutTurning cfg linear = true ->
   (0 < yaw -> initialYaw cfg linear = yaw - PI) /\
   (yaw <= 0 -> initialYaw cfg linear = PI - yaw)) /\
  (needsInitialRotation cfg linear = true <->
   angularTolerance cfg < Rabs (initialYaw cfg linear)) /\
  (linearTolerance cfg < length linear ->
   drive cfg w drivingFrame goalInDriving linear robotYaw goalYaw =
   let r1 := if needsInitialRotation cfg linear
             then rotate cfg (initialYaw cfg linear) drivingFrame (w_rot1 w)
             else (true, []) in
   let r2 := moveLinear cfg goalInDriving drivingFrame (w_lin w) in
   let finalYaw := goalYaw - (robotYaw + initialYaw cfg linear) in
   let r3 := if Num.gtb (Num.abs finalYaw) (angularTolerance cfg)
             then rotate cfg finalYaw drivingFrame (w_rot2 w)
             else (true, []) in
   let pause := Sleep (localizationLatency cfg) in
   if negb (fst r1) then snd r1
   else if negb (fst r2) then snd r1 ++ pause :: snd r2
   else if negb (fst r3) then snd r1 ++ pause :: snd r2 ++ pause :: snd r3
   else (snd r1 ++ pause :: snd r2 ++ pause :: snd r3) ++ [Succeeded]).
Proof.
  intros yaw. split; [apply reverseWithoutTurning_iff |].
  split; [| split].
  - intros Hrev. unfold initialYaw. rewrite Hrev. fold yaw. split; intros H.
    + replace (Num.gtb yaw 0) with true by (symmetry; now apply gtb_true).
      ring.
    + replace (Num.gtb yaw 0) with false by (symmetry; now apply gtb_false).
      reflexivity.
  - unfold needsInitialRotation, Num.abs. apply gtb_true.
  - apply drive_phases.
Qed.

End Drive.

(** C8, as stated, fails on a goal 0.2 m behind the robot and 0.2 m to
    its left (threshold 0.5 m): the robot is to back up without turning,
    the bearing of the goal is 3 PI / 4, the specification's heading
    target is PI - yaw = PI / 4, and the code requests - PI / 4; that yaw
    exceeds the angular tolerance, so an initial rotation is run. *)
Lemma C8_mirrored_yaw_has_the_other_sign :
  reverseWithoutTurning defaultConfig behind_left = true /\
  Spec.headingTarget true (Num.atan2 (vy behind_left) (vx behind_left))
    = PI / 4 /\
  initialYaw defaultConfig behind_left = - (PI / 4) /\
  initialYaw defaultConfig behind_left
    <> Spec.headingTarget true (Num.atan2 (vy behind_left) (vx behind_left)) /\
  needsInitialRotation defaultConfig behind_left = true.
Proof.
  pose proof PI_RGT_0 as Hpi. pose proof PI2_1 as Hpi2.
  assert (Hrev : reverseWithoutTurning defaultConfig behind_left = true).
  { apply reverseWithoutTurning_iff. split.
    - apply length_behind_left.
    - simpl. lra. }
  assert (Hyaw : initialYaw defaultConfig behind_left = - (PI / 4)).
  { unfold initialYaw. rewrite Hrev, atan2_behind_left.
    replace (Num.gtb (3 * PI / 4) 0) with true
      by (symmetry; apply gtb_true; lra).
    field. }
  assert (Hspec : Spec.headingTarget true
                    (Num.atan2 (vy behind_left) (vx behind_left)) = PI / 4).
  { unfold Spec.headingTarget. rewrite atan2_behind_left. field. }
  split; [exact Hrev | split; [exact Hspec | split; [exact Hyaw | split]]].
  - rewrite Hyaw, Hspec. lra.
  - unfold needsInitialRotation, Num.abs. rewrite Hyaw, Rabs_Ropp.
    apply gtb_true. rewrite Rabs_pos_eq by lra. simpl. lra.
Qed.

(** ** Frame resolution *)

Section Frames.

Context {T : Type} {tf2 : Tf2 T}.

Lemma rotate_loop_same (cfg : Config) (frame : string) (requestedYaw : R)
    (t1 t2 : list (TfBuffer T * RotSense)) :
  same_ticks cfg frame t1 t2 ->
  rotate_loop cfg frame requestedYaw t1 = rotate_loop cfg frame requestedYaw t2.
Proof.
  induction 1 as [| [b1 s1] [b2 s2] r1 r2 [[_ Hb] Hs] _ IH]; [reflexivity |].
  cbn [fst snd] in Hb, Hs. subst s2.
  cbn [rotate_loop]. unfold getTransform. rewrite Hb, IH. reflexivity.
Qed.

Lemma rotate_same (cfg : Config) (frame : string) (yaw : R)
    (w1 w2 : RotWorld) :
  same_rot_world cfg frame w1 w2 ->
  rotate cfg yaw frame w1 = rotate cfg yaw frame w2.
Proof.
  intros [[_ Hb] Ht]. unfold rotate, getTransform. rewrite Hb.
  destruct (rw_entry w2 (baseFrame cfg) frame); [| reflexivity].
  destruct (getPose t) as [[x y] currentYaw].
  now apply rotate_loop_same.
Qed.

Lemma linear_loop_same (cfg : Config) (frame : string) (goalInDriving : T)
    (call : LinCall) (t1 t2 : list (TfBuffer T * LinSense)) :
  same_ticks cfg frame t1 t2 ->
  forall st : LinState,
  linear_loop cfg frame goalInDriving call st t1
  = linear_loop cfg frame goalInDriving call st t2.
Proof.
  induction 1 as [| [b1 s1] [b2 s2] r1 r2 [[Hb _] Hs] _ IH]; [reflexivity |].
  cbn [fst snd] in Hb, Hs. subst s2. intros st.
  cbn [linear_loop]. unfold getTransform. rewrite Hb.
  destruct (b2 frame (baseFrame cfg)); [| reflexivity].
  destruct (moveLinear_tick cfg call st _ s1) as [step st'].
  now rewrite IH.
Qed.

Lemma moveLinear_same (cfg : Config) (frame : string) (goalInDriving : T)
    (w1 w2 : LinWorld) :
  same_lin_world cfg frame w1 w2 ->
  moveLinear cfg goalInDriving frame w1 = moveLinear cfg goalInDriving frame w2.
Proof.
  intros [[Hb _] [Hnow Ht]]. unfold moveLinear, getTransform.
  rewrite Hb, Hnow.
  destruct (lw_entry w2 frame (baseFrame cfg)); [| reflexivity].
  now apply linear_loop_same.
Qed.

Lemma drive_same (cfg : Config) (frame : string) (goalInDriving : T)
    (linear : Vector3) (yaw goalYaw : R) (w1 w2 : World) :
  same_rot_world cfg frame (w_rot1 w1) (w_rot1 w2) ->
  same_lin_world cfg frame (w_lin w1) (w_lin w2) ->
  same_rot_world cfg frame (w_rot2 w1) (w_rot2 w2) ->
  drive cfg w1 frame goalInDriving linear yaw goalYaw
  = drive cfg w2 frame goalInDriving linear yaw goalYaw.
Proof.
  intros H1 H2 H3. unfold drive.
  rewrite (rotate_same cfg frame _ _ _ H1).
  rewrite (moveLinear_same cfg frame _ _ _ H2).
  rewrite (rotate_same cfg frame _ _ _ H3).
  reflexivity.
Qed.

(** The translation looks up the frame it was given and nothing else: if
    that lookup fails at entry the call aborts, whatever other frames are
    available. *)
Lemma moveLinear_entry_fails (cfg : Config) (goalInDriving : T)
    (drivingFrame : string) (w : LinWorld) :
  getTransform (lw_entry w) drivingFrame (baseFrame cfg) = None ->
  moveLinear cfg goalInDriving drivingFrame w
  = (false, [Abort msg_linear_pose]).
Proof. intros H. unfold moveLinear. now rewrite H. Qed.

(** The driving frame is the preferred one when its lookup succeeds and
    the alternate one when only that lookup succeeds. *)
Lemma resolveDriving_cases (cfg : Config) (buf : TfBuffer T)
    (frame : string) (pose : T) :
  resolveDriving cfg buf = Some (frame, pose) ->
  (frame = preferredDrivingFrame cfg /\
   getTransform buf (preferredDrivingFrame cfg) (baseFrame cfg) = Some pose)
  \/
  (frame = alternateDrivingFrame cfg /\
   getTransform buf (preferredDrivingFrame cfg) (baseFrame cfg) = None /\
   getTransform buf (alternateDrivingFrame cfg) (baseFrame cfg) = Some pose).
Proof.
  unfold resolveDriving.
  destruct (getTransform buf (preferredDrivingFrame cfg) (baseFrame cfg))
    as [p |] eqn:Hp.
  - intros H. injection H as <- <-. now left.
  - destruct (getTransform buf (alternateDrivingFrame cfg) (baseFrame cfg))
      as [p |] eqn:Ha; [| discriminate].
    intros H. injection H as <- <-. now right.
Qed.

(** C5, amended: the driving frame is resolved once, when the goal
    arrives (preferred frame to base, else alternate frame to base), and
    the planning frame likewise.  From then on the execution depends on
    the transform provider only through the lookups between that one
    driving frame and the base frame: two worlds that agree while the
    goal is planned and on those lookups afterwards give the same
    execution, whatever the other frames do.  In particular the
    translation does not try the other driving frame at its start: when
    the lookup of the chosen frame fails there, it aborts. *)
Theorem C5_driving_frame_is_resolved_once (cfg : Config) (msg : Goal)
    (w1 w2 : World) (frame : string) (pose : T) :
  resolveDriving cfg (w_start w1) = Some (frame, pose) ->
  same_world cfg frame w1 w2 ->
  ((frame = preferredDrivingFrame cfg /\
    getTransform (w_start w1) (preferredDrivingFrame cfg) (baseFrame cfg)
    = Some pose)
   \/
   (frame = alternateDrivingFrame cfg /\
    getTransform (w_start w1) (preferredDrivingFrame cfg) (baseFrame cfg)
    = None /\
    getTransform (w_start w1) (alternateDrivingFrame cfg) (baseFrame cfg)
    = Some pose)) /\
  executeAction cfg msg w1 = executeAction cfg msg w2 /\
  (forall goalInDriving : T,
   getTransform (lw_entry (w_lin w1)) frame (baseFrame cfg) = None ->
   moveLinear cfg goalInDriving frame (w_lin w1)
   = (false, [Abort msg_linear_pose])).
Proof.
  intros Hres [Hstart [H1 [H2 H3]]].
  split; [now apply resolveDriving_cases |].
  split; [| intros g; apply moveLinear_entry_fails].
  unfold executeAction. rewrite <- Hstart, Hres.
  destruct (yaw_isnan (target_pose msg)); [reflexivity |].
  destruct (resolvePlanning cfg (w_start w1) (strip_slash (frame_id msg))
              (target_pose msg)) as [[planningFrame goalInPlanning] |];
    [| reflexivity].
  destruct (getPose goalInPlanning) as [[x y] goalYaw].
  destruct (getTransform (w_start w1) (baseFrame cfg)
              (strip_slash (frame_id msg))) as [poseFrameId |];
    [| reflexivity].
  destruct (getPose poseFrameId) as [[x1 y1] yaw].
  destruct (transformPose (w_start w1) (strip_slash (frame_id msg)) frame
              (target_pose msg)) as [goalInDriving |]; [| reflexivity].
  destruct (transformPose (w_start w1) (strip_slash (frame_id msg))
              (baseFrame cfg) (target_pose msg)); [| reflexivity].
  f_equal. now apply drive_same.
Qed.

(** With no initial rotation to run, a failed lookup at the start of the
    translation is the outcome of the goal. *)
Lemma drive_translation_entry_fails (cfg : Config) (w : World)
    (drivingFrame : string) (goalInDriving : T) (linear : Vector3)
    (yaw goalYaw : R) :
  linearTolerance cfg < length linear ->
  needsInitialRotation cfg linear = false ->
  getTransform (lw_entry (w_lin w)) drivingFrame (baseFrame cfg) = None ->
  drive cfg w drivingFrame goalInDriving linear yaw goalYaw
  = [Sleep (localizationLatency cfg); Abort msg_linear_pose].
Proof.
  intros Hdist Hrot Hfail. unfold drive.
  replace (Num.gtb (length linear) (linearTolerance cfg)) with true
    by (symmetry; now apply gtb_true).
  rewrite Hrot. cbn [negb].
  now rewrite (moveLinear_entry_fails _ _ _ _ Hfail).
Qed.

End Frames.

Lemma same_world_recovered_lost :
  same_world defaultConfig "odom" world_recovered world_lost.
Proof.
  unfold same_world, same_rot_world, same_lin_world, same_ticks, same_lookups.
  cbn [world_recovered world_lost w_start w_rot1 w_lin w_rot2 rw_entry
       rw_ticks lw_entry lw_now lw_ticks].
  repeat split; try reflexivity; constructor.
Qed.

Lemma C5_driving_frame_is_resolved_once_witness :
  resolveDriving defaultConfig (w_start world_recovered)
    = Some ("odom"%string, mkVector3 0 0 0) /\
  same_world defaultConfig "odom" world_recovered world_lost /\
  (("odom"%string = preferredDrivingFrame defaultConfig /\
    getTransform (w_start world_recovered)
      (preferredDrivingFrame defaultConfig) (baseFrame defaultConfig)
    = Some (mkVector3 0 0 0))
   \/
   ("odom"%string = alternateDrivingFrame defaultConfig /\
    getTransform (w_start world_recovered)
      (preferredDrivingFrame defaultConfig) (baseFrame defaultConfig)
    = None /\
    getTransform (w_start world_recovered)
      (alternateDrivingFrame defaultConfig) (baseFrame defaultConfig)
    = Some (mkVector3 0 0 0))) /\
  executeAction defaultConfig goal_ahead world_recovered
    = executeAction defaultConfig goal_ahead world_lost /\
  (forall goalInDriving : Vector3,
   getTransform (lw_entry (w_lin world_recovered)) "odom"
     (baseFrame defaultConfig) = None ->
   moveLinear defaultConfig goalInDriving "odom" (w_lin world_recovered)
   = (false, [Abort msg_linear_pose])).
Proof.
  assert (Hres : resolveDriving defaultConfig (w_start world_recovered)
                 = Some ("odom"%string, mkVector3 0 0 0)) by reflexivity.
  split; [exact Hres |]. split; [exact same_world_recovered_lost |].
  exact (C5_driving_frame_is_resolved_once defaultConfig goal_ahead
           world_recovered world_lost "odom" (mkVector3 0 0 0)
           Hres same_world_recovered_lost).
Defined.

(** The goal of [goal_ahead] seen from the base frame in [world_recovered]. *)
Lemma length_goal_ahead :
  length (setZ (tf_mul (mkVector3 0 0 0)
                  (tf_mul (mkVector3 0 0 0) (mkVector3 2 0 0))) 0) = 2.
Proof.
  unfold length, setZ; cbn [tf_mul Translation vx vy vz].
  replace ((0 + (0 + 2)) * (0 + (0 + 2))
           + (0 + (0 + 0)) * (0 + (0 + 0)) + 0 * 0) with (2 * 2) by ring.
  apply sqrt_square. lra.
Qed.

Lemma no_rotation_goal_ahead :
  needsInitialRotation defaultConfig
    (setZ (tf_mul (mkVector3 0 0 0)
             (tf_mul (mkVector3 0 0 0) (mkVector3 2 0 0))) 0) = false.
Proof.
  unfold needsInitialRotation, initialYaw, reverseWithoutTurning, Num.atan2,
    setZ, Num.abs.
  cbn [tf_mul Translation vx vy vz].
  replace (Num.ltb (0 + (0 + 2)) 0) with false
    by (symmetry; apply ltb_false; lra).
  replace (Num.ltb 0 (0 + (0 + 2))) with true
    by (symmetry; apply ltb_true; lra).
  rewrite andb_false_r.
  replace ((0 + (0 + 0)) / (0 + (0 + 2))) with 0 by field.
  rewrite atan_0, Rabs_R0. apply gtb_false. simpl. lra.
Qed.

(** C5, as stated, fails in a world where "map" is missing when the goal
    arrives (so "odom" is chosen for driving) and, when the translation
    starts, "map" has come back while "odom" is gone: resolving the
    driving frame again at that moment would yield "map", but the
    translation only looks up "odom" and the goal is aborted. *)
Lemma C5_recovered_frame_is_not_used :
  resolveDriving defaultConfig (w_start world_recovered)
    = Some ("odom"%string, mkVector3 0 0 0) /\
  resolveDriving defaultConfig (lw_entry (w_lin world_recovered))
    = Some ("map"%string, mkVector3 0 0 0) /\
  executeAction defaultConfig goal_ahead world_recovered
    = [Path 2 0 0 0; Sleep (1 / 2); Abort msg_linear_pose].
Proof.
  split; [reflexivity | split; [reflexivity |]].
  unfold executeAction.
  cbn [target_pose frame_id goal_ahead strip_slash yaw_isnan Translation
       w_start world_recovered].
  unfold resolvePlanning.
  cbn [preferredPlanningFrame defaultConfig String.eqb].
  cbn [getPose getOrigin getRPY_yaw Translation vx vy vz].
  change (getTransform buf_no_map (baseFrame defaultConfig) "odom")
    with (Some (mkVector3 0 0 0)).
  change (resolveDriving defaultConfig buf_no_map)
    with (Some ("odom"%string, mkVector3 0 0 0)).
  cbv beta iota.
  change (transformPose buf_no_map "odom" "odom" (mkVector3 2 0 0))
    with (Some (tf_mul (mkVector3 0 0 0) (mkVector3 2 0 0))).
  change (transformPose buf_no_map "odom" (baseFrame defaultConfig)
            (mkVector3 2 0 0))
    with (Some (tf_mul (mkVector3 0 0 0) (mkVector3 2 0 0))).
  cbv beta iota. cbn [vx vy].
  f_equal.
  apply drive_translation_entry_fails.
  - rewrite length_goal_ahead. simpl. lra.
  - apply no_rotation_goal_ahead.
  - reflexivity.
Qed.

(** ** The angular part of the commands of a translation *)

(** The lateral PID reads three accumulators of the state and nothing
    else. *)
Lemma lateral_rotations_accumulators (cfg : Config)
    (positions : list Vector3) :
  forall st1 st2 : LinState,
  lateralIntegral st1 = lateralIntegral st2 ->
  lateralError st1 = lateralError st2 ->
  prevLateralError st1 = prevLateralError st2 ->
  lateral_rotations cfg st1 positions = lateral_rotations cfg st2 positions.
Proof.
  induction positions as [| remaining rest IH]; intros st1 st2 Hi He Hp;
    [reflexivity |].
  cbn [lateral_rotations]. unfold lateral_pid. cbv zeta beta iota.
  rewrite Hi, He, Hp. f_equal. now apply IH.
Qed.

(** The rotations of the passes the loop makes are those of the lateral
    PID run alone on the positions read. *)
Lemma linear_steps_rotations (cfg : Config) (call : LinCall)
    (inputs : list (Vector3 * LinSense)) :
  forall st : LinState,
  map ls_rotation (linear_steps cfg call st inputs) =
  firstn (List.length (linear_steps cfg call st inputs))
    (lateral_rotations cfg st (map fst inputs)).
Proof.
  induction inputs as [| [remaining s] rest IH]; intros st; [reflexivity |].
  rewrite linear_steps_cons.
  cbn [map fst lateral_rotations].
  pose proof (tick_rotation cfg call st remaining s) as Hrot.
  pose proof (moveLinear_tick_eq cfg call st remaining s) as Heq.
  cbv zeta in Heq.
  assert (Hst : lateral_rotations cfg
                  (snd (moveLinear_tick cfg call st remaining s))
                  (map fst rest)
                = lateral_rotations cfg
                    (mkLinState (prevDistRemaining st) (pausingForObstacle st)
                       (last st) (obstacleTime st)
                       (lateralIntegral st + sideRecoverWeight cfg * vy remaining)
                       (sideRecoverWeight cfg * vy remaining)
                       (sideRecoverWeight cfg * vy remaining)
                       (lateralError st - prevLateralError st))
                    (map fst rest)).
  { apply lateral_rotations_accumulators; rewrite Heq; reflexivity. }
  unfold lateral_pid in *. cbv zeta beta iota in *. cbn [snd] in Hrot.
  rewrite <- Hst, <- Hrot.
  destruct (ls_done (fst (moveLinear_tick cfg call st remaining s))).
  - reflexivity.
  - cbn [map List.length firstn]. f_equal. apply IH.
Qed.

Lemma commands_linear_events (step : LinStep) :
  commands (linear_events step) = [(ls_rotation step, ls_velocity step)].
Proof.
  unfold linear_events, commands.
  destruct (ls_pid step) as [[x err] rot].
  cbn [flat_map app]. rewrite flat_map_app. cbn [flat_map app].
  induction (ls_aborts step) as [| m rest IH]; [reflexivity |].
  exact IH.
Qed.

Lemma commands_steps (steps : list LinStep) :
  commands (flat_map linear_events steps)
  = map (fun step => (ls_rotation step, ls_velocity step)) steps.
Proof.
  induction steps as [| step rest IH]; [reflexivity |].
  cbn [flat_map map]. unfold commands in *.
  rewrite flat_map_app. fold (commands (linear_events step)).
  now rewrite commands_linear_events, IH.
Qed.

(** On each pass the loop makes, the linear velocity is zero when the
    pass detected an obstacle or ended the call. *)
Lemma linear_steps_zero (cfg : Config) (call : LinCall)
    (inputs : list (Vector3 * LinSense)) :
  forall st : LinState,
  Forall2
    (fun step reading =>
       Num.ltb (obstacleDistOf call (snd reading))
         (forwardObstacleThreshold cfg) = true
       \/ ls_done step = true -> ls_velocity step = 0)
    (linear_steps cfg call st inputs)
    (firstn (List.length (linear_steps cfg call st inputs)) inputs).
Proof.
  induction inputs as [| [remaining s] rest IH]; intros st; [constructor |].
  rewrite linear_steps_cons.
  destruct (ls_done (fst (moveLinear_tick cfg call st remaining s)));
    cbn [List.length firstn]; constructor;
    try apply (tick_velocity_zero cfg call st remaining s);
    [constructor | apply IH].
Qed.

Section CommandRotation.

Context {T : Type} {tf2 : Tf2 T}.

(** C10: in a call of moveLinear that found the pose at entry, the
    commands sent are those of the passes the loop made, one per pass and
    in order, the pass that ended the call included.  Their angular parts
    are the rotations the lateral PID, run alone on the goal positions
    the passes read, gives for those passes.  The linear part is zero on
    every pass that detected an obstacle under the threshold (paused) or
    ended the call (finish, preempt or abort). *)
Theorem C10_commands_carry_pid_rotation (cfg : Config) (goalInDriving : T)
    (drivingFrame : string) (w : LinWorld) (poseDriving : T) :
  getTransform (lw_entry w) drivingFrame (baseFrame cfg) = Some poseDriving ->
  let remaining0 := getOrigin (tf_mul poseDriving goalInDriving) in
  let call := linear_call cfg remaining0 in
  let init := linear_init remaining0 (lw_now w) in
  let readings := readings_of cfg drivingFrame goalInDriving (lw_ticks w) in
  let steps := linear_steps cfg call init readings in
  let sent := commands (snd (moveLinear cfg goalInDriving drivingFrame w)) in
  sent = map (fun step => (ls_rotation step, ls_velocity step)) steps /\
  map fst sent
  = firstn (List.length sent)
      (lateral_rotations cfg init (map fst readings)) /\
  Forall2
    (fun step reading =>
       Num.ltb (obstacleDistOf call (snd reading))
         (forwardObstacleThreshold cfg) = true
       \/ ls_done step = true -> ls_velocity step = 0)
    steps (firstn (List.length steps) readings).
Proof.
  intros Hentry remaining0 call init readings steps sent.
  assert (Hsent : sent
                  = map (fun step => (ls_rotation step, ls_velocity step))
                      steps).
  { subst sent steps readings call init remaining0. unfold moveLinear.
    rewrite Hentry. rewrite linear_loop_steps. apply commands_steps. }
  split; [exact Hsent |]. split.
  - rewrite Hsent, map_map, length_map. cbn [fst].
    apply linear_steps_rotations.
  - apply linear_steps_zero.
Qed.

End CommandRotation.

(** A pass that detects an obstacle while not yet paused leaves the loop
    running when no preempt is requested and the robot is neither
    farther from the goal than before nor inside the tolerance. *)
Lemma tick_pause_begins (cfg : Config) (call : LinCall) (st : LinState)
    (remaining : Vector3) (s : LinSense) :
  pausingForObstacle st = false ->
  lin_preempt s = false ->
  distRemainingOf remaining <= prevDistRemaining st ->
  linearTolerance cfg <= distRemainingOf remaining ->
  ls_done (fst (moveLinear_tick cfg call st remaining s)) = false.
Proof.
  intros Hpause Hpre Hfar Htol. rewrite moveLinear_tick_eq.
  cbn [fst ls_done]. rewrite Hpause, Hpre.
  replace (Num.gtb (distRemainingOf remaining) (prevDistRemaining st))
    with false by (symmetry; now apply gtb_false).
  replace (Num.ltb (distRemainingOf remaining) (linearTolerance cfg))
    with false by (symmetry; now apply ltb_false).
  rewrite !andb_false_r. reflexivity.
Qed.

Lemma length_goal_off_axis : length goal_off_axis = 1.
Proof.
  unfold length, goal_off_axis; cbn [vx vy vz].
  replace (40 / 41 * (40 / 41) + 9 / 41 * (9 / 41) + 0 * 0) with (1 * 1)
    by lra.
  apply sqrt_square. lra.
Qed.

Lemma dist_goal_off_axis : distRemainingOf goal_off_axis = 1.
Proof.
  unfold distRemainingOf, goal_off_axis; cbn [vx vy].
  replace (40 / 41 * (40 / 41) + 9 / 41 * (9 / 41)) with (1 * 1) by lra.
  apply sqrt_square. lra.
Qed.

(** The commands of a translation toward [goal_off_axis] that pauses for
    an obstacle on its first pass and is preempted on its second: both
    carry the rotation 2 * 9/41 of the lateral PID and a zero linear
    part. *)
Lemma commands_paused_preempted :
  commands (snd (moveLinear defaultConfig goal_off_axis "odom"
                   lin_world_paused_preempted))
  = [(18 / 41, 0); (18 / 41, 0)].
Proof.
  unfold moveLinear.
  cbn [lin_world_paused_preempted lw_entry lw_now lw_ticks getTransform
       buf_origin].
  rewrite linear_loop_steps, commands_steps.
  cbn [readings_of getTransform buf_origin getOrigin tf_mul Translation
       vx vy vz].
  replace (mkVector3 (0 + vx goal_off_axis) (0 + vy goal_off_axis)
             (0 + vz goal_off_axis)) with goal_off_axis
    by (unfold goal_off_axis; cbn [vx vy vz]; f_equal; lra).
  set (call := linear_call defaultConfig goal_off_axis).
  set (st0 := linear_init goal_off_axis 0).
  assert (Hrun : ls_done (fst (moveLinear_tick defaultConfig call st0
                                 goal_off_axis obstacle_ahead)) = false).
  { apply tick_pause_begins; try reflexivity.
    - subst st0. cbn [linear_init prevDistRemaining].
      rewrite dist_goal_off_axis, length_goal_off_axis. lra.
    - rewrite dist_goal_off_axis. simpl. lra. }
  rewrite linear_steps_cons, Hrun, linear_steps_cons.
  set (st1 := snd (moveLinear_tick defaultConfig call st0 goal_off_axis
                     obstacle_ahead)).
  destruct (tick_preempt defaultConfig call st1 goal_off_axis (preempt_at 1)
              eq_refl) as [Hdone [Hv2 _]].
  rewrite Hdone. cbn [map]. rewrite Hv2.
  rewrite (tick_velocity_zero defaultConfig call st0 goal_off_axis
             obstacle_ahead).
  2:{ left. apply ltb_true. subst call.
      rewrite obstacleDistOf_forward_reading. simpl. lra. }
  rewrite !tick_rotation.
  assert (Hst1 : lateralError st1 - prevLateralError st1 = 0).
  { subst st1. rewrite moveLinear_tick_eq. cbn [snd lateralError
      prevLateralError]. lra. }
  unfold lateral_pid. cbv zeta. cbn [snd]. rewrite Hst1.
  subst st0. cbn [linear_init lateralError prevLateralError lateralIntegral
    lateralKp lateralKi lateralKd maxLateralVelocity sideRecoverWeight
    defaultConfig goal_off_axis vy].
  rewrite !max_Rmax, !min_Rmin.
  repeat match goal with
  | |- context [Rmin (1 / 2) ?e] =>
      lazymatch e with
      | 18 / 41 => fail
      | _ => replace e with (18 / 41) by lra
      end
  end.
  rewrite (Rmin_right (1 / 2) (18 / 41)) by lra.
  rewrite (Rmax_right (- (1 / 2)) (18 / 41)) by lra.
  reflexivity.
Qed.

Lemma C10_commands_carry_pid_rotation_witness :
  let cfg := defaultConfig in
  let w := lin_world_paused_preempted in
  let poseDriving := mkVector3 0 0 0 in
  getTransform (lw_entry w) "odom" (baseFrame cfg) = Some poseDriving /\
  (let remaining0 := getOrigin (tf_mul poseDriving goal_off_axis) in
   let call := linear_call cfg remaining0 in
   let init := linear_init remaining0 (lw_now w) in
   let readings := readings_of cfg "odom" goal_off_axis (lw_ticks w) in
   let steps := linear_steps cfg call init readings in
   let sent := commands (snd (moveLinear cfg goal_off_axis "odom" w)) in
   sent = map (fun step => (ls_rotation step, ls_velocity step)) steps /\
   map fst sent
   = firstn (List.length sent)
       (lateral_rotations cfg init (map fst readings)) /\
   Forall2
     (fun step reading =>
        Num.ltb (obstacleDistOf call (snd reading))
          (forwardObstacleThreshold cfg) = true
        \/ ls_done step = true -> ls_velocity step = 0)
     steps (firstn (List.length steps) readings)) /\
  commands (snd (moveLinear cfg goal_off_axis "odom" w))
  = [(18 / 41, 0); (18 / 41, 0)].
Proof.
  intros cfg w poseDriving.
  split; [reflexivity |].
  split; [| exact commands_paused_preempted].
  exact (C10_commands_carry_pid_rotation cfg goal_off_axis "odom" w
           poseDriving eq_refl).
Defined.

(** * Further properties of the code *)

(** ** normalizeAngle on any angle *)

(** X1: normalizeAngle is an odd function on every angle: normalizing the
    opposite angle gives the opposite result. *)
Theorem X1_normalizeAngle_odd (a : R) :
  normalizeAngle (- a) = - normalizeAngle a.
Proof.
  pose proof PI_RGT_0 as Hpi. unfold normalizeAngle. cmp_cases; lra.
Qed.

(** X2: an angle farther than 3 PI from zero is brought only 2 PI closer
    and stays outside [[- PI, PI]]: the function shifts once and never
    loops. *)
Theorem X2_normalizeAngle_far_input (a : R) :
  3 * PI < Rabs a ->
  Rabs (normalizeAngle a) = Rabs a - 2 * PI /\
  PI < Rabs (normalizeAngle a).
Proof.
  pose proof PI_RGT_0 as Hpi. intros Ha.
  unfold normalizeAngle, Rabs in *.
  destruct (Rcase_abs a); cmp_cases; try lra;
    destruct (Rcase_abs _); lra.
Qed.

Lemma X2_normalizeAngle_far_input_witness :
  3 * PI < Rabs (4 * PI) /\
  Rabs (normalizeAngle (4 * PI)) = Rabs (4 * PI) - 2 * PI /\
  PI < Rabs (normalizeAngle (4 * PI)).
Proof.
  assert (H : 3 * PI < Rabs (4 * PI)).
  { pose proof PI_RGT_0. rewrite Rabs_pos_eq; lra. }
  split; [exact H | exact (X2_normalizeAngle_far_input (4 * PI) H)].
Defined.

(** ** The rotation controller, further *)

(** X3: with a non-negative gain and acceleration, the velocity computed
    for a rotation never decreases when the angle remaining grows in
    magnitude, the obstacle clearance being the same. *)
Theorem X3_rotate_velocity_monotone (cfg : Config) (a a' obstacle : R) :
  0 <= rotGain cfg ->
  0 <= angularAcceleration cfg ->
  Rabs a <= Rabs a' ->
  rotate_velocity cfg a obstacle <= rotate_velocity cfg a' obstacle.
Proof.
  intros Hg Hacc Hle. rewrite !rotate_velocity_real by exact Hacc.
  set (r := Rmin (Rabs a) (Rabs obstacle)).
  set (r' := Rmin (Rabs a') (Rabs obstacle)).
  assert (Hr : r <= r').
  { subst r r'. unfold Rmin. repeat destruct (Rle_dec _ _); lra. }
  assert (Hgr : rotGain cfg * r <= rotGain cfg * r')
    by now apply Rmult_le_compat_l.
  assert (Hsq : sqrt (2 * angularAcceleration cfg * r)
                <= sqrt (2 * angularAcceleration cfg * r')).
  { apply sqrt_le_1_alt. apply Rmult_le_compat_l; lra. }
  revert Hgr Hsq.
  generalize (rotGain cfg * r) (rotGain cfg * r')
    (sqrt (2 * angularAcceleration cfg * r))
    (sqrt (2 * angularAcceleration cfg * r')).
  intros x x' y y' Hx Hy. minmax_cases; lra.
Qed.

Lemma X3_rotate_velocity_monotone_witness :
  0 <= rotGain defaultConfig /\
  0 <= angularAcceleration defaultConfig /\
  Rabs 1 <= Rabs 2 /\
  rotate_velocity defaultConfig 1 10 <= rotate_velocity defaultConfig 2 10.
Proof.
  assert (H1 : 0 <= rotGain defaultConfig) by (simpl; lra).
  assert (H2 : 0 <= angularAcceleration defaultConfig) by (simpl; lra).
  assert (H3 : Rabs 1 <= Rabs 2)
    by (rewrite Rabs_R1, (Rabs_pos_eq 2); lra).
  repeat (split; [assumption |]).
  exact (X3_rotate_velocity_monotone defaultConfig 1 2 10 H1 H2 H3).
Defined.

Lemma rotate_velocity_ceiling (cfg : Config) (angleRemaining obstacle : R) :
  rotate_velocity cfg angleRemaining obstacle
  <= Rmax (minTurningVelocity cfg) (maxTurningVelocity cfg).
Proof.
  unfold rotate_velocity. rewrite !max_Rmax, !min_Rmin.
  pose proof (min_sqrt_le (maxTurningVelocity cfg)
    (2 * angularAcceleration cfg *
     Rmin (Num.abs angleRemaining) (Num.abs obstacle))) as Hle.
  revert Hle.
  generalize (rotGain cfg *
              Rmin (Num.abs angleRemaining) (Num.abs obstacle))
    (Num.min_sqrt (maxTurningVelocity cfg)
       (2 * angularAcceleration cfg *
        Rmin (Num.abs angleRemaining) (Num.abs obstacle))).
  intros x y Hy. minmax_cases; lra.
Qed.

(** The velocity a rotation pass sends is zero or the computed velocity,
    with the sign of the angle remaining. *)
Lemma rotate_tick_velocity_cases (cfg : Config) (requestedYaw currentYaw : R)
    (s : RotSense) :
  let angleRemaining := normalizeAngle (requestedYaw - currentYaw) in
  let v := rotate_velocity cfg angleRemaining
             (obstacle_angle s (Num.gtb angleRemaining 0)) in
  rs_velocity (rotate_tick cfg requestedYaw currentYaw s) = 0 \/
  (0 <= angleRemaining /\
   rs_velocity (rotate_tick cfg requestedYaw currentYaw s) = v) \/
  (angleRemaining < 0 /\
   rs_velocity (rotate_tick cfg requestedYaw currentYaw s) = - v).
Proof.
  intros ang v. unfold rotate_tick. fold ang. fold v.
  destruct (rot_preempt s);
    destruct (Num.ltb (Num.abs ang) (angularTolerance cfg));
    cbn [rs_velocity];
    destruct (Num.ltb ang 0) eqn:Hneg;
    try (left; lra).
  - apply ltb_true in Hneg. right; right. now split.
  - apply ltb_false in Hneg. right; left. now split.
Qed.

(** With a non-negative minTurningVelocity, a rotation pass never
    turns away from the target: the velocity sent is non-negative when
    the angle remaining is non-negative and non-positive when it is
    negative, and its magnitude never exceeds the larger of
    minTurningVelocity and maxTurningVelocity. *)
Lemma rotate_tick_sign_and_bound (cfg : Config)
    (requestedYaw currentYaw : R) (s : RotSense) :
  0 <= minTurningVelocity cfg ->
  let angleRemaining := normalizeAngle (requestedYaw - currentYaw) in
  let sent := rs_velocity (rotate_tick cfg requestedYaw currentYaw s) in
  (0 <= angleRemaining -> 0 <= sent) /\
  (angleRemaining < 0 -> sent <= 0) /\
  Rabs sent <= Rmax (minTurningVelocity cfg) (maxTurningVelocity cfg).
Proof.
  intros Hmin ang sent.
  pose proof (rotate_velocity_floor cfg ang
                (obstacle_angle s (Num.gtb ang 0))) as Hlo.
  pose proof (rotate_velocity_ceiling cfg ang
                (obstacle_angle s (Num.gtb ang 0))) as Hhi.
  pose proof (Rmax_l (minTurningVelocity cfg) (maxTurningVelocity cfg)) as Hm.
  destruct (rotate_tick_velocity_cases cfg requestedYaw currentYaw s)
    as [H | [[Ha H] | [Ha H]]]; fold ang in Ha || idtac; subst sent;
    rewrite H; fold ang.
  - rewrite Rabs_R0. repeat split; intros; lra.
  - repeat split; intros; try lra. rewrite Rabs_pos_eq; lra.
  - repeat split; intros; try lra. rewrite Rabs_Ropp, Rabs_pos_eq; lra.
Qed.

(** X4: with a non-negative minTurningVelocity, a rotation pass never
    turns away from the target: the velocity sent is non-negative when
    the angle remaining is non-negative and non-positive when it is
    negative, and its magnitude never exceeds the larger of
    minTurningVelocity and maxTurningVelocity. *)
Theorem X4_rotate_tick_sign_and_bound (cfg : Config)
    (requestedYaw currentYaw : R) (s : RotSense) :
  0 <= minTurningVelocity cfg ->
  let angleRemaining := normalizeAngle (requestedYaw - currentYaw) in
  let sent := rs_velocity (rotate_tick cfg requestedYaw currentYaw s) in
  (0 <= angleRemaining -> 0 <= sent) /\
  (angleRemaining < 0 -> sent <= 0) /\
  Rabs sent <= Rmax (minTurningVelocity cfg) (maxTurningVelocity cfg).
Proof. apply rotate_tick_sign_and_bound. Qed.

Lemma X4_rotate_tick_sign_and_bound_witness :
  0 <= minTurningVelocity defaultConfig /\
  (0 <= normalizeAngle (1 - 0) ->
   0 <= rs_velocity (rotate_tick defaultConfig 1 0 free_rotation)) /\
  (normalizeAngle (1 - 0) < 0 ->
   rs_velocity (rotate_tick defaultConfig 1 0 free_rotation) <= 0) /\
  Rabs (rs_velocity (rotate_tick defaultConfig 1 0 free_rotation))
  <= Rmax (minTurningVelocity defaultConfig)
          (maxTurningVelocity defaultConfig).
Proof.
  assert (H : 0 <= minTurningVelocity defaultConfig) by (simpl; lra).
  split; [exact H |].
  exact (X4_rotate_tick_sign_and_bound defaultConfig 1 0 free_rotation H).
Defined.

Lemma rotate_tick_success (cfg : Config) (requestedYaw currentYaw : R)
    (s : RotSense) :
  rs_success (rotate_tick cfg requestedYaw currentYaw s) = true ->
  Rabs (normalizeAngle (requestedYaw - currentYaw)) < angularTolerance cfg.
Proof.
  unfold rotate_tick, Num.abs.
  destruct (Num.ltb (Rabs (normalizeAngle (requestedYaw - currentYaw)))
              (angularTolerance cfg)) eqn:Htol.
  - intros _. now apply ltb_true.
  - destruct (rot_preempt s); cbn [rs_success]; discriminate.
Qed.

Section RotationRuns.

Context {T : Type} {tf2 : Tf2 T}.

(** Every event of the rotation loop is the command of one pass, with no
    linear part, or the abort of a failed pose lookup. *)
Lemma rotate_loop_events (cfg : Config) (drivingFrame : string)
    (requestedYaw : R) (ticks : list (TfBuffer T * RotSense)) (ev : Event) :
  In ev (snd (rotate_loop cfg drivingFrame requestedYaw ticks)) ->
  ev = Abort msg_rotation_pose \/
  exists currentYaw s,
    ev = Cmd (rs_velocity (rotate_tick cfg requestedYaw currentYaw s)) 0.
Proof.
  induction ticks as [| [buf s] rest IH]; cbn [rotate_loop]; [intros [] |].
  destruct (getTransform buf (baseFrame cfg) drivingFrame) as [pose |].
  - destruct (getPose pose) as [[x y] currentYaw].
    destruct (rs_done (rotate_tick cfg requestedYaw currentYaw s)).
    + intros [<- | []]. right. now exists currentYaw, s.
    + destruct (rotate_loop cfg drivingFrame requestedYaw rest) as [r evs].
      cbn [snd] in *. intros [<- | H]; [| now apply IH].
      right. now exists currentYaw, s.
  - intros [<- | []]. now left.
Qed.

Lemma rotate_events (cfg : Config) (yaw : R) (drivingFrame : string)
    (w : RotWorld) (ev : Event) :
  In ev (snd (rotate cfg yaw drivingFrame w)) ->
  ev = Abort msg_rotation_pose \/
  exists requestedYaw currentYaw s,
    ev = Cmd (rs_velocity (rotate_tick cfg requestedYaw currentYaw s)) 0.
Proof.
  unfold rotate.
  destruct (getTransform (rw_entry w) (baseFrame cfg) drivingFrame)
    as [pose |].
  - destruct (getPose pose) as [[x y] currentYaw]. intros H.
    apply rotate_loop_events in H. destruct H as [H | [c [s H]]];
      [now left | right].
    now exists (normalizeAngle (currentYaw + yaw)), c, s.
  - intros [<- | []]. now left.
Qed.

(** X5: a rotation never commands a linear motion: every command sent
    during a call of rotate has a zero linear part, and, with a
    non-negative minTurningVelocity, an angular part no larger in
    magnitude than the larger of minTurningVelocity and
    maxTurningVelocity. *)
Theorem X5_rotate_commands_are_pure_turns (cfg : Config) (yaw : R)
    (drivingFrame : string) (w : RotWorld) (angular linear : R) :
  0 <= minTurningVelocity cfg ->
  In (Cmd angular linear) (snd (rotate cfg yaw drivingFrame w)) ->
  linear = 0 /\
  Rabs angular <= Rmax (minTurningVelocity cfg) (maxTurningVelocity cfg).
Proof.
  intros Hmin Hin. apply rotate_events in Hin.
  destruct Hin as [H | [req [cur [s H]]]]; [discriminate |].
  injection H as -> ->. split; [reflexivity |].
  now apply rotate_tick_sign_and_bound.
Qed.

(** The loop of rotate returns true only after a pass that found the yaw
    within the tolerance, and then ends on the stop command. *)
Lemma rotate_loop_success (cfg : Config)
    (drivingFrame : string) (requestedYaw : R)
    (ticks : list (TfBuffer T * RotSense)) :
  fst (rotate_loop cfg drivingFrame requestedYaw ticks) = true ->
  (exists buf s pose,
     In (buf, s) ticks /\
     getTransform buf (baseFrame cfg) drivingFrame = Some pose /\
     Rabs (normalizeAngle (requestedYaw - getRPY_yaw pose))
     < angularTolerance cfg) /\
  exists before,
    snd (rotate_loop cfg drivingFrame requestedYaw ticks)
    = before ++ [Cmd 0 0].
Proof.
  induction ticks as [| [buf s] rest IH]; cbn [rotate_loop];
    [discriminate |].
  destruct (getTransform buf (baseFrame cfg) drivingFrame) as [pose |] eqn:Hl;
    [| discriminate].
  unfold getPose.
  destruct (rs_done (rotate_tick cfg requestedYaw (getRPY_yaw pose) s))
    eqn:Hdone.
  - cbn [fst snd]. intros Hs.
    pose proof (rotate_tick_success _ _ _ _ Hs) as Htol.
    split.
    + exists buf, s, pose. repeat split; [now left | assumption..].
    + exists []. cbn [app].
      destruct (rotate_tick_finish _ _ _ s Htol) as [_ [_ Hv]].
      now rewrite Hv.
  - destruct (rotate_loop cfg drivingFrame requestedYaw rest) as [r evs].
    cbn [fst snd] in *. intros Hr. destruct (IH Hr) as [Hex [before Hb]].
    split.
    + destruct Hex as [b [s0 [p [Hin H]]]].
      exists b, s0, p. split; [now right | exact H].
    + exists (Cmd (rs_velocity
                     (rotate_tick cfg requestedYaw (getRPY_yaw pose) s)) 0
              :: before).
      now rewrite Hb.
Qed.

(** X6: a call of rotate returns true only if the pose was found at entry
    and, on one of its ticks, the pose was found with a yaw within
    angularTolerance of the requested yaw (the entry yaw plus the yaw
    asked for, normalized); the last thing the call did was then to send
    the stop command. *)
Theorem X6_rotate_success_means_on_target (cfg : Config) (yaw : R)
    (drivingFrame : string) (w : RotWorld) :
  fst (rotate cfg yaw drivingFrame w) = true ->
  exists entryPose,
    getTransform (rw_entry w) (baseFrame cfg) drivingFrame = Some entryPose /\
    (exists buf s pose,
       In (buf, s) (rw_ticks w) /\
       getTransform buf (baseFrame cfg) drivingFrame = Some pose /\
       Rabs (normalizeAngle
               (normalizeAngle (getRPY_yaw entryPose + yaw) - getRPY_yaw pose))
       < angularTolerance cfg) /\
    exists before, snd (rotate cfg yaw drivingFrame w) = before ++ [Cmd 0 0].
Proof.
  unfold rotate.
  destruct (getTransform (rw_entry w) (baseFrame cfg) drivingFrame)
    as [entryPose |]; [| discriminate].
  unfold getPose. intros H. exists entryPose. split; [reflexivity |].
  now apply rotate_loop_success.
Qed.

(** X7: rotate calls abortGoal only for a failed pose lookup: when the
    pose is found at entry and on every tick, no abort is reported,
    whatever preempt requests arrive. *)
Theorem X7_rotate_aborts_only_without_pose (cfg : Config) (yaw : R)
    (drivingFrame : string) (w : RotWorld) (msg : string) :
  getTransform (rw_entry w) (baseFrame cfg) drivingFrame <> None ->
  Forall (fun t => getTransform (fst t) (baseFrame cfg) drivingFrame <> None)
         (rw_ticks w) ->
  ~ In (Abort msg) (snd (rotate cfg yaw drivingFrame w)).
Proof.
  intros Hentry Hticks. unfold rotate.
  destruct (getTransform (rw_entry w) (baseFrame cfg) drivingFrame)
    as [pose |]; [| contradiction].
  destruct (getPose pose) as [[x y] currentYaw].
  generalize (normalizeAngle (currentYaw + yaw)). intros req.
  induction Hticks as [| [buf s] rest Hb _ IH]; cbn [rotate_loop];
    [intros [] |].
  cbn [fst] in Hb.
  destruct (getTransform buf (baseFrame cfg) drivingFrame) as [p |];
    [| contradiction].
  destruct (getPose p) as [[x1 y1] cur].
  destruct (rs_done (rotate_tick cfg req cur s)).
  - intros [H | []]. discriminate.
  - destruct (rotate_loop cfg drivingFrame req rest) as [r evs].
    cbn [snd] in *. intros [H | H]; [discriminate | now apply IH].
Qed.

End RotationRuns.

Lemma rotate_on_target :
  rotate defaultConfig 0 "odom" rot_world_on_target = (true, [Cmd 0 0]).
Proof.
  unfold rotate, rot_world_on_target; cbn [rw_entry rw_ticks getTransform
    buf_origin getPose getOrigin getRPY_yaw Translation vx vy rotate_loop].
  assert (Hn : normalizeAngle (0 + 0) = 0).
  { pose proof PI_RGT_0. replace (0 + 0) with 0 by lra.
    apply normalizeAngle_id. lra. }
  rewrite Hn.
  assert (Htol : Rabs (normalizeAngle (0 - 0))
                 < angularTolerance defaultConfig).
  { pose proof PI_RGT_0. replace (0 - 0) with 0 by lra.
    rewrite normalizeAngle_id by lra. rewrite Rabs_R0. simpl. lra. }
  destruct (rotate_tick_finish defaultConfig 0 0 free_rotation Htol)
    as [Hd [Hs Hv]].
  now rewrite Hd, Hs, Hv.
Qed.

Lemma X6_rotate_success_means_on_target_witness :
  fst (rotate defaultConfig 0 "odom" rot_world_on_target) = true /\
  exists entryPose,
    getTransform (rw_entry rot_world_on_target) (baseFrame defaultConfig)
      "odom" = Some entryPose /\
    (exists buf s pose,
       In (buf, s) (rw_ticks rot_world_on_target) /\
       getTransform buf (baseFrame defaultConfig) "odom" = Some pose /\
       Rabs (normalizeAngle
               (normalizeAngle (getRPY_yaw entryPose + 0) - getRPY_yaw pose))
       < angularTolerance defaultConfig) /\
    exists before,
      snd (rotate defaultConfig 0 "odom" rot_world_on_target)
      = before ++ [Cmd 0 0].
Proof.
  assert (H : fst (rotate defaultConfig 0 "odom" rot_world_on_target) = true)
    by now rewrite rotate_on_target.
  split; [exact H |].
  exact (X6_rotate_success_means_on_target defaultConfig 0 "odom"
           rot_world_on_target H).
Defined.

Lemma X7_rotate_aborts_only_without_pose_witness :
  getTransform (rw_entry rot_world_preempted) (baseFrame defaultConfig) "odom"
    <> None /\
  Forall (fun t =>
            getTransform (fst t) (baseFrame defaultConfig) "odom" <> None)
         (rw_ticks rot_world_preempted) /\
  ~ In (Abort msg_rotation_pose)
       (snd (rotate defaultConfig 1 "odom" rot_world_preempted)).
Proof.
  assert (H1 : getTransform (rw_entry rot_world_preempted)
                 (baseFrame defaultConfig) "odom" <> None) by discriminate.
  assert (H2 : Forall (fun t =>
                 getTransform (fst t) (baseFrame defaultConfig) "odom"
                 <> None) (rw_ticks rot_world_preempted)).
  { repeat constructor. discriminate. }
  split; [exact H1 | split; [exact H2 |]].
  exact (X7_rotate_aborts_only_without_pose defaultConfig 1 "odom"
           rot_world_preempted msg_rotation_pose H1 H2).
Defined.

(** X8: the angles of a rotation stay normalized: with the yaw read at
    entry and the yaw read on a tick both within [[- PI, PI]] and a
    requested turn of at most a full turn either way, the requested yaw
    and the angle remaining computed on the tick are within
    [[- PI, PI]]. *)
Theorem X8_rotation_angles_stay_normalized (entryYaw yaw currentYaw : R) :
  - PI <= entryYaw <= PI ->
  - (2 * PI) <= yaw <= 2 * PI ->
  - PI <= currentYaw <= PI ->
  let requestedYaw := normalizeAngle (entryYaw + yaw) in
  - PI <= requestedYaw <= PI /\
  - PI <= normalizeAngle (requestedYaw - currentYaw) <= PI.
Proof.
  intros He Hy Hc requestedYaw. pose proof PI_RGT_0 as Hpi.
  assert (Hreq : - PI <= requestedYaw <= PI).
  { subst requestedYaw.
    assert (Hr : - (3 * PI) <= entryYaw + yaw <= 3 * PI) by lra.
    destruct (normalizeAngle_cases _ Hr) as [[H E] | [[H E] | [H E]]];
      rewrite E; lra. }
  split; [exact Hreq |].
  assert (Hr : - (3 * PI) <= requestedYaw - currentYaw <= 3 * PI) by lra.
  destruct (normalizeAngle_cases _ Hr) as [[H E] | [[H E] | [H E]]];
    rewrite E; lra.
Qed.

Lemma X8_rotation_angles_stay_normalized_witness :
  - PI <= 0 <= PI /\
  - (2 * PI) <= 2 * PI <= 2 * PI /\
  - PI <= PI <= PI /\
  - PI <= normalizeAngle (0 + 2 * PI) <= PI /\
  - PI <= normalizeAngle (normalizeAngle (0 + 2 * PI) - PI) <= PI.
Proof.
  pose proof PI_RGT_0 as Hpi.
  assert (H1 : - PI <= 0 <= PI) by lra.
  assert (H2 : - (2 * PI) <= 2 * PI <= 2 * PI) by lra.
  assert (H3 : - PI <= PI <= PI) by lra.
  repeat (split; [assumption |]).
  exact (X8_rotation_angles_stay_normalized 0 (2 * PI) PI H1 H2 H3).
Defined.

Lemma X5_rotate_commands_are_pure_turns_witness :
  0 <= minTurningVelocity defaultConfig /\
  In (Cmd 0 0) (snd (rotate defaultConfig 0 "odom" rot_world_on_target)) /\
  0 = 0 /\
  Rabs 0 <= Rmax (minTurningVelocity defaultConfig)
                 (maxTurningVelocity defaultConfig).
Proof.
  assert (Hmin : 0 <= minTurningVelocity defaultConfig) by (simpl; lra).
  assert (Hin : In (Cmd 0 0)
                   (snd (rotate defaultConfig 0 "odom" rot_world_on_target))).
  { rewrite rotate_on_target. now left. }
  split; [exact Hmin | split; [exact Hin |]].
  exact (X5_rotate_commands_are_pure_turns defaultConfig 0 "odom"
           rot_world_on_target 0 0 Hmin Hin).
Defined.

(** ** The linear controller, further *)

(** The computed linear velocity lies between zero and each of its caps,
    for a non-negative gain and velocity limit; the square-root cap is
    there when the acceleration is not negative. *)
Lemma linear_velocity_bounds (cfg : Config) (obstacleDist distRemaining : R) :
  0 <= linGain cfg -> 0 <= maxLinearVelocity cfg ->
  let u := linear_velocity cfg obstacleDist distRemaining in
  0 <= u /\ u <= maxLinearVelocity cfg /\
  u <= linGain cfg * Rabs obstacleDist /\
  u <= linGain cfg * Rabs distRemaining /\
  (0 <= linearAcceleration cfg ->
   u <= sqrt (2 * linearAcceleration cfg
              * Rmin (Rabs obstacleDist) (Rabs distRemaining))).
Proof.
  intros Hg Hmax u. subst u. unfold linear_velocity, Num.abs.
  rewrite !min_Rmin.
  set (d := Rmin (Rabs obstacleDist) (Rabs distRemaining)).
  assert (Hd : 0 <= d) by (subst d; apply Rmin_glb; apply Rabs_pos).
  assert (H0 : 0 <= linGain cfg * d) by now apply Rmult_le_pos.
  assert (H1 : linGain cfg * d <= linGain cfg * Rabs obstacleDist)
    by (apply Rmult_le_compat_l; [exact Hg | apply Rmin_l]).
  assert (H2 : linGain cfg * d <= linGain cfg * Rabs distRemaining)
    by (apply Rmult_le_compat_l; [exact Hg | apply Rmin_r]).
  pose proof (sqrt_pos (2 * linearAcceleration cfg * d)) as Hsq.
  destruct (min_sqrt_cases (maxLinearVelocity cfg)
              (2 * linearAcceleration cfg * d)) as [[Hneg ->] | [Hpos ->]].
  - assert (Hacc : ~ 0 <= linearAcceleration cfg).
    { intros Hacc. assert (0 <= 2 * linearAcceleration cfg * d)
        by (apply Rmult_le_pos; lra). lra. }
    revert H0 H1 H2. generalize (linGain cfg * d). intros x H0 H1 H2.
    repeat split; minmax_cases; lra.
  - revert H0 H1 H2 Hsq.
    generalize (linGain cfg * d) (sqrt (2 * linearAcceleration cfg * d)).
    intros x y H0 H1 H2 Hy.
    repeat split; try intros _; minmax_cases; lra.
Qed.

(** The linear velocity a pass sends is zero or the computed velocity,
    signed by the direction of travel. *)
Lemma tick_velocity_cases (cfg : Config) (call : LinCall) (st : LinState)
    (remaining : Vector3) (s : LinSense) :
  let u := linear_velocity cfg (obstacleDistOf call s)
             (distRemainingOf remaining) in
  let sent := ls_velocity (fst (moveLinear_tick cfg call st remaining s)) in
  sent = 0 \/
  (forward call = true /\ sent = u) \/
  (forward call = false /\ sent = - u).
Proof.
  intros u sent. subst sent. rewrite moveLinear_tick_eq.
  cbn [fst ls_velocity]. fold u.
  destruct (Num.ltb (obstacleDistOf call s) (forwardObstacleThreshold cfg));
    destruct (lin_preempt s);
    destruct (Num.gtb (distRemainingOf remaining) (prevDistRemaining st)
              && Num.gtb (now_progress s - last st) (abortTimeout call));
    destruct (Num.ltb (Num.abs _) (velThreshold cfg)
              && Num.ltb (distRemainingOf remaining) (linearTolerance cfg));
    destruct (forward call); cbn [negb];
    try (left; lra);
    try (right; left; split; [reflexivity | lra]);
    try (right; right; split; [reflexivity | lra]).
Qed.

Lemma lateral_pid_bound (cfg : Config) (st : LinState) (remaining : Vector3) :
  0 <= maxLateralVelocity cfg ->
  Rabs (snd (lateral_pid cfg st remaining)) <= maxLateralVelocity cfg.
Proof.
  intros Hm. unfold lateral_pid. cbn [snd].
  rewrite max_Rmax, min_Rmin.
  generalize (lateralKp cfg * (sideRecoverWeight cfg * vy remaining)
              + lateralKi cfg
                * (lateralIntegral st + sideRecoverWeight cfg * vy remaining)
              + lateralKd cfg * (lateralError st - prevLateralError st)).
  intros x. unfold Rabs. destruct (Rcase_abs _) as [H | H];
    revert H; minmax_cases; lra.
Qed.

(** The command of one pass, within the configured limits and in the
    direction of travel. *)
Lemma tick_command_bounds (cfg : Config) (call : LinCall) (st : LinState)
    (remaining : Vector3) (s : LinSense) :
  0 <= maxLateralVelocity cfg ->
  0 <= linGain cfg ->
  0 <= maxLinearVelocity cfg ->
  let step := fst (moveLinear_tick cfg call st remaining s) in
  Rabs (ls_rotation step) <= maxLateralVelocity cfg /\
  Rabs (ls_velocity step) <= maxLinearVelocity cfg /\
  (forward call = true -> 0 <= ls_velocity step) /\
  (forward call = false -> ls_velocity step <= 0).
Proof.
  intros Hlat Hg Hmax step. subst step.
  split; [rewrite tick_rotation; now apply lateral_pid_bound |].
  destruct (linear_velocity_bounds cfg (obstacleDistOf call s)
              (distRemainingOf remaining) Hg Hmax) as [Hpos [Hle _]].
  destruct (tick_velocity_cases cfg call st remaining s)
    as [H | [[Hf H] | [Hf H]]]; rewrite H.
  - rewrite Rabs_R0. repeat split; intros; lra.
  - rewrite Rabs_pos_eq by lra. repeat split; intros; try lra.
    congruence.
  - rewrite Rabs_Ropp, Rabs_pos_eq by lra. repeat split; intros; try lra.
    congruence.
Qed.

Section LinearRuns.

Context {T : Type} {tf2 : Tf2 T}.

(** X9: with non-negative limits and gain, every command sent during a
    call of moveLinear has an angular part within maxLateralVelocity and
    a linear part within maxLinearVelocity, and the sign of the linear
    part is fixed by the side of the goal at entry: it is non-negative
    when the goal was ahead of the robot at entry and non-positive
    otherwise, wherever the goal is when the command is sent. *)
Theorem X9_moveLinear_commands_within_limits (cfg : Config)
    (goalInDriving : T) (drivingFrame : string) (w : LinWorld)
    (angular linear : R) :
  0 <= maxLateralVelocity cfg ->
  0 <= linGain cfg ->
  0 <= maxLinearVelocity cfg ->
  In (Cmd angular linear) (snd (moveLinear cfg goalInDriving drivingFrame w)) ->
  Rabs angular <= maxLateralVelocity cfg /\
  Rabs linear <= maxLinearVelocity cfg /\
  exists entryPose,
    getTransform (lw_entry w) drivingFrame (baseFrame cfg) = Some entryPose /\
    (0 < vx (getOrigin (tf_mul entryPose goalInDriving)) -> 0 <= linear) /\
    (vx (getOrigin (tf_mul entryPose goalInDriving)) <= 0 -> linear <= 0).
Proof.
  intros Hlat Hg Hmax. unfold moveLinear.
  destruct (getTransform (lw_entry w) drivingFrame (baseFrame cfg))
    as [entryPose |]; [| intros [H | []]; discriminate].
  set (remaining0 := getOrigin (tf_mul entryPose goalInDriving)).
  intros Hin. apply linear_loop_cmd in Hin.
  destruct Hin as [st' [remaining [s [-> ->]]]].
  destruct (tick_command_bounds cfg (linear_call cfg remaining0) st'
              remaining s Hlat Hg Hmax) as [Ha [Hv [Hf Hb]]].
  split; [exact Ha | split; [exact Hv |]].
  exists entryPose. split; [reflexivity |]. split; intros Hx.
  - apply Hf. unfold linear_call; cbn [forward]. now apply gtb_true.
  - apply Hb. unfold linear_call; cbn [forward]. now apply gtb_false.
Qed.

(** The loop of moveLinear returns true only after a pass that found the
    robot within the linear tolerance, and then ends on a command with a
    zero linear part. *)
Lemma linear_loop_success (cfg : Config) (drivingFrame : string)
    (goalInDriving : T) (call : LinCall)
    (ticks : list (TfBuffer T * LinSense)) :
  forall st : LinState,
  fst (linear_loop cfg drivingFrame goalInDriving call st ticks) = true ->
  (exists reading,
     In reading (readings_of cfg drivingFrame goalInDriving ticks) /\
     distRemainingOf (fst reading) < linearTolerance cfg) /\
  exists before angular,
    snd (linear_loop cfg drivingFrame goalInDriving call st ticks)
    = before ++ [Cmd angular 0].
Proof.
  induction ticks as [| [buf s] rest IH]; intros st;
    cbn [linear_loop readings_of]; [discriminate |].
  destruct (getTransform buf drivingFrame (baseFrame cfg)) as [pose |];
    [| discriminate].
  set (remaining := getOrigin (tf_mul pose goalInDriving)).
  destruct (moveLinear_tick cfg call st remaining s) as [step st1] eqn:Etick.
  assert (Estep : step = fst (moveLinear_tick cfg call st remaining s))
    by now rewrite Etick.
  destruct (ls_done step) eqn:Hdone.
  - cbn [fst snd]. intros Hs. split.
    + exists (remaining, s). split; [now left |].
      cbn [fst]. apply (tick_success_is_finish cfg call st remaining s).
      now rewrite <- Estep.
    + assert (Hv : ls_velocity step = 0).
      { rewrite Estep. apply tick_velocity_zero. right.
        now rewrite <- Estep. }
      unfold linear_events. destruct (ls_pid step) as [[x err] rot].
      exists (PidDebug x err rot :: map Abort (ls_aborts step)),
             (ls_rotation step).
      now rewrite Hv.
  - specialize (IH st1).
    destruct (linear_loop cfg drivingFrame goalInDriving call st1 rest)
      as [r evs].
    cbn [fst snd] in *. intros Hr. destruct (IH Hr) as [Hex [before [a Hb]]].
    split.
    + destruct Hex as [reading [Hin H]]. exists reading.
      split; [now right | exact H].
    + exists (linear_events step ++ before), a.
      now rewrite Hb, app_assoc.
Qed.

(** X10: a call of moveLinear returns true only if the pose was found at
    entry and, on one of the ticks it worked on, the goal was nearer than
    linearTolerance; the last command of the call then has a zero linear
    part. *)
Theorem X10_moveLinear_success_means_at_goal (cfg : Config)
    (goalInDriving : T) (drivingFrame : string) (w : LinWorld) :
  fst (moveLinear cfg goalInDriving drivingFrame w) = true ->
  getTransform (lw_entry w) drivingFrame (baseFrame cfg) <> None /\
  (exists reading,
     In reading (readings_of cfg drivingFrame goalInDriving (lw_ticks w)) /\
     distRemainingOf (fst reading) < linearTolerance cfg) /\
  exists before angular,
    snd (moveLinear cfg goalInDriving drivingFrame w)
    = before ++ [Cmd angular 0].
Proof.
  unfold moveLinear.
  destruct (getTransform (lw_entry w) drivingFrame (baseFrame cfg))
    as [entryPose |]; [| discriminate].
  intros H. split; [discriminate |]. now apply linear_loop_success.
Qed.

Lemma linear_loop_aborts (cfg : Config) (drivingFrame : string)
    (goalInDriving : T) (call : LinCall)
    (ticks : list (TfBuffer T * LinSense)) (msg : string) :
  forall st : LinState,
  In (Abort msg)
     (snd (linear_loop cfg drivingFrame goalInDriving call st ticks)) ->
  msg = msg_obstacle \/ msg = msg_no_progress.
Proof.
  intros st. rewrite linear_loop_steps.
  generalize (readings_of cfg drivingFrame goalInDriving ticks).
  intros inputs. revert st.
  induction inputs as [| [remaining s] rest IH]; intros st;
    cbn [linear_steps flat_map]; [intros [] |].
  assert (Hstep : In (Abort msg)
            (linear_events (fst (moveLinear_tick cfg call st remaining s))) ->
            msg = msg_obstacle \/ msg = msg_no_progress).
  { rewrite moveLinear_tick_eq. unfold linear_events.
    cbn [fst ls_pid ls_aborts ls_rotation ls_velocity].
    intros [H | H]; [discriminate |].
    apply in_app_or in H. destruct H as [H | [H | []]]; [| discriminate].
    apply in_map_iff in H. destruct H as [m [Hm Hin]]. injection Hm as ->.
    apply in_app_or in Hin.
    destruct Hin as [Hin | Hin];
      [destruct (_ && _ && _) | destruct (_ && _)];
      first [destruct Hin as [<- | []]; auto | destruct Hin]. }
  destruct (moveLinear_tick cfg call st remaining s) as [step st1].
  cbn [fst] in Hstep.
  destruct (ls_done step); cbn [flat_map]; intros H;
    apply in_app_or in H; destruct H as [H | H]; auto.
  - destruct H.
  - now apply (IH st1).
Qed.

(** X11: moveLinear reports the missing-pose abort only for a failed
    lookup at entry, and then does nothing else; once the entry lookup
    succeeded the only aborts it can report are the obstacle abort and
    the no-progress abort, so a pose lookup that fails inside the loop
    ends the call without any report. *)
Theorem X11_moveLinear_abort_reports (cfg : Config) (goalInDriving : T)
    (drivingFrame : string) (w : LinWorld) (msg : string) :
  In (Abort msg) (snd (moveLinear cfg goalInDriving drivingFrame w)) ->
  (getTransform (lw_entry w) drivingFrame (baseFrame cfg) = None /\
   msg = msg_linear_pose /\
   moveLinear cfg goalInDriving drivingFrame w
   = (false, [Abort msg_linear_pose]))
  \/
  (getTransform (lw_entry w) drivingFrame (baseFrame cfg) <> None /\
   (msg = msg_obstacle \/ msg = msg_no_progress)).
Proof.
  unfold moveLinear.
  destruct (getTransform (lw_entry w) drivingFrame (baseFrame cfg))
    as [entryPose |].
  - intros H. right. split; [discriminate |].
    now apply linear_loop_aborts in H.
  - intros [H | []]. injection H as <-. left. now repeat split.
Qed.

End LinearRuns.

Lemma dist_shifted (x : R) :
  0 <= x -> distRemainingOf (mkVector3 (0 + x) (0 + 0) (0 + 0)) = x.
Proof.
  intros Hx. unfold distRemainingOf; cbn [vx vy].
  replace ((0 + x) * (0 + x) + (0 + 0) * (0 + 0)) with (x * x) by ring.
  now apply sqrt_square.
Qed.

(** A translation whose first tick carries a preempt request makes that
    one pass. *)
Lemma moveLinear_preempted (g : Vector3) (frame : string) :
  let remaining := mkVector3 (0 + vx g) (0 + vy g) (0 + vz g) in
  let step :=
    fst (moveLinear_tick defaultConfig (linear_call defaultConfig remaining)
           (linear_init remaining 0) remaining (preempt_at 1)) in
  moveLinear defaultConfig g frame lin_world_preempted
  = (ls_success step, linear_events step).
Proof.
  intros remaining step. unfold moveLinear, lin_world_preempted.
  cbn [lw_entry lw_now lw_ticks getTransform buf_origin tf_mul getOrigin
       Translation vx vy vz linear_loop].
  fold remaining.
  assert (Hd : ls_done step = true)
    by (subst step; now apply tick_preempt).
  subst step.
  destruct (moveLinear_tick defaultConfig (linear_call defaultConfig remaining)
              (linear_init remaining 0) remaining (preempt_at 1))
    as [step st1].
  cbn [fst] in *. now rewrite Hd.
Qed.

(** A translation toward a goal 5 m ahead with nothing near the robot:
    the pass runs at the velocity limit, with no rotation. *)
Lemma moveLinear_clear_command :
  In (Cmd 0 (1 / 2))
     (snd (moveLinear defaultConfig (mkVector3 5 0 0) "odom" lin_world_clear)).
Proof.
  unfold moveLinear.
  cbn [lin_world_clear lw_entry lw_now lw_ticks getTransform buf_origin].
  rewrite linear_loop_steps.
  cbn [readings_of getTransform buf_origin getOrigin tf_mul Translation
       vx vy vz].
  set (remaining := mkVector3 (0 + 5) (0 + 0) (0 + 0)).
  set (call := linear_call defaultConfig remaining).
  set (st := linear_init remaining 0).
  assert (Hd : distRemainingOf remaining = 5)
    by (apply dist_shifted; lra).
  assert (Hobs : obstacleDistOf call (clear_at 1) = 100)
    by (subst call; now rewrite obstacleDistOf_forward_reading).
  assert (Hclear : Num.ltb (obstacleDistOf call (clear_at 1))
                     (forwardObstacleThreshold defaultConfig) = false).
  { apply ltb_false. rewrite Hobs. simpl. lra. }
  assert (Hrun : ls_done (fst (moveLinear_tick defaultConfig call st
                                 remaining (clear_at 1))) = false).
  { apply tick_keeps_running; [| reflexivity | |].
    - rewrite Hobs. simpl. lra.
    - subst st. cbn [linear_init prevDistRemaining]. rewrite Hd.
      unfold length, remaining; cbn [vx vy vz].
      replace ((0 + 5) * (0 + 5) + (0 + 0) * (0 + 0) + (0 + 0) * (0 + 0))
        with (5 * 5) by ring.
      rewrite sqrt_square; lra.
    - rewrite Hd. simpl. lra. }
  rewrite linear_steps_cons, Hrun. cbn [linear_steps flat_map].
  apply in_or_app. left. apply linear_events_cmd. split.
  - rewrite tick_rotation. unfold lateral_pid. cbv zeta. cbn [snd].
    subst st remaining.
    cbn [linear_init lateralError prevLateralError lateralIntegral
      lateralKp lateralKi lateralKd maxLateralVelocity sideRecoverWeight
      defaultConfig vy].
    rewrite max_Rmax, min_Rmin.
    match goal with
    | |- _ = Rmax _ (Rmin _ ?e) => replace e with 0 by lra
    end.
    rewrite (Rmin_right (1 / 2) 0), (Rmax_right (- (1 / 2)) 0) by lra.
    reflexivity.
  - rewrite (tick_running_velocity _ _ _ _ _ Hclear Hrun). cbv zeta.
    replace (negb (forward call)) with false.
    + rewrite linear_velocity_real by (simpl; lra). rewrite Hobs, Hd.
      cbn [linGain maxLinearVelocity linearAcceleration defaultConfig].
      rewrite (Rabs_pos_eq 100), (Rabs_pos_eq 5) by lra.
      rewrite (Rmin_right 100 5) by lra.
      replace (2 * (1 / 10) * 5) with 1 by lra. rewrite sqrt_1.
      rewrite (Rmin_left (1 / 2) 1), (Rmin_right (1 * 5) (1 / 2)) by lra.
      reflexivity.
    + subst call remaining. unfold linear_call; cbn [forward vx].
      symmetry. apply negb_false_iff, gtb_true. lra.
Qed.

Lemma X9_moveLinear_commands_within_limits_witness :
  0 <= maxLateralVelocity defaultConfig /\
  0 <= linGain defaultConfig /\
  0 <= maxLinearVelocity defaultConfig /\
  In (Cmd 0 (1 / 2))
     (snd (moveLinear defaultConfig (mkVector3 5 0 0) "odom" lin_world_clear))
  /\
  Rabs 0 <= maxLateralVelocity defaultConfig /\
  Rabs (1 / 2) <= maxLinearVelocity defaultConfig /\
  exists entryPose,
    getTransform (lw_entry lin_world_clear) "odom"
      (baseFrame defaultConfig) = Some entryPose /\
    (0 < vx (getOrigin (tf_mul entryPose (mkVector3 5 0 0))) ->
     0 <= 1 / 2) /\
    (vx (getOrigin (tf_mul entryPose (mkVector3 5 0 0))) <= 0 ->
     1 / 2 <= 0).
Proof.
  assert (H1 : 0 <= maxLateralVelocity defaultConfig) by (simpl; lra).
  assert (H2 : 0 <= linGain defaultConfig) by (simpl; lra).
  assert (H3 : 0 <= maxLinearVelocity defaultConfig) by (simpl; lra).
  repeat (split; [assumption |]).
  split; [exact moveLinear_clear_command |].
  exact (X9_moveLinear_commands_within_limits defaultConfig
           (mkVector3 5 0 0) "odom" lin_world_clear
           0 (1 / 2) H1 H2 H3 moveLinear_clear_command).
Defined.

Lemma X10_moveLinear_success_means_at_goal_witness :
  fst (moveLinear defaultConfig (mkVector3 (1 / 20) 0 0) "odom"
         lin_world_preempted) = true /\
  getTransform (lw_entry lin_world_preempted) "odom"
    (baseFrame defaultConfig) <> None /\
  (exists reading,
     In reading (readings_of defaultConfig "odom" (mkVector3 (1 / 20) 0 0)
                   (lw_ticks lin_world_preempted)) /\
     distRemainingOf (fst reading) < linearTolerance defaultConfig) /\
  exists before angular,
    snd (moveLinear defaultConfig (mkVector3 (1 / 20) 0 0) "odom"
           lin_world_preempted)
    = before ++ [Cmd angular 0].
Proof.
  assert (H : fst (moveLinear defaultConfig (mkVector3 (1 / 20) 0 0) "odom"
                     lin_world_preempted) = true).
  { rewrite (moveLinear_preempted (mkVector3 (1 / 20) 0 0) "odom").
    cbn [fst vx vy vz].
    apply tick_finish_overrides_preempt; [reflexivity | simpl; lra |].
    rewrite dist_shifted by lra. simpl. lra. }
  split; [exact H |].
  exact (X10_moveLinear_success_means_at_goal defaultConfig
           (mkVector3 (1 / 20) 0 0) "odom" lin_world_preempted H).
Defined.

Lemma X11_moveLinear_abort_reports_witness :
  In (Abort msg_linear_pose)
     (snd (moveLinear defaultConfig (mkVector3 1 0 0) "odom"
             (w_lin world_lost))) /\
  ((getTransform (lw_entry (w_lin world_lost)) "odom"
      (baseFrame defaultConfig) = None /\
    msg_linear_pose = msg_linear_pose /\
    moveLinear defaultConfig (mkVector3 1 0 0) "odom" (w_lin world_lost)
    = (false, [Abort msg_linear_pose]))
   \/
   (getTransform (lw_entry (w_lin world_lost)) "odom"
      (baseFrame defaultConfig) <> None /\
    (msg_linear_pose = msg_obstacle \/ msg_linear_pose = msg_no_progress))).
Proof.
  assert (H : In (Abort msg_linear_pose)
                (snd (moveLinear defaultConfig (mkVector3 1 0 0) "odom"
                        (w_lin world_lost)))) by (now left).
  split; [exact H |].
  exact (X11_moveLinear_abort_reports defaultConfig (mkVector3 1 0 0) "odom"
           (w_lin world_lost) msg_linear_pose H).
Defined.

(** X12: with a non-negative gain, velocity limit and acceleration, the
    linear velocity a pass sends can be braked to a stop within the
    obstacle distance and within the distance remaining at the configured
    deceleration (its square is at most twice the acceleration times
    either distance), and its magnitude is at most the gain times either
    distance. *)
Theorem X12_linear_velocity_can_stop (cfg : Config) (call : LinCall)
    (st : LinState) (remaining : Vector3) (s : LinSense) :
  0 <= linGain cfg ->
  0 <= maxLinearVelocity cfg ->
  0 <= linearAcceleration cfg ->
  let v := ls_velocity (fst (moveLinear_tick cfg call st remaining s)) in
  v * v <= 2 * linearAcceleration cfg * Rabs (obstacleDistOf call s) /\
  v * v <= 2 * linearAcceleration cfg * distRemainingOf remaining /\
  Rabs v <= linGain cfg * Rabs (obstacleDistOf call s) /\
  Rabs v <= linGain cfg * distRemainingOf remaining.
Proof.
  intros Hg Hmax Hacc v.
  set (o := obstacleDistOf call s). set (d := distRemainingOf remaining).
  pose proof (Rabs_pos o) as Ho.
  assert (Hd : 0 <= d) by apply distRemainingOf_nonneg.
  assert (Hda : Rabs d = d) by now apply Rabs_pos_eq.
  destruct (linear_velocity_bounds cfg o d Hg Hmax)
    as [Hpos [_ [Hgo [Hgd Hsq]]]].
  specialize (Hsq Hacc).
  rewrite Hda in Hgd.
  set (u := linear_velocity cfg o d) in *.
  set (m := Rmin (Rabs o) (Rabs d)) in *.
  assert (Hm : 0 <= m) by (subst m; apply Rmin_glb; [exact Ho | lra]).
  assert (Hmo : m <= Rabs o) by apply Rmin_l.
  assert (Hmd : m <= d) by (rewrite <- Hda; apply Rmin_r).
  assert (Hx : 0 <= 2 * linearAcceleration cfg * m)
    by (apply Rmult_le_pos; lra).
  assert (Huu : u * u <= 2 * linearAcceleration cfg * m).
  { rewrite <- (sqrt_def _ Hx). apply Rmult_le_compat; lra. }
  assert (Hxo : 2 * linearAcceleration cfg * m
                <= 2 * linearAcceleration cfg * Rabs o)
    by (apply Rmult_le_compat_l; lra).
  assert (Hxd : 2 * linearAcceleration cfg * m
                <= 2 * linearAcceleration cfg * d)
    by (apply Rmult_le_compat_l; lra).
  assert (Hzo : 0 <= linGain cfg * Rabs o) by now apply Rmult_le_pos.
  assert (Hzd : 0 <= linGain cfg * d) by now apply Rmult_le_pos.
  pose proof (tick_velocity_cases cfg call st remaining s) as Hc.
  cbv zeta in Hc. fold o d in Hc. fold u in Hc. fold v in Hc.
  clearbody v u m.
  destruct Hc as [-> | [[_ ->] | [_ ->]]].
  - rewrite Rabs_R0. repeat split; lra.
  - rewrite (Rabs_pos_eq u) by lra. repeat split; lra.
  - rewrite Rabs_Ropp, (Rabs_pos_eq u) by lra.
    replace (- u * - u) with (u * u) by ring. repeat split; lra.
Qed.

Lemma X12_linear_velocity_can_stop_witness :
  let call := linear_call defaultConfig (mkVector3 2 0 0) in
  let st := linear_init (mkVector3 2 0 0) 0 in
  let v := ls_velocity (fst (moveLinear_tick defaultConfig call st
                               (mkVector3 1 0 0) (clear_at 1))) in
  0 <= linGain defaultConfig /\
  0 <= maxLinearVelocity defaultConfig /\
  0 <= linearAcceleration defaultConfig /\
  v * v <= 2 * linearAcceleration defaultConfig
           * Rabs (obstacleDistOf call (clear_at 1)) /\
  v * v <= 2 * linearAcceleration defaultConfig
           * distRemainingOf (mkVector3 1 0 0) /\
  Rabs v <= linGain defaultConfig * Rabs (obstacleDistOf call (clear_at 1)) /\
  Rabs v <= linGain defaultConfig * distRemainingOf (mkVector3 1 0 0).
Proof.
  intros call st v.
  assert (H1 : 0 <= linGain defaultConfig) by (simpl; lra).
  assert (H2 : 0 <= maxLinearVelocity defaultConfig) by (simpl; lra).
  assert (H3 : 0 <= linearAcceleration defaultConfig) by (simpl; lra).
  repeat (split; [assumption |]).
  exact (X12_linear_velocity_can_stop defaultConfig call st
           (mkVector3 1 0 0) (clear_at 1) H1 H2 H3).
Defined.

(** X13: with a non-negative gain and acceleration, the velocity computed
    for a translation never decreases when the distance remaining grows
    in magnitude, the obstacle distance being the same. *)
Theorem X13_linear_velocity_monotone (cfg : Config) (obstacleDist d d' : R) :
  0 <= linGain cfg ->
  0 <= linearAcceleration cfg ->
  Rabs d <= Rabs d' ->
  linear_velocity cfg obstacleDist d <= linear_velocity cfg obstacleDist d'.
Proof.
  intros Hg Hacc Hle. rewrite !linear_velocity_real by exact Hacc.
  set (r := Rmin (Rabs obstacleDist) (Rabs d)).
  set (r' := Rmin (Rabs obstacleDist) (Rabs d')).
  assert (Hr : r <= r').
  { subst r r'. unfold Rmin. repeat destruct (Rle_dec _ _); lra. }
  assert (Hgr : linGain cfg * r <= linGain cfg * r')
    by now apply Rmult_le_compat_l.
  assert (Hsq : sqrt (2 * linearAcceleration cfg * r)
                <= sqrt (2 * linearAcceleration cfg * r')).
  { apply sqrt_le_1_alt. apply Rmult_le_compat_l; lra. }
  revert Hgr Hsq.
  generalize (linGain cfg * r) (linGain cfg * r')
    (sqrt (2 * linearAcceleration cfg * r))
    (sqrt (2 * linearAcceleration cfg * r')).
  intros x x' y y' Hx Hy. minmax_cases; lra.
Qed.

Lemma X13_linear_velocity_monotone_witness :
  0 <= linGain defaultConfig /\
  0 <= linearAcceleration defaultConfig /\
  Rabs 1 <= Rabs 2 /\
  linear_velocity defaultConfig 100 1 <= linear_velocity defaultConfig 100 2.
Proof.
  assert (H1 : 0 <= linGain defaultConfig) by (simpl; lra).
  assert (H2 : 0 <= linearAcceleration defaultConfig) by (simpl; lra).
  assert (H3 : Rabs 1 <= Rabs 2)
    by (rewrite Rabs_R1, (Rabs_pos_eq 2); lra).
  repeat (split; [assumption |]).
  exact (X13_linear_velocity_monotone defaultConfig 100 1 2 H1 H2 H3).
Defined.

(** ** The lateral PID and the obstacle pause, further *)

Lemma linear_after_integral (cfg : Config) (call : LinCall)
    (inputs : list (Vector3 * LinSense)) :
  forall st : LinState,
  lateralIntegral (linear_after cfg call st inputs)
  = fold_left (fun acc i => acc + sideRecoverWeight cfg * vy (fst i))
              inputs (lateralIntegral st).
Proof.
  unfold linear_after.
  induction inputs as [| [remaining s] rest IH]; intros st; [reflexivity |].
  cbn [fold_left fst snd]. rewrite IH. f_equal.
  rewrite moveLinear_tick_eq. reflexivity.
Qed.

(** X14: the integral of the lateral PID is the sum of the weighted
    lateral offsets of all the ticks since entry: it is never reset, and
    ticks spent paused for an obstacle add to it like any other. *)
Theorem X14_lateral_integral_is_running_sum (cfg : Config) (call : LinCall)
    (remaining0 : Vector3) (now0 : R) (inputs : list (Vector3 * LinSense)) :
  lateralIntegral (linear_after cfg call (linear_init remaining0 now0) inputs)
  = sum_lateral cfg inputs.
Proof. now rewrite linear_after_integral. Qed.

Lemma sum_lateral_straight (cfg : Config)
    (inputs : list (Vector3 * LinSense)) :
  Forall (fun i => vy (fst i) = 0) inputs -> sum_lateral cfg inputs = 0.
Proof.
  intros H. unfold sum_lateral.
  assert (Hacc : forall acc,
            fold_left (fun acc i => acc + sideRecoverWeight cfg * vy (fst i))
                      inputs acc = acc).
  { induction H as [| i rest Hi _ IH]; intros acc; [reflexivity |].
    cbn [fold_left]. rewrite IH, Hi. ring. }
  apply Hacc.
Qed.

(** X15: on a perfectly straight path the lateral PID stays silent: if
    the lateral offset was zero on every tick so far and is zero on this
    one, the rotation sent is zero (for a non-negative
    maxLateralVelocity). *)
Theorem X15_straight_path_no_rotation (cfg : Config) (remaining0 : Vector3)
    (now0 : R) (inputs : list (Vector3 * LinSense)) (remaining : Vector3)
    (s : LinSense) :
  0 <= maxLateralVelocity cfg ->
  Forall (fun i => vy (fst i) = 0) inputs ->
  vy remaining = 0 ->
  let call := linear_call cfg remaining0 in
  let st := linear_after cfg call (linear_init remaining0 now0) inputs in
  ls_rotation (fst (moveLinear_tick cfg call st remaining s)) = 0.
Proof.
  intros Hm Hin Hy call st.
  destruct (lateral_derivative_always_zero cfg remaining0 now0 inputs
              remaining s) as [_ Hrot].
  fold call st in Hrot. rewrite Hrot.
  subst st. rewrite linear_after_integral.
  change (fold_left _ inputs (lateralIntegral (linear_init remaining0 now0)))
    with (sum_lateral cfg inputs).
  rewrite (sum_lateral_straight cfg inputs Hin), Hy.
  rewrite max_Rmax, min_Rmin.
  match goal with
  | |- Rmax _ (Rmin _ ?e) = _ => replace e with 0 by ring
  end.
  rewrite Rmin_right, Rmax_right by lra. reflexivity.
Qed.

Lemma X15_straight_path_no_rotation_witness :
  0 <= maxLateralVelocity defaultConfig /\
  Forall (fun i => vy (fst i) = 0) [(mkVector3 2 0 0, clear_at 1)] /\
  vy (mkVector3 1 0 0) = 0 /\
  ls_rotation
    (fst (moveLinear_tick defaultConfig
            (linear_call defaultConfig (mkVector3 2 0 0))
            (linear_after defaultConfig
               (linear_call defaultConfig (mkVector3 2 0 0))
               (linear_init (mkVector3 2 0 0) 0)
               [(mkVector3 2 0 0, clear_at 1)])
            (mkVector3 1 0 0) (clear_at 2))) = 0.
Proof.
  assert (H1 : 0 <= maxLateralVelocity defaultConfig) by (simpl; lra).
  assert (H2 : Forall (fun i : Vector3 * LinSense => vy (fst i) = 0)
                 [(mkVector3 2 0 0, clear_at 1)])
    by (repeat constructor).
  assert (H3 : vy (mkVector3 1 0 0) = 0) by reflexivity.
  repeat (split; [assumption |]).
  exact (X15_straight_path_no_rotation defaultConfig (mkVector3 2 0 0) 0
           [(mkVector3 2 0 0, clear_at 1)] (mkVector3 1 0 0) (clear_at 2)
           H1 H2 H3).
Defined.

Lemma messages_differ : msg_obstacle <> msg_no_progress.
Proof. discriminate. Qed.

(** X16: the obstacle pause.  After a pass the pause flag says whether
    this pass detected an obstacle under the threshold; the pause clock
    is set on the pass that enters the pause and kept otherwise; a
    detecting pass sends a zero linear velocity; the obstacle abort is
    reported exactly on a detecting pass that was already paused and has
    waited longer than obstacleWaitThreshold.  So the pass after one that
    detected nothing never reports the obstacle abort: pauses do not add
    up. *)
Theorem X16_obstacle_pause (cfg : Config) (call : LinCall) (st : LinState)
    (remaining : Vector3) (s : LinSense)
    (remaining' : Vector3) (s' : LinSense) :
  let detected :=
    Num.ltb (obstacleDistOf call s) (forwardObstacleThreshold cfg) in
  let step := fst (moveLinear_tick cfg call st remaining s) in
  let st' := snd (moveLinear_tick cfg call st remaining s) in
  pausingForObstacle st' = detected /\
  obstacleTime st'
  = (if detected && negb (pausingForObstacle st)
     then now_obstacle s else obstacleTime st) /\
  (detected = true -> ls_velocity step = 0) /\
  (In msg_obstacle (ls_aborts step) <->
   detected = true /\ pausingForObstacle st = true /\
   obstacleWaitThreshold cfg < now_obstacle s - obstacleTime st) /\
  (detected = false ->
   ~ In msg_obstacle
        (ls_aborts (fst (moveLinear_tick cfg call st' remaining' s')))).
Proof.
  intros detected step st'.
  assert (Habort : forall st0 r0 s0,
    In msg_obstacle (ls_aborts (fst (moveLinear_tick cfg call st0 r0 s0))) <->
    Num.ltb (obstacleDistOf call s0) (forwardObstacleThreshold cfg) = true /\
    pausingForObstacle st0 = true /\
    obstacleWaitThreshold cfg < now_obstacle s0 - obstacleTime st0).
  { intros st0 r0 s0. rewrite moveLinear_tick_eq. cbn [fst ls_aborts].
    rewrite in_app_iff, <- gtb_true.
    destruct (Num.ltb (obstacleDistOf call s0) (forwardObstacleThreshold cfg)),
      (pausingForObstacle st0),
      (Num.gtb (now_obstacle s0 - obstacleTime st0)
         (obstacleWaitThreshold cfg));
      cbn [andb]; destruct (_ && _); cbn [In];
      pose proof messages_differ; intuition congruence. }
  assert (Hpause : pausingForObstacle st' = detected)
    by (subst st'; rewrite moveLinear_tick_eq; reflexivity).
  split; [exact Hpause |].
  split; [subst st'; rewrite moveLinear_tick_eq; reflexivity |].
  split; [intros H; apply tick_velocity_zero; now left |].
  split; [apply Habort |].
  intros Hclear Hin. apply Habort in Hin.
  destruct Hin as [_ [Hp _]]. congruence.
Qed.

(** ** Live reconfiguration *)

(** X17: the no-progress timeout of a translation is the abort_timeout in
    force when the call was entered: a reconfiguration that changes only
    abort_timeout changes nothing in the passes of a running call, and
    takes effect in the next call, whose timeout it sets. *)
Theorem X17_abort_timeout_is_read_at_entry (t : R) (config : MovebasicConfig)
    (cfg : Config) (call : LinCall) (st : LinState) (remaining : Vector3)
    (s : LinSense) (remaining0 : Vector3) :
  moveLinear_tick (dynamicReconfigCallback (set_abort_timeout t config) cfg)
    call st remaining s
  = moveLinear_tick (dynamicReconfigCallback config cfg) call st remaining s
  /\
  abortTimeout
    (linear_call (dynamicReconfigCallback (set_abort_timeout t config) cfg)
       remaining0) = t.
Proof. split; reflexivity. Qed.

(** X18: a reconfiguration overwrites every numeric parameter and leaves
    the five frame names alone: the parameters read back are the ones
    given, a second reconfiguration wholly replaces the first, and
    reconfiguring with the parameters already in force changes
    nothing. *)
Theorem X18_reconfiguration_overwrites_parameters
    (config config' : MovebasicConfig) (cfg : Config) :
  paramsOf (dynamicReconfigCallback config cfg) = config /\
  dynamicReconfigCallback config' (dynamicReconfigCallback config cfg)
  = dynamicReconfigCallback config' cfg /\
  dynamicReconfigCallback (paramsOf cfg) cfg = cfg /\
  (preferredPlanningFrame (dynamicReconfigCallback config cfg),
   alternatePlanningFrame (dynamicReconfigCallback config cfg),
   preferredDrivingFrame (dynamicReconfigCallback config cfg),
   alternateDrivingFrame (dynamicReconfigCallback config cfg),
   baseFrame (dynamicReconfigCallback config cfg))
  = (preferredPlanningFrame cfg, alternatePlanningFrame cfg,
     preferredDrivingFrame cfg, alternateDrivingFrame cfg, baseFrame cfg).
Proof.
  destruct config, cfg. repeat split.
Qed.

(** ** Goal execution, further *)

Section GoalRuns.

Context {T : Type} {tf2 : Tf2 T}.

Lemma rotate_no_succeeded (cfg : Config) (yaw : R) (drivingFrame : string)
    (w : RotWorld) :
  ~ In Succeeded (snd (rotate cfg yaw drivingFrame w)).
Proof.
  intros H. apply rotate_events in H.
  destruct H as [H | [r [c [s H]]]]; discriminate.
Qed.

Lemma moveLinear_no_succeeded (cfg : Config) (goalInDriving : T)
    (drivingFrame : string) (w : LinWorld) :
  ~ In Succeeded (snd (moveLinear cfg goalInDriving drivingFrame w)).
Proof.
  unfold moveLinear.
  destruct (getTransform (lw_entry w) drivingFrame (baseFrame cfg))
    as [entryPose |]; [| intros [H | []]; discriminate].
  rewrite linear_loop_steps.
  generalize (linear_steps cfg
                (linear_call cfg (getOrigin (tf_mul entryPose goalInDriving)))
                (linear_init (getOrigin (tf_mul entryPose goalInDriving))
                   (lw_now w))
                (readings_of cfg drivingFrame goalInDriving (lw_ticks w))).
  intros steps H. apply in_flat_map in H. destruct H as [step [_ H]].
  unfold linear_events in H. destruct (ls_pid step) as [[x err] rot].
  destruct H as [H | H]; [discriminate |].
  apply in_app_or in H. destruct H as [H | [H | []]]; [| discriminate].
  apply in_map_iff in H. destruct H as [m [H _]]. discriminate.
Qed.

Lemma drive_succeeded_last (cfg : Config) (w : World) (drivingFrame : string)
    (goalInDriving : T) (linear : Vector3) (yaw goalYaw : R) :
  In Succeeded (drive cfg w drivingFrame goalInDriving linear yaw goalYaw) ->
  exists before,
    drive cfg w drivingFrame goalInDriving linear yaw goalYaw
    = before ++ [Succeeded] /\ ~ In Succeeded before.
Proof.
  destruct (Num.gtb (length linear) (linearTolerance cfg)) eqn:Hfar.
  - apply gtb_true in Hfar. rewrite (drive_phases _ _ _ _ _ _ _ Hfar).
    cbv zeta.
    set (r1 := if needsInitialRotation cfg linear then _ else _).
    set (r2 := moveLinear cfg goalInDriving drivingFrame (w_lin w)).
    set (r3 := if Num.gtb _ _ then _ else _).
    assert (H1 : ~ In Succeeded (snd r1)).
    { subst r1. destruct (needsInitialRotation cfg linear);
        [apply rotate_no_succeeded | intros []]. }
    assert (H2 : ~ In Succeeded (snd r2))
      by (subst r2; apply moveLinear_no_succeeded).
    assert (H3 : ~ In Succeeded (snd r3)).
    { subst r3. destruct (Num.gtb _ _);
        [apply rotate_no_succeeded | intros []]. }
    assert (Hall : ~ In Succeeded
              (snd r1 ++ Sleep (localizationLatency cfg) :: snd r2
               ++ Sleep (localizationLatency cfg) :: snd r3)).
    { intros H. apply in_app_or in H. destruct H as [H | [H | H]];
        [now apply H1 | discriminate |].
      apply in_app_or in H. destruct H as [H | [H | H]];
        [now apply H2 | discriminate | now apply H3]. }
    destruct (negb (fst r1)); [intros H; now apply H1 in H |].
    destruct (negb (fst r2)).
    { intros H. apply in_app_or in H. destruct H as [H | [H | H]];
        [now apply H1 in H | discriminate | now apply H2 in H]. }
    destruct (negb (fst r3)); [intros H; now apply Hall in H |].
    intros _. eexists. split; [reflexivity | exact Hall].
  - unfold drive. rewrite Hfar. intros _. exists []. split; [reflexivity |].
    intros [].
Qed.

(** X19: success is reported at most once and as the very last thing:
    when an execution reports success, that report ends its events and
    nothing before it is a success report. *)
Theorem X19_success_is_reported_last (cfg : Config) (msg : Goal) (w : World) :
  In Succeeded (executeAction cfg msg w) ->
  exists before,
    executeAction cfg msg w = before ++ [Succeeded] /\
    ~ In Succeeded before.
Proof.
  unfold executeAction.
  destruct (yaw_isnan (target_pose msg)); [intros [H | []]; discriminate |].
  destruct (resolvePlanning cfg (w_start w) (strip_slash (frame_id msg))
              (target_pose msg)) as [[planningFrame goalInPlanning] |];
    [| intros [H | []]; discriminate].
  destruct (getPose goalInPlanning) as [[x y] goalYaw].
  destruct (getTransform (w_start w) (baseFrame cfg)
              (strip_slash (frame_id msg))) as [poseFrameId |];
    [| intros [H | []]; discriminate].
  destruct (getPose poseFrameId) as [[x1 y1] yaw].
  destruct (resolveDriving cfg (w_start w))
    as [[drivingFrame currentDrivingBase] |];
    [| intros [H | [H | []]]; discriminate].
  destruct (transformPose (w_start w) (strip_slash (frame_id msg))
              drivingFrame (target_pose msg)) as [goalInDriving |];
    [| intros [H | [H | []]]; discriminate].
  destruct (transformPose (w_start w) (strip_slash (frame_id msg))
              (baseFrame cfg) (target_pose msg));
    [| intros [H | []]; discriminate].
  intros [H | H]; [discriminate |].
  destruct (drive_succeeded_last _ _ _ _ _ _ _ H) as [before [Heq Hno]].
  exists (Path x y x1 y1 :: before). rewrite Heq. split; [reflexivity |].
  intros [Hp | Hp]; [discriminate | now apply Hno].
Qed.

(** X20: a goal nearer than linearTolerance is not driven to: once the
    goal is planned and the frames are resolved, if the straight-line
    distance to the goal in the base frame does not exceed
    linearTolerance, the execution publishes the path and reports success
    at once, with no command sent and no rotation to the goal
    orientation. *)
Theorem X20_goal_within_tolerance_succeeds_at_once (cfg : Config)
    (msg : Goal) (w : World) (planningFrame drivingFrame : string)
    (goalInPlanning robot currentDrivingBase goalInDriving goalInBase : T) :
  let frameId := strip_slash (frame_id msg) in
  yaw_isnan (target_pose msg) = false ->
  resolvePlanning cfg (w_start w) frameId (target_pose msg)
    = Some (planningFrame, goalInPlanning) ->
  getTransform (w_start w) (baseFrame cfg) frameId = Some robot ->
  resolveDriving cfg (w_start w) = Some (drivingFrame, currentDrivingBase) ->
  transformPose (w_start w) frameId drivingFrame (target_pose msg)
    = Some goalInDriving ->
  transformPose (w_start w) frameId (baseFrame cfg) (target_pose msg)
    = Some goalInBase ->
  length (setZ (getOrigin (tf_mul currentDrivingBase goalInDriving)) 0)
    <= linearTolerance cfg ->
  executeAction cfg msg w
  = [Path (vx (getOrigin goalInPlanning)) (vy (getOrigin goalInPlanning))
          (vx (getOrigin robot)) (vy (getOrigin robot));
     Succeeded].
Proof.
  intros frameId Hnan Hplan Hrobot Hdrive Hgoal Hbase Hnear.
  unfold executeAction. fold frameId.
  rewrite Hnan, Hplan, Hrobot, Hdrive, Hgoal, Hbase.
  unfold getPose, drive.
  replace (Num.gtb _ (linearTolerance cfg)) with false
    by (symmetry; now apply gtb_false).
  reflexivity.
Qed.


End GoalRuns.

Lemma length_goal_here :
  length (setZ (getOrigin (tf_mul (mkVector3 0 0 0)
                             (tf_mul (mkVector3 0 0 0) (mkVector3 0 0 0)))) 0)
  = 0.
Proof.
  unfold length, setZ; cbn [tf_mul getOrigin Translation vx vy vz].
  replace ((0 + (0 + 0)) * (0 + (0 + 0))
           + (0 + (0 + 0)) * (0 + (0 + 0)) + 0 * 0) with 0 by ring.
  apply sqrt_0.
Qed.

Lemma X20_goal_within_tolerance_succeeds_at_once_witness :
  let origin := mkVector3 0 0 0 in
  yaw_isnan (target_pose goal_here) = false /\
  resolvePlanning defaultConfig (w_start world_still)
    (strip_slash (frame_id goal_here)) (target_pose goal_here)
    = Some ("odom"%string, origin) /\
  getTransform (w_start world_still) (baseFrame defaultConfig)
    (strip_slash (frame_id goal_here)) = Some origin /\
  resolveDriving defaultConfig (w_start world_still)
    = Some ("map"%string, origin) /\
  transformPose (w_start world_still) (strip_slash (frame_id goal_here))
    "map" (target_pose goal_here) = Some (tf_mul origin origin) /\
  transformPose (w_start world_still) (strip_slash (frame_id goal_here))
    (baseFrame defaultConfig) (target_pose goal_here)
    = Some (tf_mul origin origin) /\
  length (setZ (getOrigin (tf_mul origin (tf_mul origin origin))) 0)
    <= linearTolerance defaultConfig /\
  executeAction defaultConfig goal_here world_still
  = [Path (vx (getOrigin origin)) (vy (getOrigin origin))
          (vx (getOrigin origin)) (vy (getOrigin origin));
     Succeeded].
Proof.
  intros origin.
  assert (H7 : length (setZ (getOrigin (tf_mul origin (tf_mul origin origin)))
                         0) <= linearTolerance defaultConfig).
  { subst origin. rewrite length_goal_here. simpl. lra. }
  repeat (split; [reflexivity || exact H7 |]).
  exact (X20_goal_within_tolerance_succeeds_at_once defaultConfig goal_here
           world_still "odom" "map" origin origin origin
           (tf_mul origin origin) (tf_mul origin origin)
           eq_refl eq_refl eq_refl eq_refl eq_refl eq_refl H7).
Defined.

Lemma execute_goal_here :
  executeAction defaultConfig goal_here world_still
  = [Path 0 0 0 0; Succeeded].
Proof.
  unfold executeAction.
  cbn [target_pose frame_id goal_here strip_slash yaw_isnan Translation
       w_start world_still].
  unfold resolvePlanning.
  cbn [preferredPlanningFrame defaultConfig String.eqb].
  cbn [getPose getOrigin getRPY_yaw Translation vx vy vz].
  change (getTransform buf_origin (baseFrame defaultConfig) "odom")
    with (Some (mkVector3 0 0 0)).
  change (resolveDriving defaultConfig buf_origin)
    with (Some ("map"%string, mkVector3 0 0 0)).
  cbv beta iota.
  change (transformPose buf_origin "odom" "map" (mkVector3 0 0 0))
    with (Some (tf_mul (mkVector3 0 0 0) (mkVector3 0 0 0))).
  change (transformPose buf_origin "odom" (baseFrame defaultConfig)
            (mkVector3 0 0 0))
    with (Some (tf_mul (mkVector3 0 0 0) (mkVector3 0 0 0))).
  cbv beta iota. cbn [vx vy]. f_equal. unfold drive.
  replace (Num.gtb _ (linearTolerance defaultConfig)) with false;
    [reflexivity |].
  symmetry. apply gtb_false.
  change (length (setZ (getOrigin (tf_mul (mkVector3 0 0 0)
            (tf_mul (mkVector3 0 0 0) (mkVector3 0 0 0)))) 0)
          <= linearTolerance defaultConfig).
  rewrite length_goal_here. simpl. lra.
Qed.

Lemma X19_success_is_reported_last_witness :
  In Succeeded (executeAction defaultConfig goal_here world_still) /\
  exists before,
    executeAction defaultConfig goal_here world_still
    = before ++ [Succeeded] /\
    ~ In Succeeded before.
Proof.
  assert (H : In Succeeded (executeAction defaultConfig goal_here world_still))
    by (rewrite execute_goal_here; right; now left).
  split; [exact H |].
  exact (X19_success_is_reported_last defaultConfig goal_here world_still H).
Defined.



Section GoalRejection.

Context {T : Type} {tf2 : Tf2 T}.

(** X22: a leading slash of the goal frame is ignored: a goal given in
    the frame "/f" is executed exactly as the same goal given in "f"
    (for a frame name f that does not itself begin with a slash). *)
Theorem X22_leading_slash_is_ignored (cfg : Config) (pose : T) (f : string)
    (w : World) :
  strip_slash f = f ->
  executeAction cfg (mkGoal pose (String "/"%char f)) w
  = executeAction cfg (mkGoal pose f) w.
Proof.
  intros Hf. unfold executeAction. cbn [frame_id target_pose].
  change (strip_slash (String "/"%char f)) with f. now rewrite Hf.
Qed.

Lemma transformPose_none (buf : TfBuffer T) (from to : string) (inp : T) :
  transformPose buf from to inp = None <-> getTransform buf from to = None.
Proof.
  unfold transformPose. destruct (getTransform buf from to); split;
    intros H; try reflexivity; discriminate.
Qed.

(** X23: a goal is rejected with "No localization available for
    planning", and nothing else happens, exactly when its orientation is
    valid, a preferred planning frame is configured, and the goal frame
    can be looked up neither in the preferred nor in the alternate
    planning frame; with no preferred planning frame configured, planning
    needs no lookup and never fails. *)
Theorem X23_planning_rejection (cfg : Config) (msg : Goal) (w : World) :
  executeAction cfg msg w
  = [Abort "MoveBasic: No localization available for planning"]
  <->
  yaw_isnan (target_pose msg) = false /\
  preferredPlanningFrame cfg <> EmptyString /\
  getTransform (w_start w) (strip_slash (frame_id msg))
    (preferredPlanningFrame cfg) = None /\
  getTransform (w_start w) (strip_slash (frame_id msg))
    (alternatePlanningFrame cfg) = None.
Proof.
  unfold executeAction, resolvePlanning. split.
  - destruct (yaw_isnan (target_pose msg)); [discriminate |].
    destruct (String.eqb (preferredPlanningFrame cfg) EmptyString) eqn:Hpref.
    + destruct (getPose (target_pose msg)) as [[x y] goalYaw].
      destruct (getTransform (w_start w) (baseFrame cfg)
                  (strip_slash (frame_id msg))); [| discriminate].
      destruct (getPose t) as [[x1 y1] yaw].
      destruct (resolveDriving cfg (w_start w)) as [[d c] |];
        [| discriminate].
      destruct (transformPose (w_start w) (strip_slash (frame_id msg)) d
                  (target_pose msg)); [| discriminate].
      destruct (transformPose (w_start w) (strip_slash (frame_id msg))
                  (baseFrame cfg) (target_pose msg)); discriminate.
    + apply String.eqb_neq in Hpref.
      destruct (transformPose (w_start w) (strip_slash (frame_id msg))
                  (preferredPlanningFrame cfg) (target_pose msg))
        as [gp |] eqn:H1;
        [| destruct (transformPose (w_start w) (strip_slash (frame_id msg))
                       (alternatePlanningFrame cfg) (target_pose msg))
             as [gp |] eqn:H2].
      3: { intros _. apply transformPose_none in H1, H2. now repeat split. }
      all: destruct (getPose gp) as [[x y] goalYaw];
        destruct (getTransform (w_start w) (baseFrame cfg)
                    (strip_slash (frame_id msg))); [| discriminate];
        destruct (getPose t) as [[x1 y1] yaw];
        (destruct (resolveDriving cfg (w_start w)) as [[d c] |];
          [| discriminate]);
        (destruct (transformPose (w_start w) (strip_slash (frame_id msg)) d
                    (target_pose msg)); [| discriminate]);
        destruct (transformPose (w_start w) (strip_slash (frame_id msg))
                    (baseFrame cfg) (target_pose msg)); discriminate.
  - intros [Hnan [Hpref [H1 H2]]]. rewrite Hnan.
    apply String.eqb_neq in Hpref. rewrite Hpref.
    apply transformPose_none with (inp := target_pose msg) in H1, H2.
    now rewrite H1, H2.
Qed.

End GoalRejection.

Lemma X22_leading_slash_is_ignored_witness :
  strip_slash "odom" = "odom"%string /\
  executeAction defaultConfig (mkGoal (mkVector3 0 0 0) "/odom") world_still
  = executeAction defaultConfig (mkGoal (mkVector3 0 0 0) "odom") world_still.
Proof.
  split; [reflexivity |].
  exact (X22_leading_slash_is_ignored defaultConfig (mkVector3 0 0 0) "odom"
           world_still eq_refl).
Defined.
